(** * glimmer-vm: dynamic content opcodes, component opening and the
    HTMLBars object model

    A shallow embedding of
    - [packages/htmlbars-object/lib/object.ts] (method and accessor wrapping
      with [_super]),
    - the dynamic-content opcodes ([normalizeValue], [normalizeTrustedValue],
      [AppendDynamicOpcode], [UpdateOpcode]),
    - [OpenComponentOpcode],
    together with the properties established about them. *)

From stdpp Require Import base option list gmap strings.

Local Open Scope string_scope.

(** ** Completions

    A JavaScript call either returns a value or throws.  Every embedded
    function that can reach foreign code (a [toString], a [toHTML], a user
    method) returns an [Outcome]. *)

Inductive Outcome (A : Type) : Type :=
| Normal (a : A)
| Thrown (e : string).
Arguments Normal {A} a.
Arguments Thrown {A} e.

Definition omap' {A B : Type} (f : A -> B) (o : Outcome A) : Outcome B :=
  match o with
  | Normal a => Normal (f a)
  | Thrown e => Thrown e
  end.

Definition TypeError : string := "TypeError".

(** ** Insertion normalisation *)

Module Normalize.

(** What the normalisation functions can observe of a value that is neither
    [null], [undefined] nor a primitive string. *)
Record Features : Type := mkFeatures {
  ident : nat;                               (* identity of the value *)
  toString_read : Outcome bool;              (* reading value.toString: raises, or yields something whose typeof is (is not) 'function' *)
  String_result : Outcome string;            (* what String(value) does *)
  toHTML_method : option (Outcome string);   (* Some c: value.toHTML is a function and calling it does c *)
  node_shaped : bool                         (* an object with a numeric nodeType *)
}.

Inductive Opaque : Type :=
| Null
| Undefined
| Str (s : string)
| Other (f : Features).

(** TypeScript's [Insertion = string | SafeString | Node] is erased at run
    time: an insertion is the JavaScript value itself. *)
Definition Insertion : Type := Opaque.

(** The empty insertion is the empty string literal of the source. *)
Definition Empty : Insertion := Str "".

(** Modelled from the spec: [isString], [isSafeString] and [isNode] are
    imported from the upsert module, which is not part of the sources at
    hand.  The spec describes a bare string, a trust marker that any value
    may be tested for and that exposes a method returning the raw textual
    payload, and a tree-node-shaped value. *)
Definition isString (value : Opaque) : bool :=
  match value with
  | Str _ => true
  | _ => false
  end.

(** Modelled from the spec: the trust-marker test of the upsert module. *)
Definition isSafeString (value : Opaque) : bool :=
  match value with
  | Other f => bool_decide (is_Some (toHTML_method f))
  | _ => false
  end.

(** Modelled from the spec: the test for a tree-node-shaped value, of the
    upsert module. *)
Definition isNode (value : Opaque) : bool :=
  match value with
  | Other f => node_shaped f
  | _ => false
  end.

(** [value.toHTML()]: the payload of the marker; calling a missing method is
    a TypeError. *)
Definition toHTML (value : Opaque) : Outcome string :=
  match value with
  | Other f =>
      match toHTML_method f with
      | Some c => c
      | None => Thrown TypeError
      end
  | _ => Thrown TypeError
  end.

(** [String(value)]. *)
Definition String_ (value : Opaque) : Outcome string :=
  match value with
  | Null => Normal "null"
  | Undefined => Normal "undefined"
  | Str s => Normal s
  | Other f => String_result f
  end.

(** [isEmpty]: [value === null || value === undefined ||
    typeof value.toString !== 'function'].  The third test reads the
    property [toString] of the value, which runs a getter or a proxy trap if
    there is one, and so can raise; a primitive string finds the method of
    [String.prototype]. *)
Definition isEmpty (value : Opaque) : Outcome bool :=
  match value with
  | Null => Normal true
  | Undefined => Normal true
  | Str _ => Normal false
  | Other f => omap' negb (toString_read f)
  end.

Definition normalizeTextValue (value : Opaque) : Outcome string :=
  match isEmpty value with
  | Thrown e => Thrown e
  | Normal true => Normal ""
  | Normal false => String_ value
  end.

Definition normalizeTrustedValue (value : Opaque) : Outcome Insertion :=
  match isEmpty value with
  | Thrown e => Thrown e
  | Normal true => Normal (Str "")
  | Normal false =>
      if isString value then Normal value
      else if isSafeString value then omap' Str (toHTML value)
      else if isNode value then Normal value
      else omap' Str (String_ value)
  end.

Definition normalizeValue (value : Opaque) : Outcome Insertion :=
  match isEmpty value with
  | Thrown e => Thrown e
  | Normal true => Normal (Str "")
  | Normal false =>
      if isString value then Normal value
      else if isSafeString value || isNode value then Normal value
      else omap' Str (String_ value)
  end.

(** Sample values. *)

(* new SafeString("<b>x</b>") *)
Definition safe_bold : Opaque :=
  Other {| ident := 1; toString_read := Normal true;
           String_result := Normal "<b>x</b>";
           toHTML_method := Some (Normal "<b>x</b>");
           node_shaped := false |}.

(* the number 5 *)
Definition five : Opaque :=
  Other {| ident := 2; toString_read := Normal true;
           String_result := Normal "5";
           toHTML_method := None;
           node_shaped := false |}.

(* Object.create(null) *)
Definition bare_object : Opaque :=
  Other {| ident := 3; toString_read := Normal false;
           String_result := Thrown TypeError;
           toHTML_method := None;
           node_shaped := false |}.

(* ({ toString() { throw new Error("boom") } }) *)
Definition throwing_toString : Opaque :=
  Other {| ident := 4; toString_read := Normal true;
           String_result := Thrown "boom";
           toHTML_method := None;
           node_shaped := false |}.

(* a DOM element *)
Definition a_node : Opaque :=
  Other {| ident := 5; toString_read := Normal true;
           String_result := Normal "[object HTMLElement]";
           toHTML_method := None;
           node_shaped := true |}.

(* Object.defineProperty({}, "toString",
     { get() { throw new Error("hidden") } }) *)
Definition throwing_getter : Opaque :=
  Other {| ident := 6; toString_read := Thrown "hidden";
           String_result := Thrown "hidden";
           toHTML_method := None;
           node_shaped := false |}.

(* the same, with [Symbol.toPrimitive]() { return "shown" }: [String] does
   not read [toString] *)
Definition throwing_getter_with_primitive : Opaque :=
  Other {| ident := 7; toString_read := Thrown "hidden";
           String_result := Normal "shown";
           toHTML_method := None;
           node_shaped := false |}.

(* a marked value made with Object.create(null): toHTML, but no toString *)
Definition safe_without_toString : Opaque :=
  Other {| ident := 8; toString_read := Normal false;
           String_result := Thrown TypeError;
           toHTML_method := Some (Normal "<i>y</i>");
           node_shaped := false |}.

End Normalize.

(** ** The append VM, the updating VM and the dynamic-content opcodes *)

Module Content.
Import Normalize.
Local Open Scope list_scope.

(** The two concrete variants of the append and update opcodes. *)
Inductive Mode : Type := Cautious | Trusting.

(** [new Cursor(element, nextSibling)]. *)
Record Cursor (E N : Type) : Type := mkCursor {
  element : E;
  nextSibling : option N
}.
Arguments mkCursor {E N} element nextSibling.
Arguments element {E N} c.
Arguments nextSibling {E N} c.

(** Modelled from the spec: the render target (tree construction
    operations), [Upsert], [Bounds] and [clear] live in the upsert, bounds
    and dom modules, which are not part of the sources at hand.  They are
    kept abstract: an implementation supplies the types and the operations,
    each acting on the output tree. *)
Class TreeOps : Type := {
  Tree : Type;
  Element : Type;
  Marker : Type;
  Bounds : Type;
  Upsert : Type;
  (* upsert.bounds *)
  Upsert_bounds : Upsert -> Bounds;
  (* upsert.update(dom, value): whether the content was patched in place,
     the upsert object after the call, the tree after the call *)
  Upsert_update : Upsert -> Insertion -> Tree -> bool * Upsert * Tree;
  cautiousInsert : Cursor Element Marker -> Insertion -> Tree -> Upsert * Tree;
  trustingInsert : Cursor Element Marker -> Insertion -> Tree -> Upsert * Tree;
  (* bounds.parentElement() *)
  Bounds_parentElement : Bounds -> Element;
  (* clear(bounds): removes the delimited region, returns the marker at
     which content can be inserted again *)
  clear : Bounds -> Tree -> option Marker * Tree
}.

(** Modelled from the spec: the program side of the VM (environment, opcode
    sequences, templates, layouts) is compiled elsewhere; only
    [layout.opcodes(env)] is called here. *)
Class Program : Type := {
  Env : Type;
  OpSeq : Type;
  Templates : Type;
  Layout : Type;
  Layout_opcodes : Layout -> Env -> OpSeq
}.

(** Modelled from the spec: references and tags come from the reference
    package.  A reference is a lazy producer with a version stamp; its
    constancy is known without reading it.  The current stamp and value of
    the underlying references live in the world. *)
Record RefCell : Type := mkRefCell {
  cell_tag : nat;
  cell_value : Opaque
}.

Record Reference : Type := mkReference {
  ref_const : bool;
  ref_cell : nat
}.

(** Modelled from the spec: [isConst(ref)] is decidable without evaluating
    the reference. *)
Definition isConst (reference : Reference) : bool := ref_const reference.

(** Modelled from the spec: [map(reference, fn)] keeps the tag of the inner
    reference; its value is [fn] applied to the inner value. *)
Record MapReference : Type := mkMapReference {
  map_inner : Reference;
  map_fn : Opaque -> Outcome Insertion
}.

Definition map (reference : Reference) (fn : Opaque -> Outcome Insertion)
  : MapReference :=
  {| map_inner := reference; map_fn := fn |}.

(** Modelled from the spec: a [ReferenceCache] owns a reference, the tag
    captured at the last read and the last computed value. *)
Record ReferenceCache : Type := mkReferenceCache {
  cache_reference : MapReference;
  cache_last : option (nat * Insertion)
}.

(** Result of [revalidate()]: [NOT_MODIFIED] or the fresh value. *)
Inductive Validation : Type :=
| NotModified
| Modified (value : Insertion).

Definition isModified (v : Validation) : bool :=
  match v with
  | NotModified => false
  | Modified _ => true
  end.

Section VM.
Context `{TreeOps} `{Program}.

(** An updating opcode for dynamic content: [cache] and [bounds] (a
    [Fragment] object) by address, and [upsert]; [tag] is the tag of the
    cache. *)
Record UpdateOpcode : Type := mkUpdateOpcode {
  uo_mode : Mode;
  uo_guid : nat;
  uo_tag : nat;
  uo_cache : nat;
  uo_bounds : nat;
  uo_upsert : Upsert
}.

Definition with_upsert (op : UpdateOpcode) (u : Upsert) : UpdateOpcode :=
  {| uo_mode := uo_mode op; uo_guid := uo_guid op; uo_tag := uo_tag op;
     uo_cache := uo_cache op; uo_bounds := uo_bounds op; uo_upsert := u |}.

Record ComponentInvocation : Type := mkInvocation {
  layout : Layout;
  templates : Templates
}.

(** Calls to collaborators, in the order in which they happen. *)
Inductive Event : Type :=
| EPop (r : Reference)
| EValue (cell : nat)
| ENewCache (c : nat)
| EPeek (c : nat)
| ERevalidate (c : nat)
| EInsert (m : Mode) (cursor : Cursor Element Marker) (value : Insertion)
| ENewFragment (f : nat)
| ENewBounds (f : nat)
| EUpdateWith (op : nat)
| EUpdate (u : Upsert) (value : Insertion)
| EClear (b : Bounds)
| EFragmentUpdate (f : nat) (b : Bounds)
| EPushFrame (ops : OpSeq)
| ESetTemplates (t : Templates).

(** Events that touch the output tree. *)
Definition is_tree_mutation (e : Event) : bool :=
  match e with
  | EInsert _ _ _ | EUpdate _ _ | EClear _ => true
  | _ => false
  end.

Definition is_value_read (e : Event) : bool :=
  match e with
  | EValue _ => true
  | _ => false
  end.

Definition is_cache_creation (e : Event) : bool :=
  match e with
  | ENewCache _ => true
  | _ => false
  end.

Definition is_registration (e : Event) : bool :=
  match e with
  | EUpdateWith _ => true
  | _ => false
  end.

Definition is_pop (e : Event) : bool :=
  match e with
  | EPop _ => true
  | _ => false
  end.

Definition count (p : Event -> bool) (t : list Event) : nat :=
  length (List.filter p t).

(** The state both VMs act on.  Objects that the source shares by reference
    (caches, fragments, updating opcodes) are held in stores and named by
    their address. *)
Record World : Type := mkWorld {
  w_stack : list Reference;          (* vm.stack *)
  w_refs : list RefCell;             (* the underlying references *)
  w_caches : list ReferenceCache;    (* ReferenceCache objects *)
  w_fragments : list Bounds;         (* Fragment objects *)
  w_tree : Tree;                     (* the output tree *)
  w_cursor : Cursor Element Marker;  (* vm.elements() *)
  w_blocks : list nat;               (* fragments handed to newBounds *)
  w_opcodes : list UpdateOpcode;     (* UpdateOpcode objects *)
  w_updating : list nat;             (* the updating-opcode list *)
  w_guid : nat;                      (* opcode guid counter *)
  w_env : Env;                       (* vm.env *)
  w_frames : list OpSeq;             (* the frame stack *)
  w_templates : option Templates     (* templates set on the VM *)
}.

Definition set_stack (s : list Reference) (w : World) : World :=
  mkWorld s (w_refs w) (w_caches w) (w_fragments w) (w_tree w) (w_cursor w)
          (w_blocks w) (w_opcodes w) (w_updating w) (w_guid w) (w_env w)
          (w_frames w) (w_templates w).
Definition set_caches (c : list ReferenceCache) (w : World) : World :=
  mkWorld (w_stack w) (w_refs w) c (w_fragments w) (w_tree w) (w_cursor w)
          (w_blocks w) (w_opcodes w) (w_updating w) (w_guid w) (w_env w)
          (w_frames w) (w_templates w).
Definition set_fragments (f : list Bounds) (w : World) : World :=
  mkWorld (w_stack w) (w_refs w) (w_caches w) f (w_tree w) (w_cursor w)
          (w_blocks w) (w_opcodes w) (w_updating w) (w_guid w) (w_env w)
          (w_frames w) (w_templates w).
Definition set_tree (t : Tree) (w : World) : World :=
  mkWorld (w_stack w) (w_refs w) (w_caches w) (w_fragments w) t (w_cursor w)
          (w_blocks w) (w_opcodes w) (w_updating w) (w_guid w) (w_env w)
          (w_frames w) (w_templates w).
Definition set_blocks (b : list nat) (w : World) : World :=
  mkWorld (w_stack w) (w_refs w) (w_caches w) (w_fragments w) (w_tree w)
          (w_cursor w) b (w_opcodes w) (w_updating w) (w_guid w) (w_env w)
          (w_frames w) (w_templates w).
Definition set_opcodes (o : list UpdateOpcode) (w : World) : World :=
  mkWorld (w_stack w) (w_refs w) (w_caches w) (w_fragments w) (w_tree w)
          (w_cursor w) (w_blocks w) o (w_updating w) (w_guid w) (w_env w)
          (w_frames w) (w_templates w).
Definition set_updating (u : list nat) (w : World) : World :=
  mkWorld (w_stack w) (w_refs w) (w_caches w) (w_fragments w) (w_tree w)
          (w_cursor w) (w_blocks w) (w_opcodes w) u (w_guid w) (w_env w)
          (w_frames w) (w_templates w).
Definition set_guid (g : nat) (w : World) : World :=
  mkWorld (w_stack w) (w_refs w) (w_caches w) (w_fragments w) (w_tree w)
          (w_cursor w) (w_blocks w) (w_opcodes w) (w_updating w) g (w_env w)
          (w_frames w) (w_templates w).
Definition set_frames (f : list OpSeq) (w : World) : World :=
  mkWorld (w_stack w) (w_refs w) (w_caches w) (w_fragments w) (w_tree w)
          (w_cursor w) (w_blocks w) (w_opcodes w) (w_updating w) (w_guid w)
          (w_env w) f (w_templates w).
Definition set_templates (t : option Templates) (w : World) : World :=
  mkWorld (w_stack w) (w_refs w) (w_caches w) (w_fragments w) (w_tree w)
          (w_cursor w) (w_blocks w) (w_opcodes w) (w_updating w) (w_guid w)
          (w_env w) (w_frames w) t.

(** *** The monad: state, exceptions and the log of calls *)

Definition M (A : Type) : Type := World -> Outcome A * World * list Event.

Definition ret {A : Type} (a : A) : M A := fun w => (Normal a, w, []).

Definition bind {A B : Type} (m : M A) (k : A -> M B) : M B :=
  fun w =>
    match m w with
    | (Normal a, w1, t1) =>
        match k a w1 with
        | (r, w2, t2) => (r, w2, t1 ++ t2)
        end
    | (Thrown e, w1, t1) => (Thrown e, w1, t1)
    end.

Definition throw {A : Type} (e : string) : M A := fun w => (Thrown e, w, []).
Definition emit (e : Event) : M unit := fun w => (Normal tt, w, [e]).
Definition gets {A : Type} (f : World -> A) : M A := fun w => (Normal (f w), w, []).
Definition modify (f : World -> World) : M unit := fun w => (Normal tt, f w, []).
Definition lift {A : Type} (o : Outcome A) : M A := fun w => (o, w, []).

(** Dereferencing an address that holds no object behaves like a property
    access on [undefined]. *)
Definition deref {A : Type} (o : option A) : M A :=
  match o with
  | Some a => ret a
  | None => throw TypeError
  end.

End VM.

Declare Scope vm_scope.
Delimit Scope vm_scope with vm.
Notation "x <- m ;; k" := (bind m (fun x => k))
  (at level 100, m at next level, right associativity) : vm_scope.
Notation "m ;;; k" := (bind m (fun _ => k))
  (at level 100, right associativity) : vm_scope.

Section Opcodes.
Context `{TreeOps} `{Program}.
Local Open Scope vm_scope.

(** [JSON.stringify], a builtin of the language, on a cached insertion. *)
Variable JSON_stringify : Insertion -> string.

(** *** The VM surface used by the opcodes *)

(** Modelled from the spec: [vm.stack.pop()]; the VM is not part of the
    sources at hand.  Popping takes the top reference off the evaluation
    stack. *)
Definition stack_pop : M Reference :=
  s <- gets w_stack ;;
  match s with
  | r :: rest => modify (set_stack rest) ;;; emit (EPop r) ;;; ret r
  | [] => throw TypeError
  end.

(** Modelled from the spec: [vm.elements()], the current cursor that the append
    opcodes render into. *)
Definition elements : M (Cursor Element Marker) := gets w_cursor.

(** Modelled from the spec: [stack.newBounds(bounds)] registers the bounds with
    the current render range. *)
Definition newBounds (f : nat) : M unit :=
  modify (fun w => set_blocks (w_blocks w ++ [f]) w) ;;; emit (ENewBounds f).

(** Modelled from the spec: [vm.updateWith(opcode)] appends an updating opcode
    to the list of the currently open render range. *)
Definition updateWith_vm (op : nat) : M unit :=
  modify (fun w => set_updating (w_updating w ++ [op]) w) ;;;
  emit (EUpdateWith op).

(** Modelled from the spec: [vm.pushFrame(ops)] begins a nested opcode sequence,
    sharing the evaluation stack and the output cursor. *)
Definition pushFrame (ops : OpSeq) : M unit :=
  modify (fun w => set_frames (ops :: w_frames w) w) ;;; emit (EPushFrame ops).

(** Modelled from the spec: [vm.setTemplates(templates)] of the VM, not part of
    the sources at hand; it sets the templates of the VM. *)
Definition setTemplates (t : Templates) : M unit :=
  modify (set_templates (Some t)) ;;; emit (ESetTemplates t).

(** *** References and caches *)

(** Modelled from the spec: the tag of a mapped reference is the tag of the
    inner reference; this reads its current stamp. *)
Definition MapReference_tag (r : MapReference) : M nat :=
  refs <- gets w_refs ;;
  cell <- deref (refs !! ref_cell (map_inner r)) ;;
  ret (cell_tag cell).

(** Modelled from the spec: [value()] of a mapped reference applies the
    transform to the value of the inner reference. *)
Definition MapReference_value (r : MapReference) : M Insertion :=
  emit (EValue (ref_cell (map_inner r))) ;;;
  refs <- gets w_refs ;;
  cell <- deref (refs !! ref_cell (map_inner r)) ;;
  lift (map_fn r (cell_value cell)).

(** Modelled from the spec: [new ReferenceCache(reference)]; nothing has been
    read yet. *)
Definition new_ReferenceCache (r : MapReference) : M nat :=
  caches <- gets w_caches ;;
  modify (set_caches (caches ++ [mkReferenceCache r None])) ;;;
  emit (ENewCache (length caches)) ;;;
  ret (length caches).

(** Modelled from the spec: a read recomputes the value, then stores the new
    tag and value. *)
Definition ReferenceCache_initialize (c : nat) (st : ReferenceCache)
  : M Insertion :=
  v <- MapReference_value (cache_reference st) ;;
  t <- MapReference_tag (cache_reference st) ;;
  modify (fun w =>
    set_caches (<[c := mkReferenceCache (cache_reference st) (Some (t, v))]>
                  (w_caches w)) w) ;;;
  ret v.

(** Modelled from the spec: [cache.peek()] returns the last value computed; on a
    cache that has not been read it performs the first read. *)
Definition ReferenceCache_peek (c : nat) : M Insertion :=
  emit (EPeek c) ;;;
  caches <- gets w_caches ;;
  st <- deref (caches !! c) ;;
  match cache_last st with
  | Some (_, v) => ret v
  | None => ReferenceCache_initialize c st
  end.

(** Modelled from the spec: [cache.revalidate()] compares the current tag of
    the reference with the stored one; equal tags give [NotModified], else
    the value is recomputed, stored and returned as modified. *)
Definition ReferenceCache_revalidate (c : nat) : M Validation :=
  emit (ERevalidate c) ;;;
  caches <- gets w_caches ;;
  st <- deref (caches !! c) ;;
  match cache_last st with
  | Some (t0, _) =>
      t <- MapReference_tag (cache_reference st) ;;
      if decide (t = t0) then ret NotModified
      else
        v <- ReferenceCache_initialize c st ;;
        ret (Modified v)
  | None =>
      v <- ReferenceCache_initialize c st ;;
      ret (Modified v)
  end.

(** Modelled from the spec: [cache.tag], the tag object of the cached
    reference (named by the reference it belongs to). *)
Definition ReferenceCache_tag (c : nat) : M nat :=
  caches <- gets w_caches ;;
  st <- deref (caches !! c) ;;
  ret (ref_cell (map_inner (cache_reference st))).

(** *** Fragments *)

(** Modelled from the spec: [new Fragment(bounds)] of the builder module, a
    mutable wrapper around bounds. *)
Definition new_Fragment (b : Bounds) : M nat :=
  fs <- gets w_fragments ;;
  modify (set_fragments (fs ++ [b])) ;;;
  emit (ENewFragment (length fs)) ;;;
  ret (length fs).

(** Modelled from the spec: the bounds that a fragment currently wraps. *)
Definition Fragment_bounds (f : nat) : M Bounds :=
  fs <- gets w_fragments ;;
  deref (fs !! f).

(** Modelled from the spec: [fragment.parentElement()] is that of the wrapped
    bounds. *)
Definition Fragment_parentElement (f : nat) : M Element :=
  b <- Fragment_bounds f ;;
  ret (Bounds_parentElement b).

(** Modelled from the spec: [fragment.update(bounds)] replaces the wrapped
    bounds. *)
Definition Fragment_update (f : nat) (b : Bounds) : M unit :=
  _ <- Fragment_bounds f ;;
  modify (fun w => set_fragments (<[f := b]> (w_fragments w)) w) ;;;
  emit (EFragmentUpdate f b).

(** Modelled from the spec: [clear(bounds)] on a fragment clears the bounds it
    wraps. *)
Definition clear_Fragment (f : nat) : M (option Marker) :=
  b <- Fragment_bounds f ;;
  t <- gets w_tree ;;
  modify (set_tree (snd (clear b t))) ;;;
  emit (EClear b) ;;;
  ret (fst (clear b t)).

(** *** Hooks of the two variants *)

(* this.normalize(reference) *)
Definition normalize (this : Mode) (reference : Reference) : MapReference :=
  match this with
  | Cautious => map reference normalizeValue
  | Trusting => map reference normalizeTrustedValue
  end.

(* this.insert(dom, cursor, value): cautiousInsert in the cautious classes,
   trustingInsert in the trusting ones *)
Definition variant_insert (this : Mode)
  : Cursor Element Marker -> Insertion -> Tree -> Upsert * Tree :=
  match this with
  | Cautious => cautiousInsert
  | Trusting => trustingInsert
  end.

Definition insert (this : Mode) (cursor : Cursor Element Marker)
    (value : Insertion) : M Upsert :=
  t <- gets w_tree ;;
  let r := variant_insert this cursor value t in
  modify (set_tree (snd r)) ;;;
  emit (EInsert this cursor value) ;;;
  ret (fst r).

(** Modelled from the spec: [upsert.update(dom, value)], acting on the output
    tree. *)
Definition update (u : Upsert) (value : Insertion) : M (bool * Upsert) :=
  t <- gets w_tree ;;
  let r := Upsert_update u value t in
  modify (set_tree (snd r)) ;;;
  emit (EUpdate u value) ;;;
  ret (fst r).

(** [new Optimized{Cautious,Trusting}UpdateOpcode(cache, bounds, upsert)]:
    the constructor of [UpdateOpcode]; the base class, which is not part of
    the sources at hand, numbers the opcode. *)
Definition new_UpdateOpcode (m : Mode) (cache : nat) (bounds : nat)
    (upsert : Upsert) : M nat :=
  g <- gets w_guid ;;
  modify (set_guid (S g)) ;;;
  tag <- ReferenceCache_tag cache ;;
  ops <- gets w_opcodes ;;
  modify (set_opcodes (ops ++ [mkUpdateOpcode m g tag cache bounds upsert])) ;;;
  ret (length ops).

(* this.updateWith(vm, reference, cache, bounds, upsert) *)
Definition updateWith (this : Mode) (_reference : Reference) (cache : nat)
    (bounds : nat) (upsert : Upsert) : M nat :=
  match this with
  | Cautious => new_UpdateOpcode Cautious cache bounds upsert
  | Trusting => new_UpdateOpcode Trusting cache bounds upsert
  end.

(** *** AppendDynamicOpcode.evaluate *)

Definition AppendDynamicOpcode_evaluate (this : Mode) : M unit :=
  reference <- stack_pop ;;
  let normalized := normalize this reference in
  vc <- (if isConst reference then
           value <- MapReference_value normalized ;;
           ret (value, None)
         else
           cache <- new_ReferenceCache normalized ;;
           value <- ReferenceCache_peek cache ;;
           ret (value, Some cache)) ;;
  let value := fst vc in
  let cache := snd vc in
  stack <- elements ;;
  upsert <- insert this stack value ;;
  bounds <- new_Fragment (Upsert_bounds upsert) ;;
  newBounds bounds ;;;
  match cache with
  | Some cache =>
      op <- updateWith this reference cache bounds upsert ;;
      updateWith_vm op
  | None => ret tt
  end.

(** *** UpdateOpcode.evaluate and UpdateOpcode.toJSON *)

(* the opcode object at an address *)
Definition UpdateOpcode_at (this : nat) : M UpdateOpcode :=
  ops <- gets w_opcodes ;;
  deref (ops !! this).

(* this.upsert = upsert; also records the state in which a call to
   update left the upsert object *)
Definition set_upsert (this : nat) (upsert : Upsert) : M unit :=
  modify (fun w =>
    set_opcodes (alter (fun op => with_upsert op upsert) this (w_opcodes w)) w).

Definition UpdateOpcode_evaluate (this : nat) : M unit :=
  self <- UpdateOpcode_at this ;;
  value <- ReferenceCache_revalidate (uo_cache self) ;;
  match value with
  | Modified value =>
      let bounds := uo_bounds self in
      r <- update (uo_upsert self) value ;;
      if fst r then
        set_upsert this (snd r) ;;;
        Fragment_update bounds (Upsert_bounds (snd r))
      else
        parent <- Fragment_parentElement bounds ;;
        marker <- clear_Fragment bounds ;;
        let cursor := mkCursor parent marker in
        upsert <- insert (uo_mode self) cursor value ;;
        set_upsert this upsert ;;;
        Fragment_update bounds (Upsert_bounds upsert)
  | NotModified => ret tt
  end.

Definition type_of_update (m : Mode) : string :=
  match m with
  | Cautious => "optimized-cautious-update"
  | Trusting => "optimized-trusting-update"
  end.

Definition type_of_append (m : Mode) : string :=
  match m with
  | Cautious => "optimized-cautious-append"
  | Trusting => "optimized-trusting-append"
  end.

Record OpcodeJSON : Type := mkOpcodeJSON {
  details_lastValue : string;
  guid : nat;
  type : string
}.

Definition UpdateOpcode_toJSON (this : nat) : M OpcodeJSON :=
  self <- UpdateOpcode_at this ;;
  last <- ReferenceCache_peek (uo_cache self) ;;
  ret {| details_lastValue := JSON_stringify last;
         guid := uo_guid self;
         type := type_of_update (uo_mode self) |}.

(** A number of consecutive revalidation ticks of one opcode. *)
Fixpoint ticks (n : nat) (this : nat) : M unit :=
  match n with
  | O => ret tt
  | S n' => UpdateOpcode_evaluate this ;;; ticks n' this
  end.

(** *** OpenComponentOpcode.evaluate *)

Definition OpenComponentOpcode_evaluate (invocation : ComponentInvocation)
  : M unit :=
  env <- gets w_env ;;
  pushFrame (Layout_opcodes (layout invocation) env) ;;;
  setTemplates (templates invocation).

End Opcodes.

End Content.

(** ** A render target to run the opcodes on *)

Module FlatTree.
Import Normalize Content.
Local Open Scope list_scope.

(** Modelled from the spec: the render target, [insert], [update] and
    [clear] of the upsert and bounds modules, which are not part of the
    sources at hand.  One parent element holds a sequence of nodes; content
    is a text node, a piece of raw markup or an adopted node.  [update]
    patches text by text and markup by markup, reuses an identical node, and
    reports failure for every other pairing. *)
Inductive Payload : Type :=
| PText (s : string)
| PMarkup (s : string)
| PAdopted (n : nat).

Record FNode : Type := mkFNode {
  n_id : nat;
  n_payload : Payload
}.

Record FTree : Type := mkFTree {
  t_children : list FNode;
  t_next : nat
}.

Record FBounds : Type := mkFBounds {
  b_parent : nat;
  b_first : nat;
  b_last : nat
}.

Inductive Kind : Type := KText | KSafe | KMarkup | KNode (n : nat).

Record FUpsert : Type := mkFUpsert {
  u_kind : Kind;
  u_bounds : FBounds
}.

Fixpoint insert_before (marker : option nat) (n : FNode) (l : list FNode)
  : list FNode :=
  match l with
  | [] => [n]
  | x :: l' =>
      match marker with
      | Some m => if decide (n_id x = m) then n :: x :: l'
                  else x :: insert_before marker n l'
      | None => x :: insert_before marker n l'
      end
  end.

Definition set_payload (i : nat) (p : Payload) (l : list FNode) : list FNode :=
  List.map (fun x => if decide (n_id x = i) then mkFNode i p else x) l.

Definition markup_of (value : Insertion) : string :=
  match toHTML value with
  | Normal s => s
  | Thrown _ => ""
  end.

Definition place (k : Kind) (p : Payload) (c : Cursor nat nat) (t : FTree)
  : FUpsert * FTree :=
  let i := t_next t in
  (mkFUpsert k (mkFBounds (element c) i i),
   mkFTree (insert_before (nextSibling c) (mkFNode i p) (t_children t)) (S i)).

Definition flat_cautiousInsert (c : Cursor nat nat) (value : Insertion)
    (t : FTree) : FUpsert * FTree :=
  match value with
  | Str s => place KText (PText s) c t
  | Other f =>
      if isSafeString value then place KSafe (PMarkup (markup_of value)) c t
      else place (KNode (ident f)) (PAdopted (ident f)) c t
  | _ => place KText (PText "") c t
  end.

Definition flat_trustingInsert (c : Cursor nat nat) (value : Insertion)
    (t : FTree) : FUpsert * FTree :=
  match value with
  | Str s => place KMarkup (PMarkup s) c t
  | Other f => place (KNode (ident f)) (PAdopted (ident f)) c t
  | _ => place KMarkup (PMarkup "") c t
  end.

Definition flat_update (u : FUpsert) (value : Insertion) (t : FTree)
  : bool * FUpsert * FTree :=
  let i := b_first (u_bounds u) in
  match u_kind u, value with
  | KText, Str s =>
      (true, u, mkFTree (set_payload i (PText s) (t_children t)) (t_next t))
  | KMarkup, Str s =>
      (true, u, mkFTree (set_payload i (PMarkup s) (t_children t)) (t_next t))
  | KSafe, Other f =>
      if isSafeString value then
        (true, u, mkFTree (set_payload i (PMarkup (markup_of value))
                                       (t_children t)) (t_next t))
      else (false, u, t)
  | KNode n, Other f =>
      if decide (n = ident f) then (true, u, t) else (false, u, t)
  | _, _ => (false, u, t)
  end.

(** The region from [first] to [last], removed; what follows it. *)
Fixpoint drop_through (last : nat) (l : list FNode) : list FNode :=
  match l with
  | [] => []
  | x :: l' => if decide (n_id x = last) then l' else drop_through last l'
  end.

Fixpoint clear_range (first last : nat) (l : list FNode) : list FNode :=
  match l with
  | [] => []
  | x :: l' =>
      if decide (n_id x = first) then drop_through last l
      else x :: clear_range first last l'
  end.

Fixpoint after_range (first last : nat) (l : list FNode) : option nat :=
  match l with
  | [] => None
  | x :: l' =>
      if decide (n_id x = first) then n_id <$> head (drop_through last l)
      else after_range first last l'
  end.

Definition flat_clear (b : FBounds) (t : FTree) : option nat * FTree :=
  (after_range (b_first b) (b_last b) (t_children t),
   mkFTree (clear_range (b_first b) (b_last b) (t_children t)) (t_next t)).

#[export] Instance flat_tree : TreeOps := {|
  Tree := FTree;
  Element := nat;
  Marker := nat;
  Bounds := FBounds;
  Upsert := FUpsert;
  Upsert_bounds := u_bounds;
  Upsert_update := flat_update;
  cautiousInsert := flat_cautiousInsert;
  trustingInsert := flat_trustingInsert;
  Bounds_parentElement := b_parent;
  clear := flat_clear
|}.

#[export] Instance flat_program : Program := {|
  Env := unit;
  OpSeq := list string;
  Templates := string;
  Layout := list string;
  Layout_opcodes := fun l _ => l
|}.

(** Modelled from the spec: JSON.stringify is a builtin; on a string it
    yields the string between double quotes (sample values need no
    escaping). *)
Definition quote : string := String (Ascii.ascii_of_nat 34) EmptyString.

Definition flat_stringify (v : Insertion) : string :=
  match v with
  | Str s => (quote ++ s ++ quote)%string
  | _ => "{}"
  end.

(** Sample worlds. *)

Definition world0 (r : Reference) (cells : list RefCell) : World :=
  {| w_stack := [r];
     w_refs := cells;
     w_caches := [];
     w_fragments := [];
     w_tree := mkFTree [] 0;
     w_cursor := mkCursor 0 None;
     w_blocks := [];
     w_opcodes := [];
     w_updating := [];
     w_guid := 0;
     w_env := tt;
     w_frames := [];
     w_templates := None |}.

(* a constant reference to the string "hello" *)
Definition world_const : World :=
  world0 (mkReference true 0) [mkRefCell 0 (Str "hello")].

(* a variable reference, currently the number 5 *)
Definition world_var : World :=
  world0 (mkReference false 0) [mkRefCell 0 five].

(* world_var after the cautious append opcode ran *)
Definition world_rendered : World :=
  snd (fst (AppendDynamicOpcode_evaluate Cautious world_var)).

(* the updating opcode it registered *)
Definition rendered_opcode : UpdateOpcode :=
  {| uo_mode := Cautious; uo_guid := 0; uo_tag := 0; uo_cache := 0;
     uo_bounds := 0; uo_upsert := mkFUpsert KText (mkFBounds 0 0 0) |}.

(* the referenced value became a DOM node *)
Definition world_changed : World :=
  set_stack [] (mkWorld [] [mkRefCell 1 a_node] (w_caches world_rendered)
    (w_fragments world_rendered) (w_tree world_rendered)
    (w_cursor world_rendered) (w_blocks world_rendered)
    (w_opcodes world_rendered) (w_updating world_rendered) (w_guid world_rendered) tt [] None).

Definition an_invocation : ComponentInvocation :=
  {| layout := ["open-element"; "text"; "close-element"];
     templates := "default-block" |}.

End FlatTree.

(** ** The HTMLBars object model: [extend], [reopen], [_super] *)

Module HObject.
Local Open Scope list_scope.

Definition DESCRIPTOR : string := "5d90f84f-908e-4a42-9749-3d0f523c262c".

(** What the engine raises when a call finds the call stack exhausted. *)
Definition RangeError : string := "RangeError".

(** JavaScript values; functions and objects are named by their address. *)
Inductive Value : Type :=
| VUndefined
| VNull
| VBool (b : bool)
| VNum (n : Z)
| VString (s : string)
| VFun (f : nat)
| VObj (o : nat).

(** A property: a data property or an accessor with its [get]. *)
Inductive Property : Type :=
| DataProp (value : Value)
| AccessorProp (get : Value).

Record Obj : Type := mkObj {
  proto : option nat;              (* Object.getPrototypeOf *)
  props : gmap string Property     (* own properties *)
}.

(** The body of a function supplied by the user, as the sequence of things
    it does with [this]. *)
Inductive Code : Type :=
| Return (v : Value)
| Throw (e : string)
| GetThis (name : string) (k : Value -> Code)
| SetThis (name : string) (v : Value) (k : Code)
| CallThis (name : string) (args : list Value) (k : Outcome Value -> Code).

(** Function objects: user functions, the four closures created by
    [wrapMethod] and [wrapAccessor], each with the variables it captures,
    the function that a class expression creates, and the two methods of
    [Computed] that [mergeProperties] calls. *)
Inductive Fun : Type :=
| UserFun (body : list Value -> Code)
| MethodWrapper (home : nat) (methodName : string) (original : Value)
| MethodSuper (home : nat) (methodName : string)
| GetterWrapper (home : nat) (accessorName : string) (original : Value)
| GetterSuper (home : nat) (accessorName : string)
| ClassConstructor (prototype : nat)
| ComputedDefine
| ComputedBuildMeta.

Record Heap : Type := mkHeap {
  objs : list Obj;
  funs : list Fun
}.

Definition alloc_fun (f : Fun) (h : Heap) : nat * Heap :=
  (length (funs h), mkHeap (objs h) (funs h ++ [f])).

Definition alloc_obj (o : Obj) (h : Heap) : nat * Heap :=
  (length (objs h), mkHeap (objs h ++ [o]) (funs h)).

(* Object.getOwnPropertyDescriptor(subject, name) *)
Definition getOwnPropertyDescriptor (h : Heap) (subject : nat) (name : string)
  : option Property :=
  match objs h !! subject with
  | Some o => props o !! name
  | None => None
  end.

(* Object.getPrototypeOf(subject) *)
Definition getPrototypeOf (h : Heap) (subject : nat) : option nat :=
  match objs h !! subject with
  | Some o => proto o
  | None => None
  end.

(** The loop of [getPropertyDescriptor]: [pd] is still undefined, [proto] is
    the next object to look at.  A prototype chain is no longer than the
    heap, which bounds the number of rounds. *)
Fixpoint walk_chain (rounds : nat) (h : Heap) (proto : option nat)
    (name : string) : option Property :=
  match rounds with
  | O => None
  | S rounds' =>
      match proto with
      | None => None
      | Some p =>
          match getOwnPropertyDescriptor h p name with
          | Some pd => Some pd
          | None => walk_chain rounds' h (getPrototypeOf h p) name
          end
      end
  end.

Definition getPropertyDescriptor (h : Heap) (subject : nat) (name : string)
  : option Property :=
  match getOwnPropertyDescriptor h subject name with
  | Some pd => Some pd
  | None => walk_chain (length (objs h)) h (getPrototypeOf h subject) name
  end.

(* name in subject *)
Definition has_property (h : Heap) (subject : nat) (name : string) : bool :=
  bool_decide (is_Some (getPropertyDescriptor h subject name)).

(* what Object.defineProperty(subject, name, desc) does to the heap *)
Definition defineProperty (subject : nat) (name : string) (pd : Property)
    (h : Heap) : Heap :=
  mkHeap (alter (fun o => mkObj (proto o) (<[name := pd]> (props o)))
                subject (objs h))
         (funs h).

(* subject[name] = value, for a plain own data property *)
Definition set_own (subject : nat) (name : string) (value : Value) (h : Heap)
  : Heap :=
  defineProperty subject name (DataProp value) h.

(** An outcome and the heap it leaves. *)
Definition Result : Type := Outcome Value * Heap.

(** [receiver[name]], given the means to call a getter. *)
Definition get_with (callf : Heap -> Value -> nat -> list Value -> Result)
    (h : Heap) (receiver : nat) (name : string) : Result :=
  match objs h !! receiver with
  | None => (Thrown TypeError, h)
  | Some _ =>
      match getPropertyDescriptor h receiver name with
      | None => (Normal VUndefined, h)
      | Some (DataProp v) => (Normal v, h)
      | Some (AccessorProp VUndefined) => (Normal VUndefined, h)
      | Some (AccessorProp g) => callf h g receiver []
      end
  end.

(** *** [wrapMethod] and [wrapAccessor] *)

Definition wrapMethod (home : nat) (methodName : string) (original : Value)
    (h : Heap) : Value * Heap :=
  if negb (has_property h home methodName) then (original, h)
  else
    let (w, h') := alloc_fun (MethodWrapper home methodName original) h in
    (VFun w, h').

Definition wrapAccessor (home : nat) (accessorName : string) (original : Value)
    (h : Heap) : Property * Heap :=
  let superDesc := getPropertyDescriptor h home accessorName in
  match superDesc with
  | Some (AccessorProp _) =>
      let (w, h') := alloc_fun (GetterWrapper home accessorName original) h in
      (AccessorProp (VFun w), h')
  | _ => (AccessorProp original, h)
  end.

(** *** Calls *)

(** The call [Object.defineProperty(subject, name, desc)]: it raises a
    TypeError when [desc] has a getter that is neither undefined nor
    callable. *)
Definition Object_defineProperty (subject : nat) (name : string)
    (pd : Property) (h : Heap) : Outcome unit * Heap :=
  match pd with
  | DataProp _ | AccessorProp VUndefined | AccessorProp (VFun _) =>
      (Normal tt, defineProperty subject name pd h)
  | AccessorProp _ => (Thrown TypeError, h)
  end.

(** [Computed.define(prototype, key, home)], that is
    [Object.defineProperty(prototype, key,
                           wrapAccessor(home, key, this.callback))]. *)
Definition Computed_define
    (callf : Heap -> Value -> nat -> list Value -> Result)
    (this : nat) (prototype : nat) (key : string) (home : nat) (h : Heap)
  : Result :=
  match get_with callf h this "callback" with
  | (Normal callback, h1) =>
      let (desc, h2) := wrapAccessor home key callback h1 in
      match Object_defineProperty prototype key desc h2 with
      | (Normal _, h3) => (Normal VUndefined, h3)
      | (Thrown e, h3) => (Thrown e, h3)
      end
  | (Thrown e, h1) => (Thrown e, h1)
  end.

(** The execution of a user body on [this], given the means to call. *)
Fixpoint run_with (callf : Heap -> Value -> nat -> list Value -> Result)
    (this : nat) (c : Code) (h : Heap) {struct c} : Result :=
  match c with
  | Return v => (Normal v, h)
  | Throw e => (Thrown e, h)
  | GetThis name k =>
      match get_with callf h this name with
      | (Normal v, h1) => run_with callf this (k v) h1
      | (Thrown e, h1) => (Thrown e, h1)
      end
  | SetThis name v k => run_with callf this k (set_own this name v h)
  | CallThis name args k =>
      match get_with callf h this name with
      | (Normal m, h1) =>
          let (r, h2) := callf h1 m this args in
          run_with callf this (k r) h2
      | (Thrown e, h1) => run_with callf this (k (Thrown e)) h1
      end
  end.

(** [f.apply(this, args)] with room for [depth] nested calls on the call
    stack.  Calling what is not a function is a TypeError; calling a
    function when the stack is exhausted is a RangeError, which the callers
    can catch like any other exception; otherwise the callee runs with one
    frame less.  The stack limit of the engine is not known: it is the
    parameter [depth]. *)
Fixpoint apply (depth : nat) (h : Heap) (f : Value) (this : nat)
    (args : list Value) {struct depth} : Result :=
  match f with
  | VFun a =>
      match funs h !! a with
      | None => (Thrown TypeError, h)
      | Some callee =>
          match depth with
          | O => (Thrown RangeError, h)
          | S n =>
              match callee with
              | UserFun body => run_with (apply n) this (body args) h
              | MethodWrapper home methodName original =>
                  (* let lastSuper = this._super *)
                  match get_with (apply n) h this "_super" with
                  | (Normal lastSuper, h1) =>
                      (* this._super = function(...args) { ... } *)
                      let (s, h2) :=
                        alloc_fun (MethodSuper home methodName) h1 in
                      let h3 := set_own this "_super" (VFun s) h2 in
                      (* try { return original.apply(this, args) }
                         finally { this._super = lastSuper } *)
                      let (r, h4) := apply n h3 original this args in
                      (r, set_own this "_super" lastSuper h4)
                  | (Thrown e, h1) => (Thrown e, h1)
                  end
              | MethodSuper home methodName =>
                  (* return home[methodName].apply(this, args) *)
                  match get_with (apply n) h home methodName with
                  | (Normal m, h1) => apply n h1 m this args
                  | (Thrown e, h1) => (Thrown e, h1)
                  end
              | GetterWrapper home accessorName original =>
                  match get_with (apply n) h this "_super" with
                  | (Normal lastSuper, h1) =>
                      let (s, h2) :=
                        alloc_fun (GetterSuper home accessorName) h1 in
                      let h3 := set_own this "_super" (VFun s) h2 in
                      let (r, h4) := apply n h3 original this [] in
                      (r, set_own this "_super" lastSuper h4)
                  | (Thrown e, h1) => (Thrown e, h1)
                  end
              | GetterSuper home accessorName =>
                  (* let getter = getPropertyDescriptor(home, accessorName);
                     return getter.get.call(this) *)
                  match getPropertyDescriptor h home accessorName with
                  | Some (AccessorProp g) => apply n h g this []
                  | _ => (Thrown TypeError, h)
                  end
              | ClassConstructor _ =>
                  (* a class constructor cannot be invoked without new *)
                  (Thrown TypeError, h)
              | ComputedDefine =>
                  match args with
                  | VObj prototype :: VString key :: VObj home :: _ =>
                      Computed_define (apply n) this prototype key home h
                  | _ => (Thrown TypeError, h)
                  end
              | ComputedBuildMeta =>
                  (* builder.addReferenceTypeFor(...): no value of the heap
                     is a MetaBuilder *)
                  (Thrown TypeError, h)
              end
          end
      end
  | _ => (Thrown TypeError, h)
  end.

(* receiver[name] *)
Definition get (depth : nat) (h : Heap) (receiver : nat) (name : string)
  : Result :=
  get_with (apply depth) h receiver name.

(** The heap in which a wrapper runs the wrapped function: a new closure
    [super] has been created and stored in [this._super]. *)
Definition during_call (super : Fun) (this : nat) (h : Heap) : Heap :=
  set_own this "_super" (VFun (length (funs h)))
          (mkHeap (objs h) (funs h ++ [super])).

(** Neither a call nor a user body creates or removes objects. *)
Definition keeps_objects
    (callf : Heap -> Value -> nat -> list Value -> Result) : Prop :=
  forall h f this args,
    length (objs (snd (callf h f this args))) = length (objs h).

(** A heap in which object [home] holds, under [name], the method wrapper
    [w] that was created with [home] itself as its home (which is what
    [reopen] installs), around the user function [f], and in which [this]
    has a [_super] data property of its own. *)
Record self_homed (home : nat) (name : string) (w f : nat) (body : Fun)
    (this : nat) (h : Heap) : Prop := mkSelfHomed {
  sh_wrapper : funs h !! w = Some (MethodWrapper home name (VFun f));
  sh_body : funs h !! f = Some body;
  sh_installed :
    getOwnPropertyDescriptor h home name = Some (DataProp (VFun w));
  sh_super :
    exists v, getOwnPropertyDescriptor h this "_super" = Some (DataProp v);
  sh_distinct : this <> home
}.

(** *** Computed descriptors, [mergeProperties], [extend], [reopen] *)

(** Modelled from the spec: [MetaBuilder] belongs to the reference package;
    the property-metadata system is a collaborator, so a builder only records
    the keys for which metadata was built. *)
Definition MetaBuilder : Type := list string.

(** A class: its prototype object and its sealed metadata. *)
Record Class : Type := mkClass {
  prototype : nat;
  _Meta : MetaBuilder
}.

(* Computed.buildMeta(builder, key) *)
Definition Computed_buildMeta (builder : MetaBuilder) (key : string)
  : MetaBuilder :=
  builder ++ [key].

(* computed(callback, ...deps), that is new Computed(callback, deps): an
   object whose prototype is Computed.prototype, with the marker and the
   callback as its own properties; its deps and metadata fields, which only
   buildMeta hands to the metadata builder, are left out *)
Definition computed (Computed_prototype : nat) (callback : Value) (h : Heap)
  : Value * Heap :=
  let (o, h') :=
    alloc_obj (mkObj (Some Computed_prototype)
                     (<[DESCRIPTOR := DataProp (VBool true)]>
                        (<["callback" := DataProp callback]> ∅))) h in
  (VObj o, h').

(** [extension.define(proto, key, superProto)]: the method is read from the
    extension and called on it. *)
Definition Descriptor_define (depth : nat) (extension : nat)
    (proto : nat) (key : string) (superProto : nat) (h : Heap) : Result :=
  match get_with (apply depth) h extension "define" with
  | (Normal define, h1) =>
      apply depth h1 define extension [VObj proto; VString key; VObj superProto]
  | (Thrown e, h1) => (Thrown e, h1)
  end.

(** [extension.buildMeta(builder, key)]: the method is read from the
    extension and called on it.  The builder is kept outside the heap, so
    the method of [Computed] is run on it in place; a method of any other
    kind is called with [undefined] where the builder would be. *)
Definition Descriptor_buildMeta (depth : nat) (extension : nat)
    (builder : MetaBuilder) (key : string) (h : Heap)
  : Outcome unit * Heap * MetaBuilder :=
  match get_with (apply depth) h extension "buildMeta" with
  | (Normal (VFun b), h1) =>
      match funs h1 !! b with
      | Some ComputedBuildMeta =>
          (Normal tt, h1, Computed_buildMeta builder key)
      | _ =>
          match apply depth h1 (VFun b) extension [VUndefined; VString key]
          with
          | (Normal _, h2) => (Normal tt, h2, builder)
          | (Thrown e, h2) => (Thrown e, h2, builder)
          end
      end
  | (Normal _, h1) => (Thrown TypeError, h1, builder)
  | (Thrown e, h1) => (Thrown e, h1, builder)
  end.

(** One round of the [forEach] in [mergeProperties]. *)
Definition mergeProperty (depth : nat) (superProto proto : nat)
    (key : string) (value : Value) (h : Heap) (builder : MetaBuilder)
  : Outcome unit * Heap * MetaBuilder :=
  match value with
  | VNull =>
      (* typeof null === "object", and DESCRIPTOR in null throws *)
      (Thrown TypeError, h, builder)
  | VObj o =>
      if has_property h o DESCRIPTOR then
        match Descriptor_define depth o proto key superProto h with
        | (Normal _, h1) => Descriptor_buildMeta depth o builder key h1
        | (Thrown e, h1) => (Thrown e, h1, builder)
        end
      else
        (Normal tt, defineProperty proto key (DataProp value) h, builder)
  | VFun _ =>
      let (value', h') := wrapMethod superProto key value h in
      (Normal tt, defineProperty proto key (DataProp value') h', builder)
  | _ => (Normal tt, defineProperty proto key (DataProp value) h, builder)
  end.

Fixpoint mergeProperties (depth : nat) (superProto proto : nat)
    (extensions : list (string * Value)) (h : Heap) (builder : MetaBuilder)
  : Outcome unit * Heap * MetaBuilder :=
  match extensions with
  | [] => (Normal tt, h, builder)
  | (key, value) :: rest =>
      match mergeProperty depth superProto proto key value h builder with
      | (Normal _, h', builder') =>
          mergeProperties depth superProto proto rest h' builder'
      | (Thrown e, h', builder') => (Thrown e, h', builder')
      end
  end.

(** [class extends Super {}]: the constructor function and its prototype
    object, which inherits from the prototype of [Super] and has the
    function as its own [constructor]. *)
Definition class_extends (Super_prototype : nat) (h : Heap) : nat * Heap :=
  let (Class_function, h1) := alloc_fun (ClassConstructor (length (objs h))) h in
  alloc_obj (mkObj (Some Super_prototype)
                   (<["constructor" := DataProp (VFun Class_function)]> ∅)) h1.

(* extend(Parent, extensions) *)
Definition extend (depth : nat) (Parent : Class)
    (extensions : list (string * Value)) (h : Heap) : Outcome Class * Heap :=
  let builder := _Meta Parent in
  let (Class_prototype, h1) := class_extends (prototype Parent) h in
  match mergeProperties depth (prototype Parent) Class_prototype extensions
                        h1 builder with
  | (Normal _, h2, builder') => (Normal (mkClass Class_prototype builder'), h2)
  | (Thrown e, h2, _) => (Thrown e, h2)
  end.

(* HTMLBarsObject.reopen(extensions) *)
Definition reopen (depth : nat) (this : Class)
    (extensions : list (string * Value)) (h : Heap) : Outcome Class * Heap :=
  match mergeProperties depth (prototype this) (prototype this) extensions h
                        (_Meta this) with
  | (Normal _, h', builder') => (Normal (mkClass (prototype this) builder'), h')
  | (Thrown e, h', _) => (Thrown e, h')
  end.

(** [assign] belongs to the util package, which is not among the sources
    and of which the specification says nothing: it is a parameter, given
    the object and the attributes and acting on the heap. *)
Class Util : Type := {
  assign : nat -> list (string * Value) -> Heap -> Outcome unit * Heap
}.

(* HTMLBarsObject.create(attrs), that is new this(attrs): the field
   initialiser, assign(this, attrs) if attrs is given, this.init() *)
Definition create `{Util} (depth : nat) (this : Class)
    (attrs : option (list (string * Value))) (h : Heap)
  : Outcome nat * Heap :=
  let (o, h1) := alloc_obj (mkObj (Some (prototype this)) ∅) h in
  let h2 := set_own o "_super" VNull h1 in
  let (assigned, h3) :=
    match attrs with
    | Some attrs => assign o attrs h2
    | None => (Normal tt, h2)
    end in
  match assigned with
  | Normal _ =>
      match get_with (apply depth) h3 o "init" with
      | (Normal init, h4) =>
          match apply depth h4 init o [] with
          | (Normal _, h5) => (Normal o, h5)
          | (Thrown e, h5) => (Thrown e, h5)
          end
      | (Thrown e, h4) => (Thrown e, h4)
      end
  | Thrown e => (Thrown e, h3)
  end.

(** *** A small program

    [Object.prototype] at address 0 (its built-in properties are not used
    by the program), [HTMLBarsObject.prototype] at address 1 with its empty
    [init] (function 0) and its constructor (function 1),
    [Computed.prototype] at address 2 with [define] (function 2),
    [buildMeta] (function 3) and its constructor (function 4). *)
Definition base_heap : Heap :=
  {| objs := [ mkObj None ∅;
               mkObj (Some 0)
                     (<["init" := DataProp (VFun 0)]>
                        (<["constructor" := DataProp (VFun 1)]> ∅));
               mkObj (Some 0)
                     (<["define" := DataProp (VFun 2)]>
                        (<["buildMeta" := DataProp (VFun 3)]>
                           (<["constructor" := DataProp (VFun 4)]> ∅))) ];
     funs := [ UserFun (fun _ => Return VUndefined);
               ClassConstructor 1;
               ComputedDefine;
               ComputedBuildMeta;
               ClassConstructor 2 ] |}.

Definition HTMLBarsObject : Class := {| prototype := 1; _Meta := [] |}.

(* Computed.prototype *)
Definition Computed_proto : nat := 2.

(* room on the call stack when the program starts *)
Definition stack : nat := 100.

(* the program passes no attributes to create, so assign is never called *)
Definition no_attributes : Util :=
  {| assign := fun _ _ h => (Thrown TypeError, h) |}.

(* function() { return "hi" } *)
Definition say_hi : Fun := UserFun (fun _ => Return (VString "hi")).
(* function() { return this._super() } *)
Definition call_super : Fun :=
  UserFun (fun args => CallThis "_super" args
                         (fun r => match r with
                                   | Normal v => Return v
                                   | Thrown e => Throw e
                                   end)).
(* function() { this._super(); throw "boom" } *)
Definition call_super_then_throw : Fun :=
  UserFun (fun args => CallThis "_super" args
                         (fun r => match r with
                                   | Normal _ => Throw "boom"
                                   | Thrown e => Throw e
                                   end)).
(* function() { return this._super } *)
Definition read_super : Fun :=
  UserFun (fun _ => GetThis "_super" Return).

(* functions 5..8 *)
Definition program_heap : Heap :=
  {| objs := objs base_heap;
     funs := funs base_heap ++
             [say_hi; call_super; call_super_then_throw; read_super] |}.

Definition unwrap {A : Type} (d : A) (r : Outcome A * Heap) : A * Heap :=
  match r with
  | (Normal a, h) => (a, h)
  | (Thrown _, h) => (d, h)
  end.

(* let Person = HTMLBarsObject.extend({ greet() { return "hi" },
                                        title: "plain" }) *)
Definition Person_def : Class * Heap :=
  unwrap HTMLBarsObject
    (extend stack HTMLBarsObject
            [("greet", VFun 5); ("title", VString "plain")] program_heap).

(* let Polite = Person.extend({ greet() { return this._super() } }) *)
Definition Polite_def : Class * Heap :=
  unwrap HTMLBarsObject
    (extend stack (fst Person_def) [("greet", VFun 6)] (snd Person_def)).

(* let Titled = Person.extend({ title: computed(function() {
                                        return this._super }) }) *)
Definition Titled_def : Class * Heap :=
  let (c, h) := computed Computed_proto (VFun 8) (snd Person_def) in
  unwrap HTMLBarsObject (extend stack (fst Person_def) [("title", c)] h).

(* let Rude = Person.extend({ greet() { this._super(); throw "boom" } }) *)
Definition Rude_def : Class * Heap :=
  unwrap HTMLBarsObject
    (extend stack (fst Person_def) [("greet", VFun 7)] (snd Person_def)).

(* d.create(): the heap afterwards; the instance is its last object *)
Definition instance_of (d : Class * Heap) : Heap :=
  snd (@create no_attributes stack (fst d) None (snd d)).

(* let Shouting = Titled.extend({ title: computed(function() {
                                          return this._super() }) }) *)
Definition Shouting_def : Class * Heap :=
  let (c, h) := computed Computed_proto (VFun 6) (snd Titled_def) in
  unwrap HTMLBarsObject (extend stack (fst Titled_def) [("title", c)] h).

(* Person.reopen({ greet() { return this._super() } }) *)
Definition Person_reopened : Class * Heap :=
  unwrap HTMLBarsObject
    (reopen stack (fst Person_def) [("greet", VFun 6)] (snd Person_def)).

End HObject.

(** ** What holds of the stores between two opcodes *)

Section Consistency.
Import Normalize Content.
Context `{TreeOps} `{Program}.

(** [op'] is [op] except, possibly, for its upsert. *)
Definition same_but_upsert (op op' : UpdateOpcode) : Prop :=
  uo_mode op' = uo_mode op /\
  uo_guid op' = uo_guid op /\
  uo_tag op' = uo_tag op /\
  uo_cache op' = uo_cache op /\
  uo_bounds op' = uo_bounds op.

(** The stores agree with one another: the fragment of every updating
    opcode wraps the bounds of the opcode's upsert, its cache has been read
    and carries the tag the opcode was given, and no two opcodes hold the
    same fragment. *)
Record consistent (w : World) : Prop := mkConsistent {
  paired :
    forall i op,
      w_opcodes w !! i = Some op ->
      w_fragments w !! uo_bounds op = Some (Upsert_bounds (uo_upsert op));
  cache_read :
    forall i op,
      w_opcodes w !! i = Some op ->
      exists st tv,
        w_caches w !! uo_cache op = Some st /\
        cache_last st = Some tv /\
        uo_tag op = ref_cell (map_inner (cache_reference st));
  exclusive :
    forall i j op op',
      w_opcodes w !! i = Some op ->
      w_opcodes w !! j = Some op' ->
      uo_bounds op = uo_bounds op' ->
      i = j
}.

(** What a revalidation tick leaves alone: the evaluation stack, the
    references, the cursor, the render ranges, the updating list, the guid
    counter, the frames and templates, the number of caches, fragments and
    opcodes, and every field of every opcode but [upsert]. *)
Record tick_frame (w w' : World) : Prop := mkTickFrame {
  tf_stack : w_stack w' = w_stack w;
  tf_refs : w_refs w' = w_refs w;
  tf_cursor : w_cursor w' = w_cursor w;
  tf_blocks : w_blocks w' = w_blocks w;
  tf_updating : w_updating w' = w_updating w;
  tf_guid : w_guid w' = w_guid w;
  tf_env : w_env w' = w_env w;
  tf_frames : w_frames w' = w_frames w;
  tf_templates : w_templates w' = w_templates w;
  tf_caches : length (w_caches w') = length (w_caches w);
  tf_fragments : length (w_fragments w') = length (w_fragments w);
  tf_opcodes :
    Forall2 same_but_upsert (w_opcodes w) (w_opcodes w')
}.

(** The state in which the referenced values have changed to [refs]. *)
Definition with_refs (refs : list RefCell) (w : World) : World :=
  mkWorld (w_stack w) refs (w_caches w) (w_fragments w) (w_tree w)
          (w_cursor w) (w_blocks w) (w_opcodes w) (w_updating w) (w_guid w)
          (w_env w) (w_frames w) (w_templates w).

(** Whatever its outcome, the computation takes every state to a state
    related to it by [R]. *)
Definition respects (R : World -> World -> Prop) {A : Type} (m : M A) : Prop :=
  forall w, R w (snd (fst (m w))).

End Consistency.

(** ** Relations between heaps *)

Module HObjectRel.
Import HObject.
Local Open Scope list_scope.

(** Going from [h] to [h'], every object is still there, with the same
    prototype and the same property, if any, under [name]. *)
Definition keeps_name (name : string) (h h' : Heap) : Prop :=
  forall i o,
    objs h !! i = Some o ->
    exists o', objs h' !! i = Some o' /\
               proto o' = proto o /\
               props o' !! name = props o !! name.

(** Going from [h] to [h'], the objects of [h] other than [proto] are as
    they were and the functions of [h] are still there. *)
Definition elsewhere (proto : nat) (h h' : Heap) : Prop :=
  (forall i, i < length (objs h) -> i <> proto ->
             objs h' !! i = objs h !! i) /\
  funs h `prefix_of` funs h'.

#[export] Instance Value_eq_dec : EqDecision Value.
Proof. solve_decision. Defined.

(** Values that [mergeProperties] installs as they are: neither a function
    nor an object nor null. *)
Definition plain (v : Value) : bool :=
  match v with
  | VFun _ | VObj _ | VNull => false
  | _ => true
  end.

(** The keys of an extensions object, in the order of [Object.keys]. *)
Definition keys (extensions : list (string * Value)) : list string :=
  extensions.*1.


(** In [h], object [o] follows the descriptor protocol of [Computed]: its
    [define] and [buildMeta] are the two methods of [Computed], and its
    [callback] is a data property. *)
Record Computed_protocol (h : Heap) (o : nat) : Prop := mkComputedProtocol {
  cp_define :
    exists d, getPropertyDescriptor h o "define" = Some (DataProp (VFun d)) /\
              funs h !! d = Some ComputedDefine;
  cp_buildMeta :
    exists b, getPropertyDescriptor h o "buildMeta" = Some (DataProp (VFun b)) /\
              funs h !! b = Some ComputedBuildMeta;
  cp_callback :
    exists cb, getPropertyDescriptor h o "callback" = Some (DataProp cb)
}.

(** An extension value whose merge into [proto] runs no code but that of
    the library, whatever has been merged into [proto] before it: anything
    that is not an object; an object that is not a descriptor; a descriptor
    that follows the protocol of [Computed]. *)
Definition tame (proto : nat) (h : Heap) (value : Value) : Prop :=
  forall o, value = VObj o ->
    (forall h', elsewhere proto h h' ->
                has_property h' o DESCRIPTOR = false) \/
    (forall h', elsewhere proto h h' -> Computed_protocol h' o).

(** [o] is an instance of [Computed], made by [computed] when
    [Computed.prototype] was at [cp]. *)
Record Computed_instance (h : Heap) (cp o : nat) : Prop := mkComputedInstance {
  ci_proto : getPrototypeOf h o = Some cp;
  ci_callback :
    exists cb, getOwnPropertyDescriptor h o "callback" = Some (DataProp cb);
  ci_own_define : getOwnPropertyDescriptor h o "define" = None;
  ci_own_buildMeta : getOwnPropertyDescriptor h o "buildMeta" = None;
  ci_define :
    exists d, getOwnPropertyDescriptor h cp "define" = Some (DataProp (VFun d)) /\
              funs h !! d = Some ComputedDefine;
  ci_buildMeta :
    exists b, getOwnPropertyDescriptor h cp "buildMeta"
              = Some (DataProp (VFun b)) /\
              funs h !! b = Some ComputedBuildMeta
}.

End HObjectRel.

(** ** Further states of the sample program *)

Module HSamples.
Import HObject HObjectRel.
Local Open Scope list_scope.

(* Person.create(): object 4 *)
Definition person_heap : Heap := instance_of Person_def.

(* Polite.create(): object 5 *)
Definition polite_heap : Heap := instance_of Polite_def.

(* Person.reopen({ motto: "hi" }), with the instance already made *)
Definition Person_motto : Class * Heap :=
  unwrap HTMLBarsObject
    (reopen stack (fst Person_def) [("motto", VString "hi")] person_heap).

(* { [DESCRIPTOR]: true }: object 4, marked as a descriptor, without define *)
Definition marked_only : Value * Heap :=
  let (o, h) :=
    alloc_obj (mkObj (Some 0) (<[DESCRIPTOR := DataProp (VBool true)]> ∅))
              (snd Person_def) in
  (VObj o, h).

(* computed(5): object 4 *)
Definition computed_five : Value * Heap :=
  computed Computed_proto (VNum 5) (snd Person_def).

(* computed(function() { return this._super }): object 4 *)
Definition computed_reader : Value * Heap :=
  computed Computed_proto (VFun 8) (snd Person_def).

(* function() { this.touched = true } *)
Definition touch : Fun :=
  UserFun (fun _ => SetThis "touched" (VBool true) (Return VUndefined)).

(* { [DESCRIPTOR]: true, define() { this.touched = true },
     buildMeta() { this.touched = true } }: object 4, a descriptor with
   methods of its own (function 10) *)
Definition homemade_descriptor : Value * Heap :=
  let (t, h1) := alloc_fun touch (snd Person_def) in
  let (o, h2) :=
    alloc_obj (mkObj (Some 0)
                     (<[DESCRIPTOR := DataProp (VBool true)]>
                        (<["define" := DataProp (VFun t)]>
                           (<["buildMeta" := DataProp (VFun t)]> ∅)))) h1 in
  (VObj o, h2).

End HSamples.

(** ** Further sample states *)

Module Samples.
Import Normalize Content FlatTree.
Local Open Scope list_scope.

(* a variable reference to a value whose toString throws *)
Definition world_throwing : World :=
  world0 (mkReference false 0) [mkRefCell 0 throwing_toString].

(* the referenced value became the string "6" *)
Definition refs_six : list RefCell := [mkRefCell 1 (Str "6")].

(* the referenced value became a DOM node *)
Definition refs_node : list RefCell := [mkRefCell 1 a_node].


(* world_var after the cautious append opcode ran on the number 5, given as
   the string "5" *)
Definition world_five : World :=
  world0 (mkReference false 0) [mkRefCell 0 (Str "5")].

End Samples.

(** * Properties *)

(** ** Insertion normalisation *)

Section NormalizeFacts.
Import Normalize.

Lemma isEmpty_cases (value : Opaque) :
  isEmpty value = Normal true <->
  value = Null \/ value = Undefined \/
  exists f, value = Other f /\ toString_read f = Normal false.
Proof.
  split.
  - destruct value as [| |s|f]; simpl; intros E; try discriminate; auto.
    right; right. exists f. split; [reflexivity|].
    now destruct (toString_read f) as [[]|].
  - intros [->|[->|[f [-> Hf]]]]; simpl; try reflexivity.
    now rewrite Hf.
Qed.

Lemma safe_string_not_string (value : Opaque) :
  isSafeString value = true -> isString value = false.
Proof. destruct value; simpl; congruence. Qed.

(** Both functions answer a bare string with that very string. *)
Lemma normalize_bare_string (s : string) :
  normalizeValue (Str s) = Normal (Str s) /\
  normalizeTrustedValue (Str s) = Normal (Str s).
Proof. split; reflexivity. Qed.

(** What comes out of either function is a string, a marked value or a
    node. *)
Lemma normalizeValue_shape (value : Opaque) (i : Insertion) :
  normalizeValue value = Normal i ->
  isString i = true \/ isSafeString i = true \/ isNode i = true.
Proof.
  unfold normalizeValue.
  destruct (isEmpty value) as [[]|]; [intros [= <-]; now left| |discriminate].
  destruct (isString value) eqn:Es; [intros [= <-]; now left|].
  destruct (isSafeString value) eqn:Ess; simpl.
  - intros [= <-]; auto.
  - destruct (isNode value) eqn:En; [intros [= <-]; auto|].
    destruct (String_ value); simpl; [intros [= <-]; now left|discriminate].
Qed.

Lemma normalizeTrustedValue_shape (value : Opaque) (i : Insertion) :
  normalizeTrustedValue value = Normal i ->
  isString i = true \/ isNode i = true.
Proof.
  unfold normalizeTrustedValue.
  destruct (isEmpty value) as [[]|]; [intros [= <-]; now left| |discriminate].
  destruct (isString value) eqn:Es; [intros [= <-]; now left|].
  destruct (isSafeString value) eqn:Ess.
  - destruct (toHTML value); simpl; [intros [= <-]; now left|discriminate].
  - destruct (isNode value) eqn:En; [intros [= <-]; auto|].
    destruct (String_ value); simpl; [intros [= <-]; now left|discriminate].
Qed.

(** C4, as stated, fails: a value marked safe is not a bare string, yet the
    cautious function hands back the marked value itself while the trusting
    function hands back the text of its [toHTML()]. *)
Lemma modes_differ_on_safe_string :
  isString safe_bold = false /\
  normalizeValue safe_bold = Normal safe_bold /\
  normalizeTrustedValue safe_bold = Normal (Str "<b>x</b>") /\
  normalizeValue safe_bold <> normalizeTrustedValue safe_bold.
Proof. repeat split; discriminate. Qed.

(** C4, amended: cautious and trusting normalisation have the same outcome
    (the same insertion, or the same exception) for every value that is
    empty, whose [toString] cannot be read, or that is not marked safe, bare
    strings included (both return the string unchanged); for a non-empty
    value marked safe they differ, the cautious one returning the value
    itself and the trusting one the text of its [toHTML()]. *)
Theorem normalization_modes_compared (value : Opaque) :
  (isEmpty value <> Normal false \/ isSafeString value = false ->
   normalizeValue value = normalizeTrustedValue value) /\
  (isString value = true ->
   normalizeValue value = Normal value /\
   normalizeTrustedValue value = Normal value) /\
  (isEmpty value = Normal false -> isSafeString value = true ->
   normalizeValue value = Normal value /\
   normalizeTrustedValue value = omap' Str (toHTML value)).
Proof.
  unfold normalizeValue, normalizeTrustedValue.
  split; [|split].
  - intros [E|S].
    + destruct (isEmpty value) as [[]|]; congruence.
    + rewrite S. now destruct (isEmpty value) as [[]|], (isString value).
  - intros S. destruct value; simpl in *; try discriminate. now split.
  - intros E S. rewrite E, S, (safe_string_not_string _ S). now split.
Qed.

Lemma normalization_modes_compared_witness :
  normalizeValue five = normalizeTrustedValue five /\
  normalizeValue throwing_getter = normalizeTrustedValue throwing_getter /\
  (normalizeValue (Str "<b>x</b>") = Normal (Str "<b>x</b>") /\
   normalizeTrustedValue (Str "<b>x</b>") = Normal (Str "<b>x</b>")) /\
  (normalizeValue safe_bold = Normal safe_bold /\
   normalizeTrustedValue safe_bold = omap' Str (toHTML safe_bold)).
Proof.
  split_and!.
  - apply (proj1 (normalization_modes_compared five)). right. reflexivity.
  - apply (proj1 (normalization_modes_compared throwing_getter)). left.
    discriminate.
  - apply (proj1 (proj2 (normalization_modes_compared (Str "<b>x</b>")))).
    reflexivity.
  - apply (proj1 (proj2 (normalization_modes_compared (Str "<b>x</b>")))).
    reflexivity.
  - apply (proj2 (proj2 (normalization_modes_compared safe_bold)));
      reflexivity.
  - apply (proj2 (proj2 (normalization_modes_compared safe_bold)));
      reflexivity.
Defined.

(** C5, as stated, fails for the cautious function: it does not produce the
    markup text of a marked value. *)
Lemma cautious_keeps_marked_value :
  isSafeString safe_bold = true /\
  toHTML safe_bold = Normal "<b>x</b>" /\
  normalizeValue safe_bold <> Normal (Str "<b>x</b>").
Proof. repeat split; discriminate. Qed.

(** C5, amended: for every non-empty value that passes the trust-marker
    test, trusting normalisation produces the text returned by the marker's
    [toHTML()] (and raises what [toHTML()] raises), while cautious
    normalisation returns the marked value itself, unchanged; a marked value
    without a callable [toString] is treated as empty by both. *)
Theorem safe_markup_normalization (value : Opaque) :
  isSafeString value = true ->
  (isEmpty value = Normal false ->
   normalizeTrustedValue value = omap' Str (toHTML value) /\
   (forall html, toHTML value = Normal html ->
                 normalizeTrustedValue value = Normal (Str html)) /\
   normalizeValue value = Normal value) /\
  (isEmpty value = Normal true ->
   normalizeTrustedValue value = Normal Empty /\
   normalizeValue value = Normal Empty).
Proof.
  intros S. unfold normalizeValue, normalizeTrustedValue. split; intros E.
  - rewrite E, S, (safe_string_not_string _ S). simpl.
    repeat split. intros html ->. reflexivity.
  - rewrite E. now split.
Qed.

Lemma safe_markup_normalization_witness :
  isSafeString safe_bold = true /\
  isEmpty safe_bold = Normal false /\
  (normalizeTrustedValue safe_bold = omap' Str (toHTML safe_bold) /\
   (forall html, toHTML safe_bold = Normal html ->
                 normalizeTrustedValue safe_bold = Normal (Str html)) /\
   normalizeValue safe_bold = Normal safe_bold) /\
  isSafeString safe_without_toString = true /\
  isEmpty safe_without_toString = Normal true /\
  (normalizeTrustedValue safe_without_toString = Normal Empty /\
   normalizeValue safe_without_toString = Normal Empty).
Proof.
  split; [reflexivity|]. split; [reflexivity|].
  split; [exact (proj1 (safe_markup_normalization safe_bold eq_refl) eq_refl)|].
  split; [reflexivity|]. split; [reflexivity|].
  exact (proj2 (safe_markup_normalization safe_without_toString eq_refl)
               eq_refl).
Defined.

(** C6, as stated, fails in its last clause: a value whose [toString] is
    callable and throws makes both functions raise, and so does a value
    whose [toString] cannot even be read. *)
Lemma normalization_can_raise :
  isEmpty throwing_toString = Normal false /\
  normalizeValue throwing_toString = Thrown "boom" /\
  normalizeTrustedValue throwing_toString = Thrown "boom" /\
  isEmpty throwing_getter = Thrown "hidden" /\
  normalizeValue throwing_getter = Thrown "hidden" /\
  normalizeTrustedValue throwing_getter = Thrown "hidden".
Proof. repeat split. Qed.

(** C6, amended: for every value that is null, undefined or whose
    [toString], once read, is not callable, both normalisations return the
    empty insertion and do not raise; for the remaining values either
    function raises only what the emptiness test raises when it reads
    [value.toString], or what the value's own conversion raises
    ([String(value)], and [toHTML()] in the trusting function); and what the
    emptiness test raises, both raise, whatever [String(value)] would have
    done. *)
Theorem empty_fallback (value : Opaque) :
  (value = Null \/ value = Undefined \/
   (exists f, value = Other f /\ toString_read f = Normal false) ->
   normalizeValue value = Normal Empty /\
   normalizeTrustedValue value = Normal Empty) /\
  (forall e, normalizeValue value = Thrown e ->
             isEmpty value = Thrown e \/
             (isEmpty value = Normal false /\ String_ value = Thrown e)) /\
  (forall e, normalizeTrustedValue value = Thrown e ->
             isEmpty value = Thrown e \/
             (isEmpty value = Normal false /\
              (toHTML value = Thrown e \/ String_ value = Thrown e))) /\
  (forall e, isEmpty value = Thrown e ->
             normalizeValue value = Thrown e /\
             normalizeTrustedValue value = Thrown e).
Proof.
  unfold normalizeValue, normalizeTrustedValue.
  split_and!.
  - intros Hv. apply isEmpty_cases in Hv. now rewrite Hv.
  - intros e. destruct (isEmpty value) as [[]|e0];
      [discriminate| |intros [= ->]; now left].
    destruct (isString value); [discriminate|].
    destruct (isSafeString value || isNode value); [discriminate|].
    destruct (String_ value); simpl; [discriminate|].
    intros [= ->]. auto.
  - intros e. destruct (isEmpty value) as [[]|e0];
      [discriminate| |intros [= ->]; now left].
    destruct (isString value); [discriminate|].
    destruct (isSafeString value).
    + destruct (toHTML value); simpl; [discriminate|]. intros [= ->]. auto.
    + destruct (isNode value); [discriminate|].
      destruct (String_ value); simpl; [discriminate|]. intros [= ->]. auto.
  - intros e ->. now split.
Qed.

Lemma empty_fallback_witness :
  (normalizeValue bare_object = Normal Empty /\
   normalizeTrustedValue bare_object = Normal Empty) /\
  (isEmpty throwing_toString = Thrown "boom" \/
   (isEmpty throwing_toString = Normal false /\
    String_ throwing_toString = Thrown "boom")) /\
  (isEmpty throwing_toString = Thrown "boom" \/
   (isEmpty throwing_toString = Normal false /\
    (toHTML throwing_toString = Thrown "boom" \/
     String_ throwing_toString = Thrown "boom"))) /\
  (String_ throwing_getter_with_primitive = Normal "shown" /\
   normalizeValue throwing_getter_with_primitive = Thrown "hidden" /\
   normalizeTrustedValue throwing_getter_with_primitive = Thrown "hidden").
Proof.
  split_and!.
  - apply (proj1 (empty_fallback bare_object)). right; right.
    eexists. split; reflexivity.
  - apply (proj1 (empty_fallback bare_object)). right; right.
    eexists. split; reflexivity.
  - apply (proj1 (proj2 (empty_fallback throwing_toString))). reflexivity.
  - apply (proj1 (proj2 (proj2 (empty_fallback throwing_toString)))).
    reflexivity.
  - reflexivity.
  - apply (proj2 (proj2 (proj2 (empty_fallback throwing_getter_with_primitive)))
             "hidden"). reflexivity.
  - apply (proj2 (proj2 (proj2 (empty_fallback throwing_getter_with_primitive)))
             "hidden"). reflexivity.
Defined.

End NormalizeFacts.

(** ** The dynamic-content opcodes and the component opcode *)

Create HintDb vm.
#[global] Hint Unfold
  Content.AppendDynamicOpcode_evaluate Content.UpdateOpcode_evaluate
  Content.UpdateOpcode_toJSON Content.OpenComponentOpcode_evaluate
  Content.updateWith Content.new_UpdateOpcode Content.updateWith_vm
  Content.stack_pop Content.MapReference_value Content.MapReference_tag
  Content.new_ReferenceCache Content.ReferenceCache_peek
  Content.ReferenceCache_revalidate Content.ReferenceCache_initialize
  Content.ReferenceCache_tag Content.elements Content.insert Content.update
  Content.new_Fragment Content.newBounds Content.Fragment_update
  Content.Fragment_parentElement Content.Fragment_bounds
  Content.clear_Fragment Content.UpdateOpcode_at Content.set_upsert
  Content.pushFrame Content.setTemplates
  Content.bind Content.ret Content.emit Content.gets Content.modify
  Content.lift Content.deref Content.throw : vm.

(** Unfold the opcodes down to the state they act on. *)
Ltac vm_unfold := autounfold with vm; cbn.

Section ContentFacts.
Import Normalize Content.
Context `{TreeOps} `{Program}.
Local Open Scope list_scope.

Lemma snoc_lookup_last {A : Type} (l : list A) (x : A) :
  (l ++ [x]) !! length l = Some x.
Proof. now apply list_lookup_middle. Qed.

Lemma snoc_insert_last {A : Type} (l : list A) (x y : A) :
  <[length l := y]> (l ++ [x]) = l ++ [y].
Proof. now rewrite insert_app_r_alt, Nat.sub_diag. Qed.

(** Sequencing after a call whose result is known. *)
Lemma bind_Normal {A B : Type} (m : M A) (k : A -> M B) (w w1 : World)
    (a : A) (t1 : list Event) :
  m w = (Normal a, w1, t1) ->
  bind m k w = (let '(r, w2, t2) := k a w1 in (r, w2, t1 ++ t2)).
Proof. intros E. unfold bind. rewrite E. now destruct (k a w1) as [[r w2] t2]. Qed.

Lemma bind_Thrown {A B : Type} (m : M A) (k : A -> M B) (w w1 : World)
    (e : string) (t1 : list Event) :
  m w = (Thrown e, w1, t1) ->
  bind m k w = (Thrown e, w1, t1).
Proof. intros E. unfold bind. now rewrite E. Qed.

Lemma UpdateOpcode_at_Some (this : nat) (w : World) (self : UpdateOpcode) :
  w_opcodes w !! this = Some self ->
  UpdateOpcode_at this w = (Normal self, w, []).
Proof. intros E. vm_unfold. now rewrite E. Qed.

(** The first read of a cache changes the caches and nothing else, and does
    not touch the output tree. *)
Lemma ReferenceCache_initialize_frame (c : nat) (st : ReferenceCache)
    (w w1 : World) (r : Outcome Insertion) (t : list Event) :
  ReferenceCache_initialize c st w = (r, w1, t) ->
  w1 = set_caches (w_caches w1) w /\ count is_tree_mutation t = 0.
Proof.
  destruct (w_refs w !! ref_cell (map_inner (cache_reference st)))
    as [cell|] eqn:E; destruct w; cbn in E; vm_unfold; rewrite E; cbn;
    [|intros [= <- <- <-]; now split].
  destruct (map_fn (cache_reference st) (cell_value cell)); cbn;
    rewrite ?E; cbn; intros [= <- <- <-]; now split.
Qed.

(** Revalidation changes the caches and nothing else, and does not touch
    the output tree. *)
Lemma ReferenceCache_revalidate_frame (c : nat) (w w1 : World)
    (r : Outcome Validation) (t : list Event) :
  ReferenceCache_revalidate c w = (r, w1, t) ->
  w1 = set_caches (w_caches w1) w /\ count is_tree_mutation t = 0.
Proof.
  unfold ReferenceCache_revalidate.
  unfold bind at 1. unfold emit at 1.
  unfold bind at 1. unfold gets at 1.
  unfold bind at 1.
  destruct (w_caches w !! c) as [st|]; cbn;
    [|intros [= <- <- <-]; destruct w; now split].
  destruct (cache_last st) as [[t0 v0]|].
  - unfold bind at 1.
    destruct (MapReference_tag (cache_reference st) w) as [[[tg|e] w2] t2] eqn:Et.
    + assert (w2 = w /\ t2 = []) as [-> ->].
      { revert Et. vm_unfold.
        match goal with |- context [?l !! ?i] => destruct (l !! i) end; cbn;
          intros [= <- <- <-]; now split. }
      destruct (decide (tg = t0)).
      * cbn. intros [= <- <- <-]. destruct w; now split.
      * unfold bind.
        destruct (ReferenceCache_initialize c st w) as [[[v|e] w3] t3] eqn:Ei;
          apply ReferenceCache_initialize_frame in Ei as [Ew Ec];
          cbn; intros [= <- <- <-]; split; auto;
          rewrite ?app_nil_r; exact Ec.
    + assert (w2 = w /\ t2 = []) as [-> ->].
      { revert Et. vm_unfold.
        match goal with |- context [?l !! ?i] => destruct (l !! i) end; cbn;
          intros [= <- <- <-]; now split. }
      intros [= <- <- <-]. destruct w; now split.
  - unfold bind.
    destruct (ReferenceCache_initialize c st w) as [[[v|e] w3] t3] eqn:Ei;
      apply ReferenceCache_initialize_frame in Ei as [Ew Ec];
      cbn; intros [= <- <- <-]; split; auto;
      rewrite ?app_nil_r; exact Ec.
Qed.

(** With the tag it captured still current, a cache that has been read
    reports [NotModified] and stays as it is. *)
Lemma ReferenceCache_revalidate_unchanged (c : nat) (w : World)
    (st : ReferenceCache) (last : Insertion) (cell : RefCell) :
  w_caches w !! c = Some st ->
  cache_last st = Some (cell_tag cell, last) ->
  w_refs w !! ref_cell (map_inner (cache_reference st)) = Some cell ->
  ReferenceCache_revalidate c w = (Normal NotModified, w, [ERevalidate c]).
Proof.
  intros Hc Hl Hr. vm_unfold. rewrite Hc. cbn. rewrite Hl. cbn.
  rewrite Hr. cbn. now rewrite decide_True.
Qed.

(** A cache that has been read answers [peek()] from memory. *)
Lemma ReferenceCache_peek_cached (c : nat) (w : World)
    (st : ReferenceCache) (tag : nat) (last : Insertion) :
  w_caches w !! c = Some st ->
  cache_last st = Some (tag, last) ->
  ReferenceCache_peek c w = (Normal last, w, [EPeek c]).
Proof. intros Hc Hl. vm_unfold. rewrite Hc. cbn. now rewrite Hl. Qed.

(** C9: opening a component pushes one frame holding the opcodes of the
    invocation's layout and sets the VM's templates to the invocation's
    templates, these being the only two things it does to the VM: the
    evaluation stack, the output tree and every other part of the state stay
    as they were. *)
Theorem open_component_effects (invocation : ComponentInvocation) (w : World) :
  let ops := Layout_opcodes (layout invocation) (w_env w) in
  let '(r, w', t) := OpenComponentOpcode_evaluate invocation w in
  r = Normal tt /\
  t = [EPushFrame ops; ESetTemplates (templates invocation)] /\
  w_frames w' = ops :: w_frames w /\
  w_templates w' = Some (templates invocation) /\
  w' = set_templates (Some (templates invocation))
         (set_frames (ops :: w_frames w) w) /\
  w_stack w' = w_stack w /\
  w_tree w' = w_tree w /\
  count is_pop t = 0 /\
  count is_tree_mutation t = 0.
Proof. cbn. repeat split. Qed.

(** C1: when the popped reference is constant, the append opcode of either
    variant reads the value exactly once, through [value()] of the normalized
    reference; it creates no cache and registers no updating opcode, so the
    updating-opcode list is the one it was; and when that one read returns,
    the value it returned is what is inserted. *)
Theorem constant_reference_short_circuit
    (this : Mode) (w : World) (reference : Reference)
    (rest : list Reference) :
  w_stack w = reference :: rest ->
  isConst reference = true ->
  (let '(r, w', t) := AppendDynamicOpcode_evaluate this w in
   count is_value_read t = 1 /\
   EValue (ref_cell (map_inner (normalize this reference))) ∈ t /\
   count is_cache_creation t = 0 /\
   w_caches w' = w_caches w /\
   count is_registration t = 0 /\
   w_opcodes w' = w_opcodes w /\
   w_updating w' = w_updating w /\
   length (w_updating w') = length (w_updating w) /\
   (forall cell value,
      w_refs w !! ref_cell reference = Some cell ->
      map_fn (normalize this reference) (cell_value cell) = Normal value ->
      r = Normal tt /\
      t = [EPop reference; EValue (ref_cell reference);
           EInsert this (w_cursor w) value;
           ENewFragment (length (w_fragments w));
           ENewBounds (length (w_fragments w))])).
Proof.
  intros Hs Hc.
  destruct w as [stack refs caches frags tree cur blocks ops upd g env fr tpl].
  destruct reference as [c cell0]. cbn in Hs, Hc. subst stack c.
  destruct (refs !! cell0) as [cell|] eqn:Hcell.
  - destruct this.
    + destruct (normalizeValue (cell_value cell)) as [v|e] eqn:Hv;
        vm_unfold; rewrite Hcell; cbn; rewrite Hv; cbn;
        split_and!; try reflexivity; try (apply list_elem_of_In; cbn; tauto);
        intros cell' v' [= <-]; rewrite Hv; intros [= <-]; now split.
    + destruct (normalizeTrustedValue (cell_value cell)) as [v|e] eqn:Hv;
        vm_unfold; rewrite Hcell; cbn; rewrite Hv; cbn;
        split_and!; try reflexivity; try (apply list_elem_of_In; cbn; tauto);
        intros cell' v' [= <-]; rewrite Hv; intros [= <-]; now split.
  - destruct this; vm_unfold; rewrite Hcell; cbn;
      (split_and!; try reflexivity; try (apply list_elem_of_In; cbn; tauto);
       intros; discriminate).
Qed.

(** C3, amended: when the popped reference is not constant and its
    normalized value can be read, the append opcode wraps the normalized
    reference in a new cache, obtains the initial value through
    [cache.peek()] (which performs the first read), inserts it, and appends
    exactly one updating opcode of its own variant, carrying that cache, the
    new fragment and the upsert that [insert] returned, to the
    updating-opcode list.  When reading the normalized value raises, the
    cache has been created and peeked, the opcode raises the same exception,
    and nothing is inserted and no updating opcode is created or appended. *)
Theorem variable_reference_registers_update
    (this : Mode) (w : World) (reference : Reference)
    (rest : list Reference) (cell : RefCell) :
  w_stack w = reference :: rest ->
  isConst reference = false ->
  w_refs w !! ref_cell reference = Some cell ->
  let c := length (w_caches w) in
  let f := length (w_fragments w) in
  let o := length (w_opcodes w) in
  (forall value,
     map_fn (normalize this reference) (cell_value cell) = Normal value ->
     let inserted := variant_insert this (w_cursor w) value (w_tree w) in
     let op := {| uo_mode := this; uo_guid := w_guid w;
                  uo_tag := ref_cell reference; uo_cache := c;
                  uo_bounds := f; uo_upsert := fst inserted |} in
     AppendDynamicOpcode_evaluate this w =
     (Normal tt,
      {| w_stack := rest;
         w_refs := w_refs w;
         w_caches := w_caches w ++
                     [{| cache_reference := normalize this reference;
                         cache_last := Some (cell_tag cell, value) |}];
         w_fragments := w_fragments w ++ [Upsert_bounds (fst inserted)];
         w_tree := snd inserted;
         w_cursor := w_cursor w;
         w_blocks := w_blocks w ++ [f];
         w_opcodes := w_opcodes w ++ [op];
         w_updating := w_updating w ++ [o];
         w_guid := S (w_guid w);
         w_env := w_env w;
         w_frames := w_frames w;
         w_templates := w_templates w |},
      [EPop reference; ENewCache c; EPeek c; EValue (ref_cell reference);
       EInsert this (w_cursor w) value; ENewFragment f; ENewBounds f;
       EUpdateWith o])) /\
  (forall e,
     map_fn (normalize this reference) (cell_value cell) = Thrown e ->
     AppendDynamicOpcode_evaluate this w =
     (Thrown e,
      {| w_stack := rest;
         w_refs := w_refs w;
         w_caches := w_caches w ++
                     [{| cache_reference := normalize this reference;
                         cache_last := None |}];
         w_fragments := w_fragments w;
         w_tree := w_tree w;
         w_cursor := w_cursor w;
         w_blocks := w_blocks w;
         w_opcodes := w_opcodes w;
         w_updating := w_updating w;
         w_guid := w_guid w;
         w_env := w_env w;
         w_frames := w_frames w;
         w_templates := w_templates w |},
      [EPop reference; ENewCache c; EPeek c; EValue (ref_cell reference)])).
Proof.
  intros Hs Hc Hcell.
  destruct w as [stack refs caches frags tree cur blocks ops upd g env fr tpl].
  destruct reference as [c cell0]. cbn in Hs, Hc, Hcell. subst stack c.
  split.
  - intros value Hv.
    destruct this; cbn in Hv; vm_unfold;
      rewrite snoc_lookup_last; cbn; rewrite Hcell; cbn; rewrite Hv; cbn;
      rewrite Hcell; cbn; rewrite snoc_insert_last, snoc_lookup_last; cbn;
      reflexivity.
  - intros e Hv.
    destruct this; cbn in Hv; vm_unfold;
      rewrite snoc_lookup_last; cbn; rewrite Hcell; cbn; rewrite Hv; cbn;
      reflexivity.
Qed.

(** Every updating opcode that the append opcode registers has a cache
    that has been read. *)
Corollary registered_opcode_cache_read
    (this : Mode) (w : World) (reference : Reference)
    (rest : list Reference) (cell : RefCell) (value : Insertion) :
  w_stack w = reference :: rest ->
  isConst reference = false ->
  w_refs w !! ref_cell reference = Some cell ->
  map_fn (normalize this reference) (cell_value cell) = Normal value ->
  let w' := snd (fst (AppendDynamicOpcode_evaluate this w)) in
  exists self st,
    w_opcodes w' !! length (w_opcodes w) = Some self /\
    w_caches w' !! uo_cache self = Some st /\
    cache_last st = Some (cell_tag cell, value).
Proof.
  intros Hs Hc Hcell Hv.
  destruct w as [stack refs caches frags tree cur blocks ops upd g env fr tpl].
  destruct reference as [c cell0]. cbn in Hs, Hc, Hcell. subst stack c.
  destruct this; cbn in Hv; vm_unfold;
    rewrite snoc_lookup_last; cbn; rewrite Hcell; cbn; rewrite Hv; cbn;
    rewrite Hcell; cbn; rewrite snoc_insert_last, snoc_lookup_last; cbn;
    (eexists _, _; split_and!;
     [apply snoc_lookup_last|cbn; apply snoc_lookup_last|reflexivity]).
Qed.

(** C2: on a tick where [cache.revalidate()] reports a modified value and
    [upsert.update] answers false, the update opcode clears the bounds held
    by its fragment, builds a cursor from the parent element of those bounds
    and the marker that [clear] returned, calls the [insert] of its variant
    at that cursor, stores the upsert that [insert] returned in its [upsert]
    field (its other fields staying as they were) and makes its fragment
    hold the bounds of the new upsert; the evaluation returns normally. *)
Theorem failed_update_reinserts
    (this : nat) (w w1 : World) (self : UpdateOpcode) (value : Insertion)
    (t1 : list Event) (b : Bounds) :
  w_opcodes w !! this = Some self ->
  ReferenceCache_revalidate (uo_cache self) w
    = (Normal (Modified value), w1, t1) ->
  fst (fst (Upsert_update (uo_upsert self) value (w_tree w1))) = false ->
  w_fragments w1 !! uo_bounds self = Some b ->
  let updated := Upsert_update (uo_upsert self) value (w_tree w1) in
  let cleared := clear b (snd updated) in
  let cursor := mkCursor (Bounds_parentElement b) (fst cleared) in
  let inserted := variant_insert (uo_mode self) cursor value (snd cleared) in
  let w' :=
    set_fragments (<[uo_bounds self := Upsert_bounds (fst inserted)]>
                     (w_fragments w1))
      (set_opcodes (alter (fun op =>
                             {| uo_mode := uo_mode op; uo_guid := uo_guid op;
                                uo_tag := uo_tag op; uo_cache := uo_cache op;
                                uo_bounds := uo_bounds op;
                                uo_upsert := fst inserted |})
                          this (w_opcodes w1))
         (set_tree (snd inserted) w1)) in
  UpdateOpcode_evaluate this w =
    (Normal tt, w',
     t1 ++ [EUpdate (uo_upsert self) value; EClear b;
            EInsert (uo_mode self) cursor value;
            EFragmentUpdate (uo_bounds self) (Upsert_bounds (fst inserted))])
  /\ w_opcodes w' !! this =
       Some {| uo_mode := uo_mode self; uo_guid := uo_guid self;
               uo_tag := uo_tag self; uo_cache := uo_cache self;
               uo_bounds := uo_bounds self; uo_upsert := fst inserted |}
  /\ (uo_upsert <$> w_opcodes w' !! this) = Some (fst inserted)
  /\ w_opcodes w' !! this = Some (with_upsert self (fst inserted))
  /\ w_fragments w' !! uo_bounds self = Some (Upsert_bounds (fst inserted))
  /\ w_tree w' = snd inserted.
Proof.
  intros Hop Hre Hup Hfr updated cleared cursor inserted w'.
  pose proof (ReferenceCache_revalidate_frame _ _ _ _ _ Hre) as [Hw1 _].
  assert (Hop1 : w_opcodes w1 !! this = Some self).
  { rewrite Hw1. destruct w; exact Hop. }
  assert (Hnew : w_opcodes w' !! this =
                 Some {| uo_mode := uo_mode self; uo_guid := uo_guid self;
                         uo_tag := uo_tag self; uo_cache := uo_cache self;
                         uo_bounds := uo_bounds self;
                         uo_upsert := fst inserted |}).
  { subst w'. destruct w1. cbn in Hop1 |- *.
    now rewrite list_lookup_alter_eq, Hop1. }
  split_and!.
  - unfold UpdateOpcode_evaluate.
    rewrite (bind_Normal _ _ _ _ _ _ (UpdateOpcode_at_Some _ _ _ Hop)).
    rewrite (bind_Normal _ _ _ _ _ _ Hre).
    subst w' inserted cursor cleared updated.
    destruct w1. cbn in Hup, Hfr, Hop1 |- *.
    vm_unfold. rewrite Hup. cbn. repeat (rewrite Hfr; cbn).
    reflexivity.
  - exact Hnew.
  - now rewrite Hnew.
  - exact Hnew.
  - subst w'. destruct w1. cbn in Hfr |- *.
    apply list_lookup_insert_eq. now apply lookup_lt_Some in Hfr.
  - subst w'. now destruct w1.
Qed.

(** C7: on a tick where [cache.revalidate()] reports [NotModified], the
    update opcode does nothing beyond that call; and as long as the tag
    captured by the cache is the current tag of its reference, any number of
    consecutive ticks leave the whole state as it was, the opcode's [bounds]
    and [upsert] and the output tree included, the only calls made being the
    revalidations. *)
Theorem unchanged_tag_is_noop
    (this : nat) (w : World) (self : UpdateOpcode) :
  w_opcodes w !! this = Some self ->
  (forall w1 t1,
     ReferenceCache_revalidate (uo_cache self) w
       = (Normal NotModified, w1, t1) ->
     UpdateOpcode_evaluate this w = (Normal tt, w1, t1) /\
     w_opcodes w1 !! this = Some self /\
     w_fragments w1 = w_fragments w /\
     w_tree w1 = w_tree w /\
     count is_tree_mutation t1 = 0) /\
  (forall st last cell,
     w_caches w !! uo_cache self = Some st ->
     cache_last st = Some (cell_tag cell, last) ->
     w_refs w !! ref_cell (map_inner (cache_reference st)) = Some cell ->
     forall n,
       ticks n this w
         = (Normal tt, w, repeat (ERevalidate (uo_cache self)) n) /\
       count is_tree_mutation (repeat (ERevalidate (uo_cache self)) n) = 0).
Proof.
  intros Hop. split.
  - intros w1 t1 Hre.
    pose proof (ReferenceCache_revalidate_frame _ _ _ _ _ Hre) as [Hw1 Hc].
    split_and!; [| rewrite Hw1; now destruct w ..| exact Hc].
    unfold UpdateOpcode_evaluate.
    rewrite (bind_Normal _ _ _ _ _ _ (UpdateOpcode_at_Some _ _ _ Hop)).
    rewrite (bind_Normal _ _ _ _ _ _ Hre). cbn.
    now rewrite app_nil_r.
  - intros st last cell Hc Hl Hr n.
    pose proof (ReferenceCache_revalidate_unchanged _ _ _ _ _ Hc Hl Hr) as Hre.
    assert (Hev : UpdateOpcode_evaluate this w
                  = (Normal tt, w, [ERevalidate (uo_cache self)])).
    { unfold UpdateOpcode_evaluate.
      rewrite (bind_Normal _ _ _ _ _ _ (UpdateOpcode_at_Some _ _ _ Hop)).
      now rewrite (bind_Normal _ _ _ _ _ _ Hre). }
    split.
    + induction n as [|n IH]; [reflexivity|].
      cbn [ticks]. rewrite (bind_Normal _ _ _ _ _ _ Hev), IH. reflexivity.
    + induction n as [|n IH]; [reflexivity|exact IH].
Qed.

(** C8: for an update opcode whose cache has been read (as is the case for
    every opcode registered by the append opcode), [toJSON] returns the
    snapshot made of its guid, its type tag and, as [details.lastValue],
    JSON.stringify of the value that [cache.peek()] returns, which is the
    cached one: nothing is read anew, and the caches, the output tree and the
    rest of the state stay as they were. *)
Theorem toJSON_snapshot
    (JSON_stringify : Insertion -> string)
    (this : nat) (w : World) (self : UpdateOpcode) (st : ReferenceCache)
    (tag : nat) (last : Insertion) :
  w_opcodes w !! this = Some self ->
  w_caches w !! uo_cache self = Some st ->
  cache_last st = Some (tag, last) ->
  ReferenceCache_peek (uo_cache self) w
    = (Normal last, w, [EPeek (uo_cache self)]) /\
  UpdateOpcode_toJSON JSON_stringify this w =
    (Normal {| details_lastValue := JSON_stringify last;
               guid := uo_guid self;
               type := type_of_update (uo_mode self) |},
     w, [EPeek (uo_cache self)]) /\
  count is_value_read [EPeek (uo_cache self)] = 0 /\
  count is_tree_mutation [EPeek (uo_cache self)] = 0.
Proof.
  intros Hop Hc Hl.
  pose proof (ReferenceCache_peek_cached _ _ _ _ _ Hc Hl) as Hpeek.
  split_and!; try reflexivity; [exact Hpeek|].
  unfold UpdateOpcode_toJSON.
  rewrite (bind_Normal _ _ _ _ _ _ (UpdateOpcode_at_Some _ _ _ Hop)).
  now rewrite (bind_Normal _ _ _ _ _ _ Hpeek).
Qed.

End ContentFacts.

(** The opcodes on the sample worlds. *)

Section ContentWitnesses.
Import Normalize Content FlatTree Samples.
Local Open Scope list_scope.

Lemma constant_reference_short_circuit_witness :
  w_stack world_const = [mkReference true 0] /\
  isConst (mkReference true 0) = true /\
  (let '(r, w', t) := AppendDynamicOpcode_evaluate Cautious world_const in
   count is_value_read t = 1 /\
   w_caches w' = [] /\
   w_updating w' = [] /\
   t_children (w_tree w') = [mkFNode 0 (PText "hello")]).
Proof.
  split; [reflexivity|]. split; [reflexivity|].
  pose proof (constant_reference_short_circuit Cautious world_const
                (mkReference true 0) [] eq_refl eq_refl) as P.
  cbn in P |- *. destruct P as (P1 & _ & _ & P2 & _ & _ & P3 & _).
  split_and!; [exact P1|exact P2|exact P3|reflexivity].
Defined.

(** C3, as stated, fails: for a non-constant reference whose normalized
    value cannot be read, the append opcode of either variant creates the
    cache and peeks it, but raises, and no updating opcode is created or
    appended to the updating-opcode list. *)
Lemma unreadable_reference_registers_nothing :
  w_stack world_throwing = [mkReference false 0] /\
  isConst (mkReference false 0) = false /\
  (forall this,
     let '(r, w', t) := AppendDynamicOpcode_evaluate this world_throwing in
     r = Thrown "boom" /\
     length (w_caches w') = 1 /\
     w_opcodes w' = [] /\
     w_updating w' = w_updating world_throwing /\
     count is_registration t = 0).
Proof.
  split; [reflexivity|]. split; [reflexivity|].
  intros []; vm_compute; repeat split.
Qed.

Lemma variable_reference_registers_update_witness :
  w_stack world_var = [mkReference false 0] /\
  isConst (mkReference false 0) = false /\
  w_refs world_var !! 0 = Some (mkRefCell 0 five) /\
  normalizeValue five = Normal (Str "5") /\
  w_opcodes world_rendered = [rendered_opcode] /\
  w_updating world_rendered = [0] /\
  (cache_last <$> w_caches world_rendered) = [Some (0, Str "5")] /\
  w_refs world_throwing !! 0 = Some (mkRefCell 0 throwing_toString) /\
  normalizeValue throwing_toString = Thrown "boom" /\
  w_updating (snd (fst (AppendDynamicOpcode_evaluate Cautious world_throwing)))
  = [].
Proof.
  do 4 (split; [reflexivity|]).
  pose proof (proj1 (variable_reference_registers_update Cautious world_var
                       (mkReference false 0) [] (mkRefCell 0 five)
                       eq_refl eq_refl eq_refl) (Str "5") eq_refl) as P.
  pose proof (proj2 (variable_reference_registers_update Cautious
                       world_throwing (mkReference false 0) []
                       (mkRefCell 0 throwing_toString)
                       eq_refl eq_refl eq_refl) "boom" eq_refl) as Q.
  unfold world_rendered. rewrite P, Q. repeat split.
Defined.

Lemma failed_update_reinserts_witness :
  w_opcodes world_changed !! 0 = Some rendered_opcode /\
  (ReferenceCache_revalidate 0 world_changed).1.1 = Normal (Modified a_node) /\
  (flat_update (mkFUpsert KText (mkFBounds 0 0 0)) a_node
               (mkFTree [mkFNode 0 (PText "5")] 1)).1.1 = false /\
  w_fragments world_changed !! 0 = Some (mkFBounds 0 0 0) /\
  (let '(r, w', t) := UpdateOpcode_evaluate 0 world_changed in
   r = Normal tt /\
   (uo_upsert <$> w_opcodes w' !! 0)
   = Some (mkFUpsert (KNode 5) (mkFBounds 0 1 1)) /\
   (uo_bounds <$> w_opcodes w' !! 0) = Some 0 /\
   w_fragments w' !! 0 = Some (mkFBounds 0 1 1) /\
   t_children (w_tree w') = [mkFNode 1 (PAdopted 5)]).
Proof.
  do 4 (split; [reflexivity|]).
  destruct (failed_update_reinserts 0 world_changed
              (ReferenceCache_revalidate 0 world_changed).1.2
              rendered_opcode a_node
              (ReferenceCache_revalidate 0 world_changed).2
              (mkFBounds 0 0 0) eq_refl eq_refl eq_refl eq_refl)
    as (Hev & Hop & Hup & _ & Hfr & Htr).
  rewrite Hev. split_and!; [reflexivity|exact Hup| |exact Hfr|].
  - rewrite Hop. reflexivity.
  - rewrite Htr. reflexivity.
Defined.

Lemma unchanged_tag_is_noop_witness :
  w_opcodes world_rendered !! 0 = Some rendered_opcode /\
  (ReferenceCache_revalidate 0 world_rendered).1.1 = Normal NotModified /\
  UpdateOpcode_evaluate 0 world_rendered
    = (Normal tt, world_rendered, [ERevalidate 0]) /\
  ticks 3 0 world_rendered
    = (Normal tt, world_rendered,
       [ERevalidate 0; ERevalidate 0; ERevalidate 0]).
Proof.
  split; [reflexivity|]. split; [reflexivity|]. split.
  - apply (proj1 (unchanged_tag_is_noop 0 world_rendered rendered_opcode
                    eq_refl) world_rendered [ERevalidate 0] eq_refl).
  - apply (proj2 (unchanged_tag_is_noop 0 world_rendered rendered_opcode
                    eq_refl)
             (mkReferenceCache (normalize Cautious (mkReference false 0))
                               (Some (0, Str "5")))
             (Str "5") (mkRefCell 0 five) eq_refl eq_refl eq_refl 3).
Defined.

Lemma toJSON_snapshot_witness :
  w_opcodes world_rendered !! 0 = Some rendered_opcode /\
  (cache_last <$> w_caches world_rendered !! 0) = Some (Some (0, Str "5")) /\
  UpdateOpcode_toJSON flat_stringify 0 world_rendered =
    (Normal {| details_lastValue := flat_stringify (Str "5");
               guid := 0;
               type := "optimized-cautious-update" |},
     world_rendered, [EPeek 0]).
Proof.
  split; [reflexivity|]. split; [reflexivity|].
  apply (toJSON_snapshot flat_stringify 0 world_rendered rendered_opcode
           (mkReferenceCache (normalize Cautious (mkReference false 0))
                             (Some (0, Str "5")))
           0 (Str "5") eq_refl eq_refl eq_refl).
Defined.

End ContentWitnesses.

(** ** The HTMLBars object model *)

Section HObjectFacts.
Import HObject HObjectRel HSamples.
Local Open Scope list_scope.

Lemma objs_defineProperty (subject : nat) (name : string) (pd : Property)
    (h : Heap) :
  length (objs (defineProperty subject name pd h)) = length (objs h).
Proof. unfold defineProperty. cbn. apply length_alter. Qed.

Lemma getOwn_defineProperty (subject : nat) (name : string) (pd : Property)
    (h : Heap) :
  subject < length (objs h) ->
  getOwnPropertyDescriptor (defineProperty subject name pd h) subject name
  = Some pd.
Proof.
  intros Hlt. apply lookup_lt_is_Some_2 in Hlt as [o Ho].
  unfold getOwnPropertyDescriptor, defineProperty. cbn.
  rewrite list_lookup_alter_eq, Ho. cbn. apply lookup_insert_eq.
Qed.

Lemma getPropertyDescriptor_own (h : Heap) (subject : nat) (name : string)
    (pd : Property) :
  getOwnPropertyDescriptor h subject name = Some pd ->
  getPropertyDescriptor h subject name = Some pd.
Proof. intros E. unfold getPropertyDescriptor. now rewrite E. Qed.

Lemma getPropertyDescriptor_exists (h : Heap) (subject : nat) (name : string)
    (pd : Property) :
  getPropertyDescriptor h subject name = Some pd ->
  subject < length (objs h).
Proof.
  unfold getPropertyDescriptor, getOwnPropertyDescriptor, getPrototypeOf.
  destruct (objs h !! subject) as [o|] eqn:Ho.
  - intros _. now apply lookup_lt_Some in Ho.
  - destruct (length (objs h)); discriminate.
Qed.

Lemma get_with_objs callf :
  keeps_objects callf ->
  forall h receiver name,
    length (objs (snd (get_with callf h receiver name))) = length (objs h).
Proof.
  intros K h receiver name. unfold get_with.
  destruct (objs h !! receiver); [|reflexivity].
  destruct (getPropertyDescriptor h receiver name) as [[v|g]|];
    try reflexivity.
  destruct g; try reflexivity; apply K.
Qed.

Lemma run_with_objs callf (this : nat) :
  keeps_objects callf ->
  forall c h,
    length (objs (snd (run_with callf this c h))) = length (objs h).
Proof.
  intros K. pose proof (get_with_objs _ K) as G.
  induction c as [v|e|name k IH|name v k IH|name args k IH]; intros h; cbn.
  - reflexivity.
  - reflexivity.
  - specialize (G h this name).
    destruct (get_with callf h this name) as [[v|e] h1]; cbn in G |- *.
    + now rewrite IH.
    + exact G.
  - rewrite IH. apply objs_defineProperty.
  - specialize (G h this name).
    destruct (get_with callf h this name) as [[m|e] h1]; cbn in G.
    + specialize (K h1 m this args).
      destruct (callf h1 m this args) as [r h2]. cbn in K.
      rewrite IH. congruence.
    + rewrite IH. exact G.
Qed.

Lemma Object_defineProperty_objs (subject : nat) (name : string)
    (pd : Property) (h : Heap) :
  length (objs (snd (Object_defineProperty subject name pd h)))
  = length (objs h).
Proof.
  destruct pd as [v|[]]; cbn; try reflexivity; apply length_alter.
Qed.

Lemma wrapAccessor_objs (home : nat) (name : string) (original : Value)
    (h : Heap) :
  objs (snd (wrapAccessor home name original h)) = objs h.
Proof.
  unfold wrapAccessor.
  now destruct (getPropertyDescriptor h home name) as [[v|g]|].
Qed.

Lemma Computed_define_objs callf (this prototype : nat) (key : string)
    (home : nat) :
  keeps_objects callf ->
  forall h,
    length (objs (snd (Computed_define callf this prototype key home h)))
    = length (objs h).
Proof.
  intros K h. unfold Computed_define.
  pose proof (get_with_objs _ K h this "callback") as G.
  destruct (get_with callf h this "callback") as [[cb|e] h1]; cbn in G;
    [|exact G].
  pose proof (wrapAccessor_objs home key cb h1) as W.
  destruct (wrapAccessor home key cb h1) as [desc h2]. cbn in W.
  pose proof (Object_defineProperty_objs prototype key desc h2) as D.
  destruct (Object_defineProperty prototype key desc h2) as [[[]|e] h3];
    cbn in D |- *; congruence.
Qed.

(** Whatever is called, with whatever room on the stack, the call returns
    or raises, and no object has been created or removed. *)
Lemma apply_objs (depth : nat) : keeps_objects (apply depth).
Proof.
  induction depth as [|n IHa]; intros h f this args.
  - destruct f as [| | | | |a|]; try reflexivity. cbn.
    now destruct (funs h !! a).
  - pose proof (get_with_objs _ IHa) as IHg.
    destruct f as [| | | | |a|]; try reflexivity. cbn [apply].
    destruct (funs h !! a) as [[body|home name original|home name
                                |home name original|home name|p| |]|];
      try reflexivity.
    + now apply run_with_objs.
    + specialize (IHg h this "_super").
      destruct (get_with (apply n) h this "_super") as [[lastSuper|e] h1];
        cbn in IHg |- *; [|exact IHg].
      match goal with
      | |- context [apply n ?h3 original this args] =>
          pose proof (IHa h3 original this args) as Ea;
          destruct (apply n h3 original this args) as [r4 h4]
      end.
      cbn in Ea |- *. rewrite !length_alter in *. cbn in Ea. congruence.
    + specialize (IHg h home name).
      destruct (get_with (apply n) h home name) as [[m|e] h1];
        cbn in IHg |- *; [|exact IHg].
      rewrite IHa. exact IHg.
    + specialize (IHg h this "_super").
      destruct (get_with (apply n) h this "_super") as [[lastSuper|e] h1];
        cbn in IHg |- *; [|exact IHg].
      match goal with
      | |- context [apply n ?h3 original this []] =>
          pose proof (IHa h3 original this []) as Ea;
          destruct (apply n h3 original this []) as [r4 h4]
      end.
      cbn in Ea |- *. rewrite !length_alter in *. cbn in Ea. congruence.
    + destruct (getPropertyDescriptor h home name) as [[v|g]|];
        try reflexivity.
      apply IHa.
    + destruct args as [|[| | | | | |p] [|[| | | |key| |] [|[| | | | | |home] rest]]];
        try reflexivity.
      now apply Computed_define_objs.
Qed.

Lemma get_with_data callf (h : Heap) (this : nat) (name : string)
    (v : Value) :
  getPropertyDescriptor h this name = Some (DataProp v) ->
  get_with callf h this name = (Normal v, h).
Proof.
  intros E. unfold get_with.
  pose proof (getPropertyDescriptor_exists _ _ _ _ E) as Hlt.
  apply lookup_lt_is_Some_2 in Hlt as [o ->]. now rewrite E.
Qed.

Lemma during_call_super (super : Fun) (this : nat) (h : Heap) :
  this < length (objs h) ->
  getPropertyDescriptor (during_call super this h) this "_super"
  = Some (DataProp (VFun (length (funs h)))) /\
  funs (during_call super this h) !! length (funs h) = Some super.
Proof.
  intros Hlt. split.
  - apply getPropertyDescriptor_own. now apply getOwn_defineProperty.
  - cbn. now apply list_lookup_middle.
Qed.

Lemma restored_after_call (depth : nat) (super : Fun) (this : nat) (h : Heap)
    (f : Value) (args : list Value) (lastSuper : Value) :
  this < length (objs h) ->
  getPropertyDescriptor
    (set_own this "_super" lastSuper
             (snd (apply depth (during_call super this h) f this args)))
    this "_super"
  = Some (DataProp lastSuper).
Proof.
  intros Hlt.
  pose proof (apply_objs depth (during_call super this h) f this args) as Ea.
  apply getPropertyDescriptor_own, getOwn_defineProperty.
  rewrite Ea. unfold during_call, set_own. now rewrite objs_defineProperty.
Qed.

Lemma method_wrapper_call (n : nat) (h : Heap) (w this : nat)
    (args : list Value) (home : nat) (name : string) (original : Value)
    (lastSuper : Value) :
  funs h !! w = Some (MethodWrapper home name original) ->
  getPropertyDescriptor h this "_super" = Some (DataProp lastSuper) ->
  apply (S n) h (VFun w) this args =
  (let (r, h4) := apply n (during_call (MethodSuper home name) this h)
                        original this args in
   (r, set_own this "_super" lastSuper h4)).
Proof.
  intros Hw Hs. cbn [apply]. rewrite Hw.
  now rewrite (get_with_data _ _ _ _ _ Hs).
Qed.

Lemma getter_wrapper_call (n : nat) (h : Heap) (w this : nat)
    (args : list Value) (home : nat) (name : string) (original : Value)
    (lastSuper : Value) :
  funs h !! w = Some (GetterWrapper home name original) ->
  getPropertyDescriptor h this "_super" = Some (DataProp lastSuper) ->
  apply (S n) h (VFun w) this args =
  (let (r, h4) := apply n (during_call (GetterSuper home name) this h)
                        original this [] in
   (r, set_own this "_super" lastSuper h4)).
Proof.
  intros Hw Hs. cbn [apply]. rewrite Hw.
  now rewrite (get_with_data _ _ _ _ _ Hs).
Qed.

(** What [mergeProperties] installs for a function. *)
Lemma mergeProperty_function (depth : nat) (superProto proto : nat)
    (key : string) (f : nat) (h : Heap) (builder : MetaBuilder) :
  mergeProperty depth superProto proto key (VFun f) h builder =
  (Normal tt,
   defineProperty proto key
     (DataProp (fst (wrapMethod superProto key (VFun f) h)))
     (snd (wrapMethod superProto key (VFun f) h)),
   builder).
Proof.
  unfold mergeProperty. now destruct (wrapMethod superProto key (VFun f) h).
Qed.


Lemma elsewhere_refl (proto : nat) (h : Heap) : elsewhere proto h h.
Proof. split; auto. Qed.

(** One more property on [proto] and more functions: elsewhere nothing
    has changed. *)
Lemma elsewhere_step (proto : nat) (h0 h : Heap) (key : string)
    (pd : Property) (l : list Fun) :
  elsewhere proto h0 h ->
  elsewhere proto h0
            (defineProperty proto key pd (mkHeap (objs h) (funs h ++ l))).
Proof.
  intros [Ho Hf]. split.
  - intros i Hi Hne. unfold defineProperty. cbn.
    rewrite list_lookup_alter_ne by congruence. now apply Ho.
  - cbn. etrans; [exact Hf|]. now apply prefix_app_r.
Qed.

Lemma elsewhere_funs (proto : nat) (h0 h : Heap) (l : list Fun) :
  elsewhere proto h0 h ->
  elsewhere proto h0 (mkHeap (objs h) (funs h ++ l)).
Proof.
  intros [Ho Hf]. split; [exact Ho|].
  cbn. etrans; [exact Hf|]. now apply prefix_app_r.
Qed.

(** [wrapAccessor] creates at most one function and touches no object. *)
Lemma wrapAccessor_shape (home : nat) (name : string) (original : Value)
    (h : Heap) :
  exists l, snd (wrapAccessor home name original h)
            = mkHeap (objs h) (funs h ++ l).
Proof.
  unfold wrapAccessor.
  destruct (getPropertyDescriptor h home name) as [[v|g]|]; cbn.
  - exists []. rewrite app_nil_r. now destruct h.
  - now eexists [_].
  - exists []. rewrite app_nil_r. now destruct h.
Qed.

(** What [mergeProperties] installs for a descriptor that follows the
    protocol of [Computed], when there is room on the stack for the call of
    [define]: the accessor made by [wrapAccessor] from its callback. *)
Lemma mergeProperty_computed (n : nat) (superProto proto : nat)
    (key : string) (o : nat) (h : Heap) (builder : MetaBuilder)
    (cb : Value) :
  has_property h o DESCRIPTOR = true ->
  getPropertyDescriptor h o "callback" = Some (DataProp cb) ->
  (forall h', elsewhere proto h h' -> Computed_protocol h' o) ->
  let wrapped := wrapAccessor superProto key cb h in
  mergeProperty (S n) superProto proto key (VObj o) h builder =
  match Object_defineProperty proto key (fst wrapped) (snd wrapped) with
  | (Normal _, h') => (Normal tt, h', builder ++ [key])
  | (Thrown e, h') => (Thrown e, h', builder)
  end.
Proof.
  intros Hhas Hcb Hrob wrapped. unfold mergeProperty. rewrite Hhas.
  destruct (Hrob h (elsewhere_refl _ _)) as [[d [Hd Hfd]] _ _].
  unfold Descriptor_define. rewrite (get_with_data _ _ _ _ _ Hd).
  cbn [apply]. rewrite Hfd. unfold Computed_define.
  rewrite (get_with_data _ _ _ _ _ Hcb). fold wrapped.
  destruct (wrapAccessor_shape superProto key cb h) as [l Hl].
  fold wrapped in Hl. destruct wrapped as [desc h2]. cbn [fst snd] in Hl |- *.
  subst h2.
  assert (Hafter : forall pd,
             Descriptor_buildMeta (S n) o builder key
               (defineProperty proto key pd (mkHeap (objs h) (funs h ++ l)))
             = (Normal tt,
                defineProperty proto key pd (mkHeap (objs h) (funs h ++ l)),
                builder ++ [key])).
  { intros pd.
    destruct (Hrob _ (elsewhere_step proto h h key pd l (elsewhere_refl _ _)))
      as [_ [b [Hb Hfb]] _].
    unfold Descriptor_buildMeta. rewrite (get_with_data _ _ _ _ _ Hb).
    now rewrite Hfb. }
  destruct desc as [v|[| | | | |g|]]; cbn [Object_defineProperty];
    try reflexivity; apply Hafter.
Qed.

(** With no room on the stack, [define] cannot be called. *)
Lemma mergeProperty_computed_overflow (superProto proto : nat)
    (key : string) (o : nat) (h : Heap) (builder : MetaBuilder) :
  has_property h o DESCRIPTOR = true ->
  Computed_protocol h o ->
  mergeProperty 0 superProto proto key (VObj o) h builder
  = (Thrown RangeError, h, builder).
Proof.
  intros Hhas [[d [Hd Hfd]] _ _]. unfold mergeProperty. rewrite Hhas.
  unfold Descriptor_define. rewrite (get_with_data _ _ _ _ _ Hd).
  cbn. now rewrite Hfd.
Qed.

(** [extend] with a single method: the wrapper is made with the prototype
    of the parent class as its home and installed on the new prototype. *)
Lemma extend_method (depth : nat) (Parent : Class) (key : string) (f : nat)
    (h : Heap) :
  let p := length (objs h) in
  let h1 := snd (class_extends (prototype Parent) h) in
  let wrapped := wrapMethod (prototype Parent) key (VFun f) h1 in
  extend depth Parent [(key, VFun f)] h =
  (Normal (mkClass p (_Meta Parent)),
   defineProperty p key (DataProp (fst wrapped)) (snd wrapped)).
Proof.
  intros p h1 wrapped. unfold extend, class_extends, alloc_fun, alloc_obj.
  cbn [mergeProperties]. rewrite mergeProperty_function. reflexivity.
Qed.

(** [reopen] with a single method: the wrapper is made with the class's own
    prototype as its home. *)
Lemma reopen_method (depth : nat) (this : Class) (key : string) (f : nat)
    (h : Heap) :
  let wrapped := wrapMethod (prototype this) key (VFun f) h in
  reopen depth this [(key, VFun f)] h =
  (Normal (mkClass (prototype this) (_Meta this)),
   defineProperty (prototype this) key (DataProp (fst wrapped)) (snd wrapped)).
Proof.
  intros wrapped. unfold reopen. cbn [mergeProperties].
  rewrite mergeProperty_function. reflexivity.
Qed.

(** C10, as stated, fails: a computed accessor that overrides a name which
    the superclass prototype holds as a data property is installed
    unwrapped, and [this._super] is still [null] while it runs. *)
Lemma accessor_over_data_property_unwrapped :
  has_property (snd Person_def) (prototype (fst Person_def)) "title" = true /\
  getPropertyDescriptor (snd Titled_def) (prototype (fst Titled_def)) "title"
  = Some (AccessorProp (VFun 8)) /\
  funs (snd Titled_def) !! 8 = Some read_super /\
  getPropertyDescriptor (instance_of Titled_def) 6 "_super"
  = Some (DataProp VNull) /\
  get stack (instance_of Titled_def) 6 "title"
  = (Normal VNull, instance_of Titled_def).
Proof. split_and!; vm_compute; reflexivity. Qed.

(** C10, amended: under [extend], where the prototype passed as [home] is
    the superclass prototype, a method whose name is in [home] is installed
    as a wrapper, and so is a computed accessor whose name is an accessor
    property of [home]; each invocation of such a wrapper stores in
    [this._super] a function that applies to [this] what [home] holds under
    that name when it is called (the method, or the getter), runs the wrapped
    function, and puts the previous [this._super] back when the call
    completes, whether it returns or throws.  A method whose name is not in
    [home], and a computed accessor whose name is absent from [home] or is a
    data property there, is installed unwrapped. *)
Theorem super_wrapping
    (h : Heap) (home : nat) (name : string) (original : Value) :
  (* what is installed *)
  (has_property h home name = false ->
   wrapMethod home name original h = (original, h)) /\
  (has_property h home name = true ->
   wrapMethod home name original h =
   (VFun (length (funs h)),
    mkHeap (objs h) (funs h ++ [MethodWrapper home name original]))) /\
  ((forall g, getPropertyDescriptor h home name <> Some (AccessorProp g)) ->
   wrapAccessor home name original h = (AccessorProp original, h)) /\
  (forall g, getPropertyDescriptor h home name = Some (AccessorProp g) ->
   wrapAccessor home name original h =
   (AccessorProp (VFun (length (funs h))),
    mkHeap (objs h) (funs h ++ [GetterWrapper home name original]))) /\
  (* an invocation of the method wrapper *)
  (forall n h1 w this args lastSuper,
     funs h1 !! w = Some (MethodWrapper home name original) ->
     getPropertyDescriptor h1 this "_super" = Some (DataProp lastSuper) ->
     let h3 := during_call (MethodSuper home name) this h1 in
     getPropertyDescriptor h3 this "_super"
     = Some (DataProp (VFun (length (funs h1)))) /\
     funs h3 !! length (funs h1) = Some (MethodSuper home name) /\
     apply (S n) h1 (VFun w) this args =
     (let (r, h4) := apply n h3 original this args in
      (r, set_own this "_super" lastSuper h4)) /\
     getPropertyDescriptor (snd (apply (S n) h1 (VFun w) this args))
                           this "_super"
     = Some (DataProp lastSuper)) /\
  (* an invocation of the accessor wrapper *)
  (forall n h1 w this args lastSuper,
     funs h1 !! w = Some (GetterWrapper home name original) ->
     getPropertyDescriptor h1 this "_super" = Some (DataProp lastSuper) ->
     let h3 := during_call (GetterSuper home name) this h1 in
     getPropertyDescriptor h3 this "_super"
     = Some (DataProp (VFun (length (funs h1)))) /\
     funs h3 !! length (funs h1) = Some (GetterSuper home name) /\
     apply (S n) h1 (VFun w) this args =
     (let (r, h4) := apply n h3 original this [] in
      (r, set_own this "_super" lastSuper h4)) /\
     getPropertyDescriptor (snd (apply (S n) h1 (VFun w) this args))
                           this "_super"
     = Some (DataProp lastSuper)) /\
  (* what the function stored in this._super does *)
  (forall n h1 s this args,
     funs h1 !! s = Some (MethodSuper home name) ->
     apply (S n) h1 (VFun s) this args =
     match get n h1 home name with
     | (Normal m, h2) => apply n h2 m this args
     | (Thrown e, h2) => (Thrown e, h2)
     end) /\
  (forall n h1 s this args,
     funs h1 !! s = Some (GetterSuper home name) ->
     apply (S n) h1 (VFun s) this args =
     match getPropertyDescriptor h1 home name with
     | Some (AccessorProp g) => apply n h1 g this []
     | _ => (Thrown TypeError, h1)
     end).
Proof.
  split_and!.
  - intros E. unfold wrapMethod. now rewrite E.
  - intros E. unfold wrapMethod. now rewrite E.
  - intros E. unfold wrapAccessor.
    destruct (getPropertyDescriptor h home name) as [[v|g]|]; try reflexivity.
    now destruct (E g).
  - intros g E. unfold wrapAccessor. now rewrite E.
  - intros n h1 w this args lastSuper Hw Hs h3.
    pose proof (getPropertyDescriptor_exists _ _ _ _ Hs) as Hlt.
    pose proof (method_wrapper_call n _ _ _ args _ _ _ _ Hw Hs) as Hcall.
    destruct (during_call_super (MethodSuper home name) this h1 Hlt)
      as [D1 D2].
    split_and!; [exact D1|exact D2|exact Hcall|].
    rewrite Hcall. fold h3.
    pose proof (restored_after_call n (MethodSuper home name) this h1
                  original args lastSuper Hlt) as R.
    fold h3 in R. now destruct (apply n h3 original this args).
  - intros n h1 w this args lastSuper Hw Hs h3.
    pose proof (getPropertyDescriptor_exists _ _ _ _ Hs) as Hlt.
    pose proof (getter_wrapper_call n _ _ _ args _ _ _ _ Hw Hs) as Hcall.
    destruct (during_call_super (GetterSuper home name) this h1 Hlt)
      as [D1 D2].
    split_and!; [exact D1|exact D2|exact Hcall|].
    rewrite Hcall. fold h3.
    pose proof (restored_after_call n (GetterSuper home name) this h1
                  original [] lastSuper Hlt) as R.
    fold h3 in R. now destruct (apply n h3 original this []).
  - intros n h1 s this args Hs. cbn [apply]. now rewrite Hs.
  - intros n h1 s this args Hs. cbn [apply]. now rewrite Hs.
Qed.

Lemma getOwn_defineProperty_ne (subject subject' : nat) (name name' : string)
    (pd : Property) (h : Heap) :
  subject <> subject' ->
  getOwnPropertyDescriptor (defineProperty subject name pd h) subject' name'
  = getOwnPropertyDescriptor h subject' name'.
Proof.
  intros Hne. unfold getOwnPropertyDescriptor, defineProperty. cbn.
  now rewrite list_lookup_alter_ne.
Qed.

Lemma getOwn_exists (h : Heap) (subject : nat) (name : string)
    (pd : Property) :
  getOwnPropertyDescriptor h subject name = Some pd ->
  subject < length (objs h).
Proof.
  intros E.
  exact (getPropertyDescriptor_exists _ _ _ _
           (getPropertyDescriptor_own _ _ _ _ E)).
Qed.

Lemma self_homed_during (home : nat) (name : string) (w f : nat)
    (body : Fun) (this : nat) (h : Heap) :
  self_homed home name w f body this h ->
  self_homed home name w f body this
             (during_call (MethodSuper home name) this h).
Proof.
  intros [Hw Hb Hi [v Hs] Hd].
  pose proof (getOwn_exists _ _ _ _ Hs) as Hlt.
  split; cbn.
  - rewrite lookup_app_l; [exact Hw|]. now apply lookup_lt_Some in Hw.
  - rewrite lookup_app_l; [exact Hb|]. now apply lookup_lt_Some in Hb.
  - unfold during_call, set_own.
    now rewrite getOwn_defineProperty_ne.
  - eexists. unfold during_call, set_own. now apply getOwn_defineProperty.
  - exact Hd.
Qed.

(** Putting [_super] back after a call that left the objects as they were
    during the call gives back the objects of before the call. *)
Lemma objs_restore (super : Fun) (this : nat) (h h' : Heap) (v : Value) :
  getOwnPropertyDescriptor h this "_super" = Some (DataProp v) ->
  objs h' = objs (during_call super this h) ->
  objs (set_own this "_super" v h') = objs h.
Proof.
  intros Hv E. unfold set_own, defineProperty, during_call in *. cbn in *.
  rewrite E, list_alter_alter_eq.
  unfold getOwnPropertyDescriptor in Hv.
  destruct (objs h !! this) as [o|] eqn:Ho; [|discriminate].
  apply list_eq. intros i. destruct (decide (i = this)) as [->|Hne].
  - rewrite list_lookup_alter_eq, Ho. cbn. f_equal.
    destruct o as [p ps]. cbn in *. f_equal.
    rewrite insert_insert_eq. now apply insert_id.
  - now rewrite list_lookup_alter_ne.
Qed.

(** Under [reopen] the prototype passed as [home] is the class's own
    prototype, so the function stored in [this._super] finds under [name]
    the wrapper that has just been installed: a reopened method that calls
    [this._super()] re-enters itself until the stack is exhausted.  Whatever
    the room on the stack, its call raises a RangeError; every wrapper on
    the way has put [_super] back, so the objects are as before the call. *)
Lemma reopened_super_overflows (home : nat) (name : string) (w f : nat)
    (this : nat) (depth : nat) :
  forall (h : Heap) (args : list Value) (v : Value),
    self_homed home name w f call_super this h ->
    getOwnPropertyDescriptor h this "_super" = Some (DataProp v) ->
    fst (apply depth h (VFun w) this args) = Thrown RangeError /\
    objs (snd (apply depth h (VFun w) this args)) = objs h /\
    funs h `prefix_of` funs (snd (apply depth h (VFun w) this args)).
Proof.
  induction depth as [depth IH] using lt_wf_ind.
  intros h args v SH Hv.
  pose proof (sh_wrapper _ _ _ _ _ _ _ SH) as Hw.
  destruct depth as [|n].
  - cbn. now rewrite Hw.
  - rewrite (method_wrapper_call n h w this args home name (VFun f) v Hw
               (getPropertyDescriptor_own _ _ _ _ Hv)).
    pose proof (self_homed_during _ _ _ _ _ _ _ SH) as SH3.
    pose proof (getOwn_exists _ _ _ _ Hv) as Hlt.
    destruct (during_call_super (MethodSuper home name) this h Hlt)
      as [D1 D2].
    assert (Hv3 : getOwnPropertyDescriptor
                    (during_call (MethodSuper home name) this h) this "_super"
                  = Some (DataProp (VFun (length (funs h))))).
    { unfold during_call, set_own. now apply getOwn_defineProperty. }
    assert (Hf3 : funs h `prefix_of`
                    funs (during_call (MethodSuper home name) this h)).
    { cbn. now apply prefix_app_r. }
    assert (Ho3 : forall h', objs h' = objs (during_call (MethodSuper home name) this h) ->
                             objs (set_own this "_super" v h') = objs h).
    { intros h'. now apply objs_restore. }
    set (h3 := during_call (MethodSuper home name) this h) in *.
    clearbody h3.
    assert (Hin : fst (apply n h3 (VFun f) this args) = Thrown RangeError /\
                  objs (snd (apply n h3 (VFun f) this args)) = objs h3 /\
                  funs h3 `prefix_of`
                    funs (snd (apply n h3 (VFun f) this args))).
    { pose proof (sh_body _ _ _ _ _ _ _ SH3) as Hb3.
      destruct n as [|n]; [cbn [apply]; rewrite Hb3; now cbn|].
      cbn [apply]. rewrite Hb3. unfold call_super. cbn [run_with].
      rewrite (get_with_data _ _ _ _ _ D1).
      destruct n as [|n]; [cbn [apply]; rewrite D2; now cbn|].
      cbn [apply]. rewrite D2.
      rewrite (get_with_data _ _ _ _ _
                 (getPropertyDescriptor_own _ _ _ _
                    (sh_installed _ _ _ _ _ _ _ SH3))).
      destruct (IH n ltac:(lia) h3 args _ SH3 Hv3) as (E1 & E2 & E3).
      destruct (apply n h3 (VFun w) this args) as [r5 h5].
      cbn in E1, E2, E3. subst r5. cbn. auto. }
    destruct Hin as (E1 & E2 & E3).
    destruct (apply n h3 (VFun f) this args) as [r4 h4].
    cbn in E1, E2, E3 |- *. split_and!.
    + exact E1.
    + now apply Ho3.
    + etrans; [exact Hf3|exact E3].
Qed.

Lemma Person_reopened_self_homed :
  self_homed 3 "greet" 10 6 call_super 4 (instance_of Person_reopened).
Proof.
  split; try (vm_compute; reflexivity).
  - exists VNull. vm_compute. reflexivity.
  - discriminate.
Qed.

Corollary Person_reopened_greet_overflows (depth : nat) :
  fst (apply depth (instance_of Person_reopened) (VFun 10) 4 [])
  = Thrown RangeError.
Proof.
  refine (proj1 (reopened_super_overflows 3 "greet" 10 6 4 depth _ [] VNull
                   Person_reopened_self_homed _)).
  vm_compute. reflexivity.
Qed.

(** The wrapper of a method that throws still puts [_super] back. *)
Example rude_greet_throws_and_restores :
  fst (apply stack (instance_of Rude_def) (VFun 11) 5 []) = Thrown "boom" /\
  getPropertyDescriptor
    (snd (apply stack (instance_of Rude_def) (VFun 11) 5 [])) 5 "_super"
  = Some (DataProp VNull).
Proof. split; vm_compute; reflexivity. Qed.

Lemma super_wrapping_witness :
  (* a method name that the superclass lacks *)
  (has_property (snd Person_def) 3 "walk" = false /\
   wrapMethod 3 "walk" (VFun 5) (snd Person_def) = (VFun 5, snd Person_def)) /\
  (* a method name that the superclass has *)
  (has_property (snd Person_def) 3 "greet" = true /\
   fst (wrapMethod 3 "greet" (VFun 6) (snd Person_def)) = VFun 10) /\
  (* an accessor over a data property, and over an accessor *)
  fst (wrapAccessor 3 "title" (VFun 8) (snd Person_def))
  = AccessorProp (VFun 8) /\
  fst (wrapAccessor 5 "title" (VFun 6) (snd Titled_def))
  = AccessorProp (VFun 11) /\
  (* Polite.create().greet() *)
  (funs (instance_of Polite_def) !! 11
   = Some (MethodWrapper 3 "greet" (VFun 6)) /\
   getPropertyDescriptor (instance_of Polite_def) 5 "_super"
   = Some (DataProp VNull) /\
   fst (apply stack (instance_of Polite_def) (VFun 11) 5 [])
   = Normal (VString "hi") /\
   getPropertyDescriptor
     (snd (apply stack (instance_of Polite_def) (VFun 11) 5 [])) 5 "_super"
   = Some (DataProp VNull)) /\
  (* Shouting.create().title *)
  (funs (instance_of Shouting_def) !! 12
   = Some (GetterWrapper 5 "title" (VFun 6)) /\
   getPropertyDescriptor (instance_of Shouting_def) 8 "_super"
   = Some (DataProp VNull) /\
   fst (apply stack (instance_of Shouting_def) (VFun 12) 8 [])
   = Normal (VFun 13) /\
   getPropertyDescriptor
     (snd (apply stack (instance_of Shouting_def) (VFun 12) 8 [])) 8 "_super"
   = Some (DataProp VNull)).
Proof.
  split_and!.
  - vm_compute; reflexivity.
  - apply (proj1 (super_wrapping (snd Person_def) 3 "walk" (VFun 5))).
    vm_compute; reflexivity.
  - vm_compute; reflexivity.
  - rewrite (proj1 (proj2 (super_wrapping (snd Person_def) 3 "greet"
                             (VFun 6)))); vm_compute; reflexivity.
  - destruct (super_wrapping (snd Person_def) 3 "title" (VFun 8))
      as (_ & _ & P & _).
    rewrite P; [reflexivity|]. intros g. vm_compute. discriminate.
  - destruct (super_wrapping (snd Titled_def) 5 "title" (VFun 6))
      as (_ & _ & _ & P & _).
    rewrite (P (VFun 8)); vm_compute; reflexivity.
  - vm_compute; reflexivity.
  - vm_compute; reflexivity.
  - vm_compute; reflexivity.
  - destruct (super_wrapping (snd Person_def) 3 "greet" (VFun 6))
      as (_ & _ & _ & _ & P & _).
    apply (P 99 (instance_of Polite_def) 11 5 [] VNull);
      vm_compute; reflexivity.
  - vm_compute; reflexivity.
  - vm_compute; reflexivity.
  - vm_compute; reflexivity.
  - destruct (super_wrapping (snd Titled_def) 5 "title" (VFun 6))
      as (_ & _ & _ & _ & _ & P & _).
    apply (P 99 (instance_of Shouting_def) 12 8 [] VNull);
      vm_compute; reflexivity.
Defined.

End HObjectFacts.
(** * Further properties *)

(** ** The dynamic-content opcodes *)

Section ContentMore.
Import Normalize Content.
Context `{TreeOps} `{Program}.
Local Open Scope list_scope.

(** X4: Whatever the reference, constant or not: when its normalized value can
    be read, the append opcode pops it, inserts the value once at the
    current cursor, wraps the bounds of the new upsert in one new fragment
    and hands that fragment to the current render range. *)
Theorem append_renders_and_registers_bounds
    (this : Mode) (w : World) (reference : Reference)
    (rest : list Reference) (cell : RefCell) (value : Insertion) :
  w_stack w = reference :: rest ->
  w_refs w !! ref_cell reference = Some cell ->
  map_fn (normalize this reference) (cell_value cell) = Normal value ->
  let inserted := variant_insert this (w_cursor w) value (w_tree w) in
  (let '(r, w', t) := AppendDynamicOpcode_evaluate this w in
   r = Normal tt /\
   w_stack w' = rest /\
   w_tree w' = snd inserted /\
   w_fragments w' = w_fragments w ++ [Upsert_bounds (fst inserted)] /\
   w_blocks w' = w_blocks w ++ [length (w_fragments w)] /\
   count is_tree_mutation t = 1 /\
   EInsert this (w_cursor w) value ∈ t).
Proof.
  intros Hs Hcell Hv.
  destruct w as [stack refs caches frags tree cur blocks ops upd g env fr tpl].
  destruct reference as [c cell0]. cbn in Hs, Hcell. subst stack.
  destruct c, this; cbn in Hv; vm_unfold;
    rewrite ?snoc_lookup_last; cbn; rewrite Hcell; cbn; rewrite Hv; cbn;
    rewrite ?Hcell; cbn; rewrite ?snoc_insert_last, ?snoc_lookup_last; cbn;
    (split_and!; try reflexivity; apply list_elem_of_In; cbn; tauto).
Qed.

(** X5: When reading the normalized value raises, so does the append opcode:
    the reference has been popped, but nothing is inserted, no fragment is
    made, no render range is told and no updating opcode is registered.  In
    the non-constant case the cache that was created stays behind, unread. *)
Theorem append_failure_leaves_tree
    (this : Mode) (w : World) (reference : Reference)
    (rest : list Reference) (cell : RefCell) (e : string) :
  w_stack w = reference :: rest ->
  w_refs w !! ref_cell reference = Some cell ->
  map_fn (normalize this reference) (cell_value cell) = Thrown e ->
  (let '(r, w', t) := AppendDynamicOpcode_evaluate this w in
   r = Thrown e /\
   w_stack w' = rest /\
   w_tree w' = w_tree w /\
   w_fragments w' = w_fragments w /\
   w_blocks w' = w_blocks w /\
   w_opcodes w' = w_opcodes w /\
   w_updating w' = w_updating w /\
   w_guid w' = w_guid w /\
   count is_tree_mutation t = 0 /\
   w_caches w' =
     (if isConst reference then w_caches w
      else w_caches w ++ [mkReferenceCache (normalize this reference) None])).
Proof.
  intros Hs Hcell Hv.
  destruct w as [stack refs caches frags tree cur blocks ops upd g env fr tpl].
  destruct reference as [c cell0]. cbn in Hs, Hcell. subst stack.
  destruct c, this; cbn in Hv; vm_unfold;
    rewrite ?snoc_lookup_last; cbn; rewrite Hcell; cbn; rewrite Hv; cbn;
    (split_and!; reflexivity).
Qed.

(** *** A frame rule for the monad *)

Section Respects.
Variable R : World -> World -> Prop.
Hypothesis R_refl : forall w, R w w.
Hypothesis R_trans : forall w1 w2 w3, R w1 w2 -> R w2 w3 -> R w1 w3.

Lemma respects_bind {A B : Type} (m : M A) (k : A -> M B) :
  respects R m -> (forall a, respects R (k a)) -> respects R (bind m k).
Proof.
  intros Hm Hk w. unfold bind. specialize (Hm w).
  destruct (m w) as [[[a|e] w1] t1]; cbn in *; [|exact Hm].
  specialize (Hk a w1). destruct (k a w1) as [[r w2] t2]; cbn in *.
  eapply R_trans; eauto.
Qed.

Lemma respects_ret {A : Type} (a : A) : respects R (ret a).
Proof. intros w. apply R_refl. Qed.

Lemma respects_throw {A : Type} (e : string) : respects R (@throw _ _ A e).
Proof. intros w. apply R_refl. Qed.

Lemma respects_emit (e : Event) : respects R (emit e).
Proof. intros w. apply R_refl. Qed.

Lemma respects_gets {A : Type} (f : World -> A) : respects R (gets f).
Proof. intros w. apply R_refl. Qed.

Lemma respects_lift {A : Type} (o : Outcome A) : respects R (lift o).
Proof. intros w. apply R_refl. Qed.

Lemma respects_deref {A : Type} (o : option A) : respects R (deref o).
Proof. destruct o; intros w; apply R_refl. Qed.

Lemma respects_modify (f : World -> World) :
  (forall w, R w (f w)) -> respects R (modify f).
Proof. intros Hf w. apply Hf. Qed.

End Respects.

(** Decompose a computation into its primitive steps. *)
Ltac respects_steps :=
  repeat first
    [ apply respects_bind; [assumption| |intros ?]
    | apply respects_ret; assumption
    | apply respects_throw; assumption
    | apply respects_emit; assumption
    | apply respects_gets; assumption
    | apply respects_lift; assumption
    | apply respects_deref; assumption
    | match goal with
      | |- respects _ (match ?x with _ => _ end) => destruct x
      | |- respects _ (if ?x then _ else _) => destruct x
      end
    | progress cbn zeta ].

Lemma same_but_upsert_refl (op : UpdateOpcode) : same_but_upsert op op.
Proof. now repeat split. Qed.

Lemma same_but_upsert_trans (a b c : UpdateOpcode) :
  same_but_upsert a b -> same_but_upsert b c -> same_but_upsert a c.
Proof.
  intros (A1 & A2 & A3 & A4 & A5) (B1 & B2 & B3 & B4 & B5).
  repeat split; congruence.
Qed.

Lemma same_but_upsert_alter (l : list UpdateOpcode) (i : nat) (u : Upsert) :
  Forall2 same_but_upsert l (alter (fun op => with_upsert op u) i l).
Proof.
  revert i. induction l as [|op l IH]; intros i; [constructor|].
  destruct i; cbn.
  - constructor; [now repeat split|].
    clear. induction l; constructor; auto using same_but_upsert_refl.
  - constructor; [apply same_but_upsert_refl|apply IH].
Qed.

Lemma tick_frame_refl (w : World) : tick_frame w w.
Proof.
  split; try reflexivity.
  induction (w_opcodes w); constructor; auto using same_but_upsert_refl.
Qed.

Lemma tick_frame_trans (w1 w2 w3 : World) :
  tick_frame w1 w2 -> tick_frame w2 w3 -> tick_frame w1 w3.
Proof.
  intros [] []. split; try congruence.
  eapply Forall2_trans; eauto using same_but_upsert_trans.
Qed.

(** X6: A revalidation tick, whatever happens in it, leaves alone the
    evaluation stack, the references, the cursor, the render ranges, the
    updating list, the guid counter, the frames and the templates; it
    creates no cache, no fragment and no opcode; and of the opcodes it
    changes at most the [upsert] field. *)
Theorem update_tick_frame (this : nat) (w : World) :
  tick_frame w (snd (fst (UpdateOpcode_evaluate this w))).
Proof.
  revert w. change (respects tick_frame (UpdateOpcode_evaluate this)).
  pose proof tick_frame_refl as Hr. pose proof tick_frame_trans as Ht.
  unfold UpdateOpcode_evaluate, UpdateOpcode_at, ReferenceCache_revalidate,
    ReferenceCache_initialize, MapReference_value, MapReference_tag, update,
    set_upsert, Fragment_update, Fragment_parentElement, Fragment_bounds,
    clear_Fragment, insert.
  respects_steps.
  all: apply respects_modify; intros w; destruct w; split; cbn;
    rewrite ?length_insert; try reflexivity;
    first [ apply same_but_upsert_alter
          | match goal with |- Forall2 _ ?l ?l => induction l; constructor;
                                                   auto using same_but_upsert_refl end ].
Qed.

(** *** What a tick does to the stores *)

Lemma UpdateOpcode_at_None (this : nat) (w : World) :
  w_opcodes w !! this = None ->
  UpdateOpcode_at this w = (Thrown TypeError, w, []).
Proof. intros E. vm_unfold. now rewrite E. Qed.

(** The state after a revalidation: as before, except after a recomputation
    that succeeded, which has stored the fresh tag and value in the cache. *)
Lemma ReferenceCache_revalidate_result (c : nat) (w w1 : World)
    (r : Outcome Validation) (t : list Event) :
  ReferenceCache_revalidate c w = (r, w1, t) ->
  match r with
  | Normal (Modified v) =>
      exists st tg,
        w_caches w !! c = Some st /\
        w1 = set_caches
               (<[c := mkReferenceCache (cache_reference st) (Some (tg, v))]>
                  (w_caches w)) w
  | _ => w1 = w
  end.
Proof.
  destruct w as [stack refs caches frags tree cur blocks ops upd g env fr tpl].
  vm_unfold.
  destruct (caches !! c) as [st|] eqn:Hc; cbn; [|now intros [= <- <- <-]].
  destruct (refs !! ref_cell (map_inner (cache_reference st)))
    as [cell|] eqn:Hcell.
  - destruct (cache_last st) as [[t0 v0]|]; cbn; rewrite ?Hcell; cbn.
    + destruct (decide (cell_tag cell = t0)); cbn;
        [now intros [= <- <- <-]|].
      rewrite Hcell. cbn.
      destruct (map_fn (cache_reference st) (cell_value cell)); cbn;
        rewrite ?Hcell; cbn; intros [= <- <- <-]; eauto.
    + destruct (map_fn (cache_reference st) (cell_value cell)); cbn;
        rewrite ?Hcell; cbn; intros [= <- <- <-]; eauto.
  - destruct (cache_last st) as [[t0 v0]|]; cbn; rewrite ?Hcell; cbn;
      now intros [= <- <- <-].
Qed.

(** The state after a tick on which the value was modified, the fragment of
    the opcode being there. *)
Lemma UpdateOpcode_evaluate_modified
    (this : nat) (w w1 : World) (self : UpdateOpcode) (value : Insertion)
    (t1 : list Event) (b : Bounds) :
  w_opcodes w !! this = Some self ->
  ReferenceCache_revalidate (uo_cache self) w
    = (Normal (Modified value), w1, t1) ->
  w_fragments w1 !! uo_bounds self = Some b ->
  let updated := Upsert_update (uo_upsert self) value (w_tree w1) in
  let cleared := clear b (snd updated) in
  let cursor := mkCursor (Bounds_parentElement b) (fst cleared) in
  let inserted := variant_insert (uo_mode self) cursor value (snd cleared) in
  let u := if fst (fst updated) then snd (fst updated) else fst inserted in
  let tree := if fst (fst updated) then snd updated else snd inserted in
  let calls :=
    if fst (fst updated) then []
    else [EClear b; EInsert (uo_mode self) cursor value] in
  UpdateOpcode_evaluate this w =
  (Normal tt,
   set_fragments (<[uo_bounds self := Upsert_bounds u]> (w_fragments w1))
     (set_opcodes (alter (fun op => with_upsert op u) this (w_opcodes w1))
        (set_tree tree w1)),
   t1 ++ EUpdate (uo_upsert self) value :: calls ++
         [EFragmentUpdate (uo_bounds self) (Upsert_bounds u)]).
Proof.
  intros Hop Hre Hfr updated cleared cursor inserted u tree calls.
  unfold UpdateOpcode_evaluate.
  rewrite (bind_Normal _ _ _ _ _ _ (UpdateOpcode_at_Some _ _ _ Hop)).
  rewrite (bind_Normal _ _ _ _ _ _ Hre).
  subst calls tree u inserted cursor cleared updated.
  destruct w1. cbn in Hfr |- *.
  destruct (fst (fst (Upsert_update (uo_upsert self) value w_tree0))) eqn:Hup;
    vm_unfold; rewrite ?Hup; cbn; repeat (rewrite Hfr; cbn); reflexivity.
Qed.

(** X7: When [upsert.update] answers true on a modified value, the content is
    patched in place: nothing is cleared and nothing is inserted; the opcode
    keeps the upsert object in the state in which [update] left it, and its
    fragment is made to wrap the bounds of that upsert. *)
Theorem successful_update_patches_in_place
    (this : nat) (w w1 : World) (self : UpdateOpcode) (value : Insertion)
    (t1 : list Event) (b : Bounds) :
  w_opcodes w !! this = Some self ->
  ReferenceCache_revalidate (uo_cache self) w
    = (Normal (Modified value), w1, t1) ->
  fst (fst (Upsert_update (uo_upsert self) value (w_tree w1))) = true ->
  w_fragments w1 !! uo_bounds self = Some b ->
  let updated := Upsert_update (uo_upsert self) value (w_tree w1) in
  let u := snd (fst updated) in
  (let '(r, w', t) := UpdateOpcode_evaluate this w in
   r = Normal tt /\
   t = t1 ++ [EUpdate (uo_upsert self) value;
              EFragmentUpdate (uo_bounds self) (Upsert_bounds u)] /\
   w_tree w' = snd updated /\
   w_opcodes w' !! this = Some (with_upsert self u) /\
   w_fragments w' !! uo_bounds self = Some (Upsert_bounds u) /\
   length (w_fragments w') = length (w_fragments w)).
Proof.
  intros Hop Hre Hup Hfr updated u.
  rewrite (UpdateOpcode_evaluate_modified _ _ _ _ _ _ _ Hop Hre Hfr).
  pose proof (ReferenceCache_revalidate_frame _ _ _ _ _ Hre) as [Hw1 _].
  subst u updated. cbv zeta. rewrite Hup. cbn [app].
  assert (Hop1 : w_opcodes w1 !! this = Some self).
  { rewrite Hw1. destruct w; exact Hop. }
  assert (Hfrw : w_fragments w1 = w_fragments w).
  { rewrite Hw1. now destruct w. }
  split_and!; try reflexivity.
  - destruct w1; cbn in *. now rewrite list_lookup_alter_eq, Hop1.
  - destruct w1; cbn in *. apply list_lookup_insert_eq.
    now apply lookup_lt_Some in Hfr.
  - destruct w1; cbn in *. now rewrite length_insert, Hfrw.
Qed.

(** *** Consistency of the stores *)

Lemma consistent_grow (w w' : World) :
  w_caches w `prefix_of` w_caches w' ->
  w_fragments w `prefix_of` w_fragments w' ->
  w_opcodes w' = w_opcodes w ->
  consistent w -> consistent w'.
Proof.
  intros [lc Hc] [lf Hf] Ho [P C E]. split; rewrite Ho.
  - intros i op Hi. rewrite Hf. specialize (P i op Hi).
    rewrite lookup_app_l; [exact P|]. now apply lookup_lt_Some in P.
  - intros i op Hi. destruct (C i op Hi) as (st & tv & Hst & Hl & Ht).
    exists st, tv. split_and!; auto. rewrite Hc.
    rewrite lookup_app_l; [exact Hst|]. now apply lookup_lt_Some in Hst.
  - exact E.
Qed.

Lemma consistent_register (w w' : World) (st : ReferenceCache)
    (tv : nat * Insertion) (op : UpdateOpcode) :
  w_caches w' = w_caches w ++ [st] ->
  cache_last st = Some tv ->
  w_fragments w' = w_fragments w ++ [Upsert_bounds (uo_upsert op)] ->
  w_opcodes w' = w_opcodes w ++ [op] ->
  uo_cache op = length (w_caches w) ->
  uo_bounds op = length (w_fragments w) ->
  uo_tag op = ref_cell (map_inner (cache_reference st)) ->
  consistent w -> consistent w'.
Proof.
  intros Hc Hl Hf Ho Huc Hub Hut [P C E].
  assert (Hold : forall i o, w_opcodes w !! i = Some o ->
                             uo_bounds o < length (w_fragments w)).
  { intros i o Hi. apply P in Hi. now apply lookup_lt_Some in Hi. }
  assert (Hcases : forall i o, w_opcodes w' !! i = Some o ->
            w_opcodes w !! i = Some o \/ (i = length (w_opcodes w) /\ o = op)).
  { intros i o. rewrite Ho. intros Hi.
    apply lookup_snoc_Some in Hi as [[_ Hi]|[-> ->]]; auto. }
  split.
  - intros i o Hi. rewrite Hf. destruct (Hcases i o Hi) as [Hi'|[-> ->]].
    + rewrite lookup_app_l; eauto.
    + rewrite Hub. apply snoc_lookup_last.
  - intros i o Hi. rewrite Hc. destruct (Hcases i o Hi) as [Hi'|[-> ->]].
    + destruct (C i o Hi') as (st' & tv' & Hst & Hl' & Ht).
      exists st', tv'. split_and!; auto.
      rewrite lookup_app_l; [exact Hst|]. now apply lookup_lt_Some in Hst.
    + exists st, tv. split_and!; auto. rewrite Huc. apply snoc_lookup_last.
  - intros i j o o' Hi Hj Hb.
    destruct (Hcases i o Hi) as [Hi'|[-> ->]],
             (Hcases j o' Hj) as [Hj'|[-> ->]].
    + eauto.
    + apply Hold in Hi'. lia.
    + apply Hold in Hj'. lia.
    + reflexivity.
Qed.

Lemma consistent_after_revalidate (c : nat) (w w1 : World)
    (r : Outcome Validation) (t : list Event) :
  ReferenceCache_revalidate c w = (r, w1, t) ->
  consistent w -> consistent w1.
Proof.
  intros Hre Hw. apply ReferenceCache_revalidate_result in Hre.
  destruct r as [[|v]|e]; try (now subst).
  destruct Hre as (st & tg & Hst & ->). destruct Hw as [P C E].
  destruct w; cbn in *. split; cbn; auto.
  intros i op Hi. destruct (C i op Hi) as (st' & tv' & Hst' & Hl' & Ht).
  destruct (decide (uo_cache op = c)) as [Heq|Hne].
  - rewrite Heq in *. eexists _, _. split_and!.
    + apply list_lookup_insert_eq. now apply lookup_lt_Some in Hst.
    + reflexivity.
    + cbn. congruence.
  - exists st', tv'. split_and!; auto.
    now rewrite list_lookup_insert_ne.
Qed.

Lemma consistent_after_replace (this : nat) (w1 : World)
    (self : UpdateOpcode) (u : Upsert) (tree : Tree) :
  w_opcodes w1 !! this = Some self ->
  consistent w1 ->
  consistent
    (set_fragments (<[uo_bounds self := Upsert_bounds u]> (w_fragments w1))
       (set_opcodes (alter (fun op => with_upsert op u) this (w_opcodes w1))
          (set_tree tree w1))).
Proof.
  intros Hop [P C E]. destruct w1; cbn in *.
  assert (Hcases : forall i o,
            alter (fun op => with_upsert op u) this w_opcodes0 !! i = Some o ->
            (i = this /\ o = with_upsert self u) \/
            (i <> this /\ w_opcodes0 !! i = Some o)).
  { intros i o. destruct (decide (this = i)) as [->|Hne].
    - rewrite list_lookup_alter_eq, Hop. cbn. intros [= <-]. auto.
    - rewrite list_lookup_alter_ne; auto. }
  split; cbn.
  - intros i o Hi. destruct (Hcases i o Hi) as [[-> ->]|[Hne Hi']]; cbn.
    + apply list_lookup_insert_eq. apply P in Hop.
      now apply lookup_lt_Some in Hop.
    + rewrite list_lookup_insert_ne; [eauto|].
      intros Hb. apply Hne. symmetry. eapply E; eauto.
  - intros i o Hi. destruct (Hcases i o Hi) as [[-> ->]|[Hne Hi']]; cbn;
      eauto.
  - intros i j o o' Hi Hj.
    destruct (Hcases i o Hi) as [[-> ->]|[Hni Hi']],
             (Hcases j o' Hj) as [[-> ->]|[Hnj Hj']]; cbn; eauto.
Qed.

(** X8: A revalidation tick keeps the stores consistent, whatever happens in
    it: afterwards every updating opcode still has a fragment that wraps the
    bounds of its upsert, a cache that has been read and carries its tag, and
    a fragment of its own. *)
Theorem update_tick_keeps_consistency (this : nat) (w : World) :
  consistent w ->
  consistent (snd (fst (UpdateOpcode_evaluate this w))).
Proof.
  intros Hw. unfold UpdateOpcode_evaluate.
  destruct (w_opcodes w !! this) as [self|] eqn:Hop.
  - rewrite (bind_Normal _ _ _ _ _ _ (UpdateOpcode_at_Some _ _ _ Hop)).
    destruct (ReferenceCache_revalidate (uo_cache self) w)
      as [[[[|value]|e] w1] t1] eqn:Hre.
    + rewrite (bind_Normal _ _ _ _ _ _ Hre). cbn.
      eapply consistent_after_revalidate; eauto.
    + pose proof (consistent_after_revalidate _ _ _ _ _ Hre Hw) as Hw1.
      pose proof (ReferenceCache_revalidate_frame _ _ _ _ _ Hre) as [E1 _].
      assert (Hop1 : w_opcodes w1 !! this = Some self).
      { rewrite E1. destruct w; exact Hop. }
      pose proof (paired _ Hw1 _ _ Hop1) as Hfr.
      pose proof (UpdateOpcode_evaluate_modified _ _ _ _ _ _ _ Hop Hre Hfr)
        as Hev.
      unfold UpdateOpcode_evaluate in Hev.
      rewrite (bind_Normal _ _ _ _ _ _ (UpdateOpcode_at_Some _ _ _ Hop)) in Hev.
      rewrite Hev. cbn. now apply consistent_after_replace.
    + rewrite (bind_Thrown _ _ _ _ _ _ Hre). cbn.
      eapply consistent_after_revalidate; eauto.
  - now rewrite (bind_Thrown _ _ _ _ _ _ (UpdateOpcode_at_None _ _ Hop)).
Qed.


Lemma prefix_snoc {A : Type} (l : list A) (x : A) : l `prefix_of` l ++ [x].
Proof. now exists [x]. Qed.

(** X10: The append opcode keeps the stores consistent, whatever happens in it;
    and they are consistent as long as no updating opcode exists.  With the
    same fact for the revalidation tick, this makes consistency hold in every
    state reached by running the two opcodes from the start of a render. *)
Theorem append_keeps_consistency (this : Mode) (w : World) :
  (w_opcodes w = [] -> consistent w) /\
  (consistent w ->
   consistent (snd (fst (AppendDynamicOpcode_evaluate this w)))).
Proof.
  split.
  - intros E. split; rewrite E; intros *; now rewrite lookup_nil.
  - intros Hw.
    destruct w as [stack refs caches frags tree cur blocks ops upd g env fr tpl].
    destruct stack as [|[c cell0] rest]; [exact Hw|].
    destruct (refs !! cell0) as [cell|] eqn:Hcell.
    + destruct c, this.
      all: match goal with
           | |- context [AppendDynamicOpcode_evaluate Cautious] =>
               destruct (normalizeValue (cell_value cell)) as [v|e] eqn:Hv
           | |- context [AppendDynamicOpcode_evaluate Trusting] =>
               destruct (normalizeTrustedValue (cell_value cell))
                 as [v|e] eqn:Hv
           end.
      all: vm_unfold;
        repeat (progress (cbn; rewrite ?snoc_lookup_last, ?snoc_insert_last,
                               ?Hcell, ?Hv)).
      all: first
        [ match goal with
          | |- context [set_opcodes (_ ++ [?op])] =>
              eapply (consistent_register _ _ _ _ op); [..|exact Hw]; cbn;
              reflexivity
          end
        | eapply consistent_grow; [..|exact Hw]; cbn;
          first [reflexivity | apply prefix_snoc] ].
    + destruct c, this; vm_unfold;
        repeat (progress (cbn; rewrite ?snoc_lookup_last, ?snoc_insert_last,
                               ?Hcell));
        (eapply consistent_grow; [..|exact Hw]; cbn;
         first [reflexivity | apply prefix_snoc]).
Qed.

(** *** The two opcodes, one after the other *)

Lemma UpdateOpcode_evaluate_unchanged (this : nat) (w : World)
    (self : UpdateOpcode) (st : ReferenceCache) (last : Insertion)
    (cell : RefCell) :
  w_opcodes w !! this = Some self ->
  w_caches w !! uo_cache self = Some st ->
  cache_last st = Some (cell_tag cell, last) ->
  w_refs w !! ref_cell (map_inner (cache_reference st)) = Some cell ->
  UpdateOpcode_evaluate this w = (Normal tt, w, [ERevalidate (uo_cache self)]).
Proof.
  intros Hop Hc Hl Hr. unfold UpdateOpcode_evaluate.
  rewrite (bind_Normal _ _ _ _ _ _ (UpdateOpcode_at_Some _ _ _ Hop)).
  now rewrite (bind_Normal _ _ _ _ _ _
                 (ReferenceCache_revalidate_unchanged _ _ _ _ _ Hc Hl Hr)).
Qed.

(** The state in which the append opcode leaves a non-constant reference
    whose normalized value can be read. *)
Lemma AppendDynamicOpcode_evaluate_state
    (this : Mode) (w : World) (reference : Reference)
    (rest : list Reference) (cell : RefCell) (value : Insertion) :
  w_stack w = reference :: rest ->
  isConst reference = false ->
  w_refs w !! ref_cell reference = Some cell ->
  map_fn (normalize this reference) (cell_value cell) = Normal value ->
  let inserted := variant_insert this (w_cursor w) value (w_tree w) in
  snd (fst (AppendDynamicOpcode_evaluate this w)) =
  {| w_stack := rest;
     w_refs := w_refs w;
     w_caches := w_caches w ++
                 [{| cache_reference := normalize this reference;
                     cache_last := Some (cell_tag cell, value) |}];
     w_fragments := w_fragments w ++ [Upsert_bounds (fst inserted)];
     w_tree := snd inserted;
     w_cursor := w_cursor w;
     w_blocks := w_blocks w ++ [length (w_fragments w)];
     w_opcodes := w_opcodes w ++
                  [{| uo_mode := this; uo_guid := w_guid w;
                      uo_tag := ref_cell reference;
                      uo_cache := length (w_caches w);
                      uo_bounds := length (w_fragments w);
                      uo_upsert := fst inserted |}];
     w_updating := w_updating w ++ [length (w_opcodes w)];
     w_guid := S (w_guid w);
     w_env := w_env w;
     w_frames := w_frames w;
     w_templates := w_templates w |}.
Proof.
  intros Hs Hc Hcell Hv.
  destruct w as [stack refs caches frags tree cur blocks ops upd g env fr tpl].
  destruct reference as [c cell0]. cbn in Hs, Hc, Hcell. subst stack c.
  destruct this; cbn in Hv; vm_unfold;
    rewrite snoc_lookup_last; cbn; rewrite Hcell; cbn; rewrite Hv; cbn;
    rewrite Hcell; cbn; rewrite snoc_insert_last, snoc_lookup_last; cbn;
    reflexivity.
Qed.

(** X11: After the append opcode has rendered a non-constant reference, any
    number of revalidation ticks of the opcode it registered, with the
    reference left as it was, change nothing: the state stays the one the
    append opcode produced. *)
Theorem ticks_after_append_change_nothing
    (this : Mode) (w : World) (reference : Reference)
    (rest : list Reference) (cell : RefCell) (value : Insertion) (n : nat) :
  w_stack w = reference :: rest ->
  isConst reference = false ->
  w_refs w !! ref_cell reference = Some cell ->
  map_fn (normalize this reference) (cell_value cell) = Normal value ->
  let w' := snd (fst (AppendDynamicOpcode_evaluate this w)) in
  ticks n (length (w_opcodes w)) w'
  = (Normal tt, w', repeat (ERevalidate (length (w_caches w))) n).
Proof.
  intros Hs Hc Hcell Hv w'. subst w'.
  rewrite (AppendDynamicOpcode_evaluate_state _ _ _ _ _ _ Hs Hc Hcell Hv).
  match goal with |- ticks _ _ ?w1 = _ => set (w1' := w1) end.
  assert (Hev : UpdateOpcode_evaluate (length (w_opcodes w)) w1'
                = (Normal tt, w1', [ERevalidate (length (w_caches w))])).
  { apply (UpdateOpcode_evaluate_unchanged (length (w_opcodes w)) w1'
             {| uo_mode := this; uo_guid := w_guid w;
                uo_tag := ref_cell reference;
                uo_cache := length (w_caches w);
                uo_bounds := length (w_fragments w);
                uo_upsert := fst (variant_insert this (w_cursor w) value
                                                 (w_tree w)) |}
             {| cache_reference := normalize this reference;
                cache_last := Some (cell_tag cell, value) |}
             value cell).
    - apply snoc_lookup_last.
    - cbn. apply snoc_lookup_last.
    - reflexivity.
    - cbn. now destruct this. }
  induction n as [|n IH]; [reflexivity|].
  cbn [ticks]. now rewrite (bind_Normal _ _ _ _ _ _ Hev), IH.
Qed.

(** X12: After the append opcode has rendered a non-constant reference, a change
    of the referenced value (a new tag) makes the next tick of the opcode it
    registered recompute the normalized value and call [update] with it on
    the upsert that [insert] had returned; if [update] answers false, the
    rendered bounds are cleared and the new value is inserted with the
    [insert] of the same variant as the append opcode.  In both cases the
    fragment that was handed to the render range wraps the bounds of the
    opcode's upsert afterwards, and the cache holds the new tag and value. *)
Theorem change_after_append_reaches_update
    (this : Mode) (w : World) (reference : Reference)
    (rest : list Reference) (cell : RefCell) (value : Insertion)
    (refs2 : list RefCell) (cell2 : RefCell) (value2 : Insertion) :
  w_stack w = reference :: rest ->
  isConst reference = false ->
  w_refs w !! ref_cell reference = Some cell ->
  map_fn (normalize this reference) (cell_value cell) = Normal value ->
  refs2 !! ref_cell reference = Some cell2 ->
  cell_tag cell2 <> cell_tag cell ->
  map_fn (normalize this reference) (cell_value cell2) = Normal value2 ->
  let inserted := variant_insert this (w_cursor w) value (w_tree w) in
  let c := length (w_caches w) in
  let f := length (w_fragments w) in
  let o := length (w_opcodes w) in
  let b := Upsert_bounds (fst inserted) in
  let updated := Upsert_update (fst inserted) value2 (snd inserted) in
  let cleared := clear b (snd updated) in
  let cursor := mkCursor (Bounds_parentElement b) (fst cleared) in
  let reinserted := variant_insert this cursor value2 (snd cleared) in
  let u := if fst (fst updated) then snd (fst updated) else fst reinserted in
  let w' := with_refs refs2 (snd (fst (AppendDynamicOpcode_evaluate this w))) in
  (let '(r, w'', t) := UpdateOpcode_evaluate o w' in
   r = Normal tt /\
   t = [ERevalidate c; EValue (ref_cell reference);
        EUpdate (fst inserted) value2] ++
       (if fst (fst updated) then []
        else [EClear b; EInsert this cursor value2]) ++
       [EFragmentUpdate f (Upsert_bounds u)] /\
   w_tree w'' = (if fst (fst updated) then snd updated else snd reinserted) /\
   w_fragments w'' !! f = Some (Upsert_bounds u) /\
   w_blocks w'' = w_blocks w ++ [f] /\
   (uo_upsert <$> w_opcodes w'' !! o) = Some u /\
   (cache_last <$> w_caches w'' !! c) = Some (Some (cell_tag cell2, value2))).
Proof.
  intros Hs Hc Hcell Hv Hcell2 Htag Hv2
         inserted c f o b updated cleared cursor reinserted u w'.
  subst w'.
  rewrite (AppendDynamicOpcode_evaluate_state _ _ _ _ _ _ Hs Hc Hcell Hv).
  fold inserted. unfold with_refs. cbn [w_stack w_caches w_fragments w_tree
    w_cursor w_blocks w_opcodes w_updating w_guid w_env w_frames w_templates].
  match goal with |- context [UpdateOpcode_evaluate _ ?w1] => set (w1' := w1) end.
  set (self := {| uo_mode := this; uo_guid := w_guid w;
                  uo_tag := ref_cell reference; uo_cache := c;
                  uo_bounds := f; uo_upsert := fst inserted |}).
  assert (Hop : w_opcodes w1' !! o = Some self) by apply snoc_lookup_last.
  set (w2 := set_caches
               (<[c := mkReferenceCache (normalize this reference)
                         (Some (cell_tag cell2, value2))]> (w_caches w1')) w1').
  assert (Hre : ReferenceCache_revalidate (uo_cache self) w1'
                = (Normal (Modified value2), w2,
                   [ERevalidate c; EValue (ref_cell reference)])).
  { subst w2 w1' self. unfold c. cbn [uo_cache]. vm_unfold.
    rewrite snoc_lookup_last. cbn.
    assert (Hr : ref_cell (map_inner (normalize this reference))
                 = ref_cell reference) by now destruct this.
    rewrite Hr, Hcell2. cbn.
    rewrite decide_False by exact Htag. cbn.
    rewrite Hcell2. cbn. rewrite Hv2. cbn. rewrite Hcell2. cbn.
    reflexivity. }
  assert (Hfr : w_fragments w2 !! uo_bounds self = Some b)
    by apply snoc_lookup_last.
  rewrite (UpdateOpcode_evaluate_modified _ _ _ _ _ _ _ Hop Hre Hfr).
  cbn [uo_upsert uo_mode uo_bounds self w_tree w2 w1' set_caches].
  fold updated. fold cleared. fold cursor. fold reinserted. fold u.
  split_and!; try reflexivity.
  - cbn. apply list_lookup_insert_eq. rewrite length_app. cbn. lia.
  - cbn. rewrite list_lookup_alter_eq.
    unfold o. now rewrite snoc_lookup_last.
  - cbn. rewrite list_lookup_insert_eq; [reflexivity|].
    rewrite length_app. cbn. lia.
Qed.

End ContentMore.

(** ** Insertion normalisation *)

Section NormalizeMore.
Import Normalize.

(** X1: What either function returns is an insertion of its mode, and never an
    empty value: the cautious result is a string, a marked value or a node;
    the trusting result is a string or a node, and never a marked value. *)
Theorem normalized_insertion_kinds (value : Opaque) (i : Insertion) :
  (normalizeValue value = Normal i ->
   isEmpty i = Normal false /\
   (isString i = true \/ isSafeString i = true \/ isNode i = true)) /\
  (normalizeTrustedValue value = Normal i ->
   isEmpty i = Normal false /\
   isSafeString i = false /\
   (isString i = true \/ isNode i = true)).
Proof.
  unfold normalizeValue, normalizeTrustedValue. split.
  - destruct (isEmpty value) as [[]|] eqn:Ee;
      [intros [= <-]; cbn; auto| |discriminate].
    destruct (isString value) eqn:Es; [intros [= <-]; auto|].
    destruct (isSafeString value) eqn:Ess; cbn.
    + intros [= <-]. auto.
    + destruct (isNode value) eqn:En; [intros [= <-]; auto|].
      destruct (String_ value); cbn; [intros [= <-]; cbn; auto|discriminate].
  - destruct (isEmpty value) as [[]|] eqn:Ee;
      [intros [= <-]; cbn; auto| |discriminate].
    destruct (isString value) eqn:Es.
    + intros [= <-]. destruct value; cbn in *; try discriminate. auto.
    + destruct (isSafeString value) eqn:Ess.
      * destruct (toHTML value); cbn; [intros [= <-]; cbn; auto|discriminate].
      * destruct (isNode value) eqn:En; [intros [= <-]; auto|].
        destruct (String_ value); cbn; [intros [= <-]; cbn; auto|discriminate].
Qed.

Lemma normalized_insertion_kinds_witness :
  (isEmpty safe_bold = Normal false /\
   (isString safe_bold = true \/ isSafeString safe_bold = true \/
    isNode safe_bold = true)) /\
  (isEmpty (Str "<b>x</b>") = Normal false /\
   isSafeString (Str "<b>x</b>") = false /\
   (isString (Str "<b>x</b>") = true \/ isNode (Str "<b>x</b>") = true)).
Proof.
  split.
  - apply (proj1 (normalized_insertion_kinds safe_bold safe_bold)).
    reflexivity.
  - apply (proj2 (normalized_insertion_kinds safe_bold (Str "<b>x</b>"))).
    reflexivity.
Defined.

(** X2: Normalising what a normalisation returned changes nothing: either
    function gives back an insertion it produced, and the cautious function
    gives back an insertion the trusting one produced. *)
Theorem normalization_idempotent (value : Opaque) (i : Insertion) :
  (normalizeValue value = Normal i -> normalizeValue i = Normal i) /\
  (normalizeTrustedValue value = Normal i ->
   normalizeTrustedValue i = Normal i /\ normalizeValue i = Normal i).
Proof.
  unfold normalizeValue at 1, normalizeTrustedValue at 1. split.
  - destruct (isEmpty value) as [[]|] eqn:Ee;
      [now intros [= <-]| |discriminate].
    destruct (isString value) eqn:Es.
    + intros [= <-]. destruct value; try discriminate. reflexivity.
    + destruct (isSafeString value || isNode value) eqn:Esn.
      * intros [= <-]. unfold normalizeValue. now rewrite Ee, Es, Esn.
      * destruct (String_ value); cbn; [now intros [= <-]|discriminate].
  - destruct (isEmpty value) as [[]|] eqn:Ee;
      [now intros [= <-]| |discriminate].
    destruct (isString value) eqn:Es.
    + intros [= <-]. destruct value; try discriminate. now split.
    + destruct (isSafeString value) eqn:Ess.
      * destruct (toHTML value); cbn; [now intros [= <-]|discriminate].
      * destruct (isNode value) eqn:En.
        -- intros [= <-]. unfold normalizeValue, normalizeTrustedValue.
           now rewrite Ee, Es, Ess, En.
        -- destruct (String_ value); cbn; [now intros [= <-]|discriminate].
Qed.

Lemma normalization_idempotent_witness :
  normalizeValue safe_bold = Normal safe_bold /\
  (normalizeTrustedValue a_node = Normal a_node /\
   normalizeValue a_node = Normal a_node).
Proof.
  split.
  - apply (proj1 (normalization_idempotent safe_bold safe_bold)). reflexivity.
  - apply (proj2 (normalization_idempotent a_node a_node)). reflexivity.
Defined.

(** X3: On a value that is neither marked safe nor a node, both insertion
    normalisations return, as a string insertion, exactly the text that
    [normalizeTextValue] returns, and raise what it raises. *)
Theorem text_normalization_agrees (value : Opaque) :
  isSafeString value = false ->
  isNode value = false ->
  normalizeValue value = omap' Str (normalizeTextValue value) /\
  normalizeTrustedValue value = omap' Str (normalizeTextValue value).
Proof.
  intros Ess En.
  unfold normalizeValue, normalizeTrustedValue, normalizeTextValue.
  rewrite Ess, En. cbn.
  destruct (isEmpty value) as [[]|] eqn:Ee; [now split| |now split].
  destruct value as [| |s|f]; try discriminate; cbn; now split.
Qed.

Lemma text_normalization_agrees_witness :
  isSafeString five = false /\
  isNode five = false /\
  normalizeValue five = Normal (Str "5") /\
  normalizeTrustedValue throwing_toString = Thrown "boom".
Proof.
  destruct (text_normalization_agrees five eq_refl eq_refl) as (A & _).
  destruct (text_normalization_agrees throwing_toString eq_refl eq_refl)
    as (_ & B).
  split_and!; [reflexivity|reflexivity|rewrite A|rewrite B]; reflexivity.
Defined.

End NormalizeMore.

(** ** The HTMLBars object model *)

Section HObjectMore.
Import HObject HObjectRel HSamples.
Local Open Scope list_scope.

Lemma keeps_name_refl (name : string) (h : Heap) : keeps_name name h h.
Proof. intros i o Hi. eauto. Qed.

Lemma keeps_name_trans (name : string) (h1 h2 h3 : Heap) :
  keeps_name name h1 h2 -> keeps_name name h2 h3 -> keeps_name name h1 h3.
Proof.
  intros K1 K2 i o Hi.
  destruct (K1 i o Hi) as (o2 & H2 & P2 & N2).
  destruct (K2 i o2 H2) as (o3 & H3 & P3 & N3).
  exists o3. split_and!; congruence.
Qed.

Lemma keeps_name_length (name : string) (h h' : Heap) :
  keeps_name name h h' -> length (objs h) <= length (objs h').
Proof.
  intros K. destruct (decide (length (objs h) <= length (objs h')));
    [assumption|].
  assert (Hlt : length (objs h') < length (objs h)) by lia.
  apply lookup_lt_is_Some_2 in Hlt as [o Ho].
  destruct (K _ _ Ho) as (o' & Ho' & _).
  apply lookup_lt_Some in Ho'. lia.
Qed.

Lemma keeps_name_own (name : string) (h h' : Heap) (i : nat) :
  keeps_name name h h' ->
  i < length (objs h) ->
  getOwnPropertyDescriptor h' i name = getOwnPropertyDescriptor h i name /\
  getPrototypeOf h' i = getPrototypeOf h i.
Proof.
  intros K Hlt. apply lookup_lt_is_Some_2 in Hlt as [o Ho].
  destruct (K _ _ Ho) as (o' & Ho' & P & N).
  unfold getOwnPropertyDescriptor, getPrototypeOf. now rewrite Ho, Ho'.
Qed.

Lemma walk_chain_None (n : nat) (h : Heap) (name : string) :
  walk_chain n h None name = None.
Proof. now destruct n. Qed.

(** A property found along a prototype chain is found again, with more
    rounds to spare, in every heap that keeps the name. *)
Lemma walk_chain_stable (name : string) (h h' : Heap) :
  keeps_name name h h' ->
  forall n m p pd,
    walk_chain n h p name = Some pd ->
    n <= m ->
    walk_chain m h' p name = Some pd.
Proof.
  intros K. induction n as [|n IH]; intros m p pd; [discriminate|].
  destruct m as [|m]; [lia|]. intros Hw Hle. cbn in Hw |- *.
  destruct p as [q|]; [|discriminate].
  destruct (objs h !! q) as [o|] eqn:Hq.
  - assert (Hlt : q < length (objs h)) by now apply lookup_lt_Some in Hq.
    destruct (keeps_name_own _ _ _ _ K Hlt) as [-> ->].
    destruct (getOwnPropertyDescriptor h q name); [exact Hw|].
    apply IH; [exact Hw|lia].
  - unfold getOwnPropertyDescriptor, getPrototypeOf in Hw.
    rewrite Hq in Hw. now rewrite walk_chain_None in Hw.
Qed.

Lemma getPropertyDescriptor_stable (name : string) (h h' : Heap) (o : nat)
    (pd : Property) :
  keeps_name name h h' ->
  getPropertyDescriptor h o name = Some pd ->
  getPropertyDescriptor h' o name = Some pd.
Proof.
  intros K Hg.
  pose proof (getPropertyDescriptor_exists _ _ _ _ Hg) as Hlt.
  unfold getPropertyDescriptor in *.
  destruct (keeps_name_own _ _ _ _ K Hlt) as [-> ->].
  destruct (getOwnPropertyDescriptor h o name); [exact Hg|].
  eapply walk_chain_stable; eauto using keeps_name_length.
Qed.

Lemma keeps_name_defineProperty (name name' : string) (subject : nat)
    (pd : Property) (h : Heap) :
  name <> name' ->
  keeps_name name h (defineProperty subject name' pd h).
Proof.
  intros Hne i o Hi. unfold defineProperty. cbn.
  destruct (decide (subject = i)) as [->|Hsi].
  - rewrite list_lookup_alter_eq, Hi. cbn. eexists. split_and!; eauto.
    cbn. now rewrite lookup_insert_ne.
  - rewrite list_lookup_alter_ne; eauto.
Qed.

Lemma keeps_name_funs (name : string) (h : Heap) (l : list Fun) :
  keeps_name name h (mkHeap (objs h) l).
Proof. intros i o Hi. eauto. Qed.

Lemma keeps_name_alloc_obj (name : string) (h : Heap) (o : Obj) :
  keeps_name name h (snd (alloc_obj o h)).
Proof.
  intros i x Hi. cbn. exists x. split_and!; auto.
  rewrite lookup_app_l; [exact Hi|]. now apply lookup_lt_Some in Hi.
Qed.

(** *** What [mergeProperties] does to the heap *)

Lemma elsewhere_trans (proto : nat) (h1 h2 h3 : Heap) :
  elsewhere proto h1 h2 -> elsewhere proto h2 h3 -> elsewhere proto h1 h3.
Proof.
  intros [O1 F1] [O2 F2]. split; [|etrans; eassumption].
  intros i Hi Hne. rewrite <- (O1 i Hi Hne). apply O2; [|exact Hne].
  pose proof (O1 i Hi Hne) as E.
  apply lookup_lt_is_Some_2 in Hi as [o Ho]. rewrite Ho in E.
  now apply lookup_lt_Some in E.
Qed.

(** An instance of [Computed] follows the protocol of [Computed], and
    goes on doing so whatever is written to a prototype other than itself
    and than [Computed.prototype]. *)
Lemma Computed_instance_protocol (proto : nat) (h : Heap) (cp o : nat) :
  Computed_instance h cp o ->
  o <> proto -> cp <> proto ->
  forall h', elsewhere proto h h' -> Computed_protocol h' o.
Proof.
  intros [Hp [cb Hcb] Hod Hob [d [Hd Hfd]] [b [Hb Hfb]]] Hno Hnc.
  intros h' [Ho Hf].
  pose proof (getOwn_exists _ _ _ _ Hcb) as Hlo.
  pose proof (getOwn_exists _ _ _ _ Hd) as Hlc.
  assert (Eo : objs h' !! o = objs h !! o) by now apply Ho.
  assert (Ec : objs h' !! cp = objs h !! cp) by now apply Ho.
  assert (Hlen : 0 < length (objs h')).
  { apply lookup_lt_is_Some_2 in Hlo as [x Hx]. rewrite <- Eo in Hx.
    apply lookup_lt_Some in Hx. lia. }
  assert (Hinh : forall name pd,
             getOwnPropertyDescriptor h o name = None ->
             getOwnPropertyDescriptor h cp name = Some pd ->
             getPropertyDescriptor h' o name = Some pd).
  { intros name pd Hown Hcp.
    unfold getPropertyDescriptor, getOwnPropertyDescriptor, getPrototypeOf in *.
    rewrite Eo. destruct (objs h !! o) as [x|]; [|discriminate].
    rewrite Hown, Hp. destruct (length (objs h')) as [|n]; [lia|]. cbn.
    unfold getOwnPropertyDescriptor. rewrite Ec.
    destruct (objs h !! cp) as [y|]; [|discriminate]. now rewrite Hcp. }
  split.
  - exists d. split; [now apply Hinh|]. eapply prefix_lookup_Some; eauto.
  - exists b. split; [now apply Hinh|]. eapply prefix_lookup_Some; eauto.
  - exists cb. apply getPropertyDescriptor_own.
    unfold getOwnPropertyDescriptor in *. now rewrite Eo.
Qed.

Lemma Computed_instance_tame (proto : nat) (h : Heap) (cp o : nat) :
  Computed_instance h cp o ->
  o <> proto -> cp <> proto ->
  tame proto h (VObj o).
Proof.
  intros CI Hno Hnc o' [= <-]. right.
  now apply (Computed_instance_protocol proto h cp o).
Qed.

(** What is not an object is tame. *)
Lemma tame_not_object (proto : nat) (h : Heap) (value : Value) :
  (forall o, value <> VObj o) -> tame proto h value.
Proof. intros Hn o ->. now destruct (Hn o). Qed.

(** One round of [mergeProperties] on a tame value: either it raises and
    the heap is as before, or the value is installed on [proto] under [key]
    in a heap that differs from the one before by newly created functions
    only. *)
Lemma mergeProperty_shape (depth : nat) (superProto proto : nat)
    (key : string) (value : Value) (h0 h : Heap) (builder : MetaBuilder) :
  elsewhere proto h0 h ->
  tame proto h0 value ->
  (exists e,
     mergeProperty depth superProto proto key value h builder
     = (Thrown e, h, builder)) \/
  (exists pd l builder',
     mergeProperty depth superProto proto key value h builder
     = (Normal tt,
        defineProperty proto key pd (mkHeap (objs h) (funs h ++ l)),
        builder') /\
     (plain value = true -> pd = DataProp value)).
Proof.
  intros Hel Htame.
  assert (Hsame : h = mkHeap (objs h) (funs h ++ [])).
  { rewrite app_nil_r. now destruct h. }
  destruct value as [| |b|n|s|f|o].
  1,3,4,5: right; eexists _, [], builder; rewrite <- Hsame;
    split; [reflexivity|intros _; reflexivity].
  - left. now exists TypeError.
  - right. rewrite mergeProperty_function. unfold wrapMethod.
    destruct (has_property h superProto key); cbn.
    + eexists _, [_], builder. split; [reflexivity|discriminate].
    + eexists _, [], builder. rewrite <- Hsame.
      split; [reflexivity|discriminate].
  - destruct (has_property h o DESCRIPTOR) eqn:Hhas.
    + destruct (Htame o eq_refl) as [Hno|Hcp];
        [rewrite (Hno h Hel) in Hhas; discriminate|].
      destruct depth as [|n].
      * left. exists RangeError.
        apply mergeProperty_computed_overflow; auto.
      * destruct (Hcp h Hel) as [_ _ [cb Hcb]].
        rewrite (mergeProperty_computed n superProto proto key o h builder cb
                   Hhas Hcb);
          [|intros h' Hel'; apply Hcp; eapply elsewhere_trans; eauto].
        unfold wrapAccessor.
        destruct (getPropertyDescriptor h superProto key) as [[v|g]|];
          cbn [fst snd].
        -- destruct cb; cbn [Object_defineProperty]; first
             [ left; now eexists
             | right; eexists _, [], _; rewrite <- Hsame;
               split; [reflexivity|discriminate] ].
        -- right. eexists _, [_], _. cbn [Object_defineProperty alloc_fun].
           split; [reflexivity|discriminate].
        -- destruct cb; cbn [Object_defineProperty]; first
             [ left; now eexists
             | right; eexists _, [], _; rewrite <- Hsame;
               split; [reflexivity|discriminate] ].
    + right. unfold mergeProperty. rewrite Hhas.
      eexists _, [], builder. rewrite <- Hsame.
      split; [reflexivity|discriminate].
Qed.

Lemma getPrototypeOf_defineProperty (subject i : nat) (name : string)
    (pd : Property) (h : Heap) :
  getPrototypeOf (defineProperty subject name pd h) i = getPrototypeOf h i.
Proof.
  unfold getPrototypeOf, defineProperty. cbn.
  destruct (decide (subject = i)) as [->|Hne].
  - rewrite list_lookup_alter_eq. now destruct (objs h !! i).
  - now rewrite list_lookup_alter_ne.
Qed.

(** What [mergeProperties] does with tame extensions: it creates and
    removes no object, touches no object but [proto], keeps the prototype of
    [proto] and every property whose name is not among the keys, only adds
    functions, raises if a value is null, and if it does not raise leaves
    every key as an own property of [proto]. *)
Lemma mergeProperties_heap (depth : nat) (superProto proto : nat)
    (exts : list (string * Value)) (h0 : Heap) :
  (forall key value, (key, value) ∈ exts -> tame proto h0 value) ->
  forall (h : Heap) (builder : MetaBuilder),
    elsewhere proto h0 h ->
    let '(r, h', _) :=
      mergeProperties depth superProto proto exts h builder in
    length (objs h') = length (objs h) /\
    (forall o, o <> proto -> objs h' !! o = objs h !! o) /\
    funs h `prefix_of` funs h' /\
    getPrototypeOf h' proto = getPrototypeOf h proto /\
    (forall name, name ∉ keys exts -> keeps_name name h h') /\
    (VNull ∈ exts.*2 -> exists e, r = Thrown e) /\
    (r = Normal tt -> NoDup (keys exts) -> proto < length (objs h) ->
     forall key value,
       (key, value) ∈ exts ->
       is_Some (getOwnPropertyDescriptor h' proto key) /\
       (plain value = true ->
        getOwnPropertyDescriptor h' proto key = Some (DataProp value))).
Proof.
  induction exts as [|[key value] rest IH]; intros Htame h builder Hel.
  - cbn. split_and!; auto using keeps_name_refl.
    + intros Hin. now apply elem_of_nil in Hin.
    + intros _ _ _ key value Hin. now apply elem_of_nil in Hin.
  - cbn [mergeProperties].
    destruct (decide (value = VNull)) as [->|Hnn].
    { cbn. split_and!; auto using keeps_name_refl; [eauto|discriminate]. }
    destruct (mergeProperty_shape depth superProto proto key value h0 h
                builder Hel (Htame key value ltac:(left)))
      as [[e ->]|(pd & l & builder' & -> & Hplain)].
    + split_and!; auto using keeps_name_refl; [eauto|discriminate].
    + set (h1 := defineProperty proto key pd (mkHeap (objs h) (funs h ++ l))).
      assert (Hel1 : elsewhere proto h0 h1) by now apply elsewhere_step.
      specialize (IH (fun k v Hin => Htame k v ltac:(now right)) h1 builder'
                     Hel1).
      destruct (mergeProperties depth superProto proto rest h1 builder')
        as [[r h'] b'].
      destruct IH as (Hlen & Hoth & Hfun & Hpro & Hkeep & Hr & Hinst).
      assert (Hlen1 : length (objs h1) = length (objs h)).
      { unfold h1. now rewrite objs_defineProperty. }
      split_and!.
      * congruence.
      * intros o Ho. rewrite Hoth by exact Ho. unfold h1.
        unfold defineProperty. cbn. now rewrite list_lookup_alter_ne.
      * etrans; [|exact Hfun]. unfold h1. cbn. now exists l.
      * rewrite Hpro. unfold h1. now rewrite getPrototypeOf_defineProperty.
      * intros name Hname. cbn in Hname.
        apply not_elem_of_cons in Hname as [Hne Hname].
        eapply keeps_name_trans; [|apply Hkeep, Hname].
        eapply keeps_name_trans; [apply (keeps_name_funs _ _ (funs h ++ l))|].
        now apply keeps_name_defineProperty.
      * change (((key, value) :: rest).*2) with (value :: rest.*2).
        intros Hin. apply elem_of_cons in Hin as [<-|Hin]; [|now apply Hr].
        congruence.
      * intros Hn Hnd Hlt k v Hin. cbn in Hnd.
        apply NoDup_cons in Hnd as [Hk Hnd].
        apply elem_of_cons in Hin as [[= -> ->]|Hin].
        -- assert (Hown : getOwnPropertyDescriptor h1 proto key = Some pd).
           { unfold h1. now apply getOwn_defineProperty. }
           destruct (keeps_name_own _ _ _ proto (Hkeep key Hk)) as [Ho _];
             [lia|].
           rewrite Ho, Hown. split; [eauto|]. intros Hp. now rewrite Hplain.
        -- apply Hinst; auto. lia.
Qed.

(** Extensions none of whose values is an object: they are merged by the
    library alone, and the first null among them raises a TypeError. *)
Lemma mergeProperties_null (depth : nat) (superProto proto : nat)
    (exts : list (string * Value)) :
  (forall key o, (key, VObj o) ∉ exts) ->
  VNull ∈ exts.*2 ->
  forall (h : Heap) (builder : MetaBuilder),
    fst (fst (mergeProperties depth superProto proto exts h builder))
    = Thrown TypeError.
Proof.
  induction exts as [|[key value] rest IH]; intros Hno Hin h builder.
  - now apply elem_of_nil in Hin.
  - cbn [mergeProperties].
    change (((key, value) :: rest).*2) with (value :: rest.*2) in Hin.
    assert (Hrest : forall k o, (k, VObj o) ∉ rest).
    { intros k o Hk. apply (Hno k o). now right. }
    destruct value as [| |b|n|s|f|o].
    2: reflexivity.
    6: destruct (Hno key o); now left.
    all: apply elem_of_cons in Hin as [Hin|Hin]; [discriminate|].
    1-4: cbn; now apply IH.
    rewrite mergeProperty_function. now apply IH.
Qed.

(** [class extends Super {}] adds one function and one object. *)
Lemma class_extends_unfold (Super_prototype : nat) (h : Heap) :
  class_extends Super_prototype h =
  (length (objs h),
   mkHeap (objs h ++ [mkObj (Some Super_prototype)
                            (<["constructor" :=
                                 DataProp (VFun (length (funs h)))]> ∅)])
          (funs h ++ [ClassConstructor (length (objs h))])).
Proof. reflexivity. Qed.

(** [extend], unfolded to the call of [mergeProperties] it makes. *)
Lemma extend_unfold (depth : nat) (Parent : Class)
    (exts : list (string * Value)) (h : Heap) :
  let p := length (objs h) in
  let h1 := snd (class_extends (prototype Parent) h) in
  extend depth Parent exts h =
  match mergeProperties depth (prototype Parent) p exts h1 (_Meta Parent) with
  | (Normal _, h2, builder') => (Normal (mkClass p builder'), h2)
  | (Thrown e, h2, _) => (Thrown e, h2)
  end.
Proof. reflexivity. Qed.

Lemma elsewhere_class_extends (Super_prototype : nat) (h : Heap) :
  elsewhere (length (objs h)) h (snd (class_extends Super_prototype h)).
Proof.
  rewrite class_extends_unfold. split; cbn.
  - intros i Hi _. now apply lookup_app_l.
  - now apply prefix_app_r.
Qed.

(** X13: [extend] never touches what was there: for tame extensions and
    whatever the outcome, it adds exactly one object, the new prototype,
    whose prototype is the prototype of the parent class; every object that
    existed, the parent's prototype included, is as it was, and functions
    are only added. *)
Theorem extend_leaves_existing_objects
    (depth : nat) (Parent : Class) (exts : list (string * Value))
    (h : Heap) :
  (forall key value, (key, value) ∈ exts -> tame (length (objs h)) h value) ->
  let h' := snd (extend depth Parent exts h) in
  length (objs h') = S (length (objs h)) /\
  (forall o, o < length (objs h) -> objs h' !! o = objs h !! o) /\
  funs h `prefix_of` funs h' /\
  getPrototypeOf h' (length (objs h)) = Some (prototype Parent) /\
  (forall C, fst (extend depth Parent exts h) = Normal C ->
             prototype C = length (objs h)).
Proof.
  intros Htame. cbv zeta. rewrite extend_unfold. cbv zeta.
  pose proof (mergeProperties_heap depth (prototype Parent) (length (objs h))
                exts h Htame _ (_Meta Parent)
                (elsewhere_class_extends (prototype Parent) h)) as Hm.
  rewrite class_extends_unfold in Hm |- *. cbn [snd] in Hm |- *.
  destruct (mergeProperties _ _ _ _ _ _) as [[r h2] b'].
  destruct Hm as (Hlen & Hoth & Hfun & Hpro & _).
  cbn in Hlen, Hoth, Hfun, Hpro.
  assert (Hall : length (objs h2) = S (length (objs h)) /\
                 (forall o, o < length (objs h) ->
                            objs h2 !! o = objs h !! o) /\
                 funs h `prefix_of` funs h2 /\
                 getPrototypeOf h2 (length (objs h))
                 = Some (prototype Parent)).
  { split_and!.
    - rewrite Hlen, length_app. cbn. lia.
    - intros o Ho. rewrite Hoth by lia. now apply lookup_app_l.
    - etrans; [|exact Hfun]. now apply prefix_app_r.
    - rewrite Hpro. unfold getPrototypeOf. cbn.
      now rewrite snoc_lookup_last. }
  destruct Hall as (A & B & C & D).
  destruct r; cbn; split_and!; auto; intros C0 [= <-]; reflexivity.
Qed.

(** Why tameness is asked for: a descriptor with a [define] of its own is
    run by [extend] like the one of [Computed], and what it does to the
    objects that were there is its own business; this one writes on
    itself. *)
Example homemade_define_is_run :
  fst homemade_descriptor = VObj 4 /\
  getOwnPropertyDescriptor (snd homemade_descriptor) 4 "touched" = None /\
  (let r := extend stack (fst Person_def) [("title", fst homemade_descriptor)]
                   (snd homemade_descriptor) in
   fst r = Normal (mkClass 5 []) /\
   getOwnPropertyDescriptor (snd r) 4 "touched"
   = Some (DataProp (VBool true)) /\
   getOwnPropertyDescriptor (snd r) 5 "title" = None).
Proof. vm_compute. repeat split. Qed.

(** X14: A subclass inherits: after [extend] with tame extensions, a name
    that is neither among the extension keys nor [constructor] resolves on
    the new prototype to what it resolves to on the prototype of the parent
    class; [constructor], unless it is among the keys, is an own property of
    the new prototype and holds the function of the new class. *)
Theorem subclass_inherits
    (depth : nat) (Parent C : Class) (exts : list (string * Value))
    (h h' : Heap) :
  extend depth Parent exts h = (Normal C, h') ->
  (forall key value, (key, value) ∈ exts -> tame (length (objs h)) h value) ->
  (forall name pd,
     name ∉ keys exts ->
     name <> "constructor" ->
     getPropertyDescriptor h (prototype Parent) name = Some pd ->
     getPropertyDescriptor h' (prototype C) name = Some pd) /\
  ("constructor" ∉ keys exts ->
   getOwnPropertyDescriptor h' (prototype C) "constructor"
   = Some (DataProp (VFun (length (funs h)))) /\
   funs h' !! length (funs h) = Some (ClassConstructor (prototype C))).
Proof.
  rewrite extend_unfold. cbv zeta. intros He Htame.
  pose proof (mergeProperties_heap depth (prototype Parent) (length (objs h))
                exts h Htame _ (_Meta Parent)
                (elsewhere_class_extends (prototype Parent) h)) as Hm.
  rewrite class_extends_unfold in Hm, He. cbn [snd] in Hm, He.
  set (h1 := mkHeap _ _) in Hm, He.
  destruct (mergeProperties _ _ _ _ _ _) as [[[[]|e] h2] b'];
    [|discriminate].
  injection He as <- <-. cbn [prototype].
  destruct Hm as (Hlen & _ & Hfun & _ & Hkeep & _).
  assert (Hnew : length (objs h) < length (objs h1)).
  { unfold h1. cbn. rewrite length_app. cbn. lia. }
  split.
  - intros name pd Hname Hnc Hg.
    specialize (Hkeep name Hname).
    assert (K0 : keeps_name name h h1).
    { intros i x Hi. exists x. split_and!; auto. unfold h1. cbn.
      rewrite lookup_app_l; [exact Hi|]. now apply lookup_lt_Some in Hi. }
    assert (K : keeps_name name h h2) by (eapply keeps_name_trans; eauto).
    destruct (keeps_name_own _ _ _ _ Hkeep Hnew) as [Ho Hp].
    unfold getPropertyDescriptor at 1. rewrite Ho, Hp.
    unfold getOwnPropertyDescriptor, getPrototypeOf, h1. cbn.
    rewrite snoc_lookup_last. cbn. rewrite lookup_insert_ne by congruence.
    rewrite lookup_empty.
    assert (Hw : walk_chain (S (length (objs h))) h (Some (prototype Parent))
                            name = Some pd).
    { cbn. exact Hg. }
    eapply walk_chain_stable; [exact K|exact Hw|].
    rewrite Hlen. unfold h1. cbn. rewrite length_app. cbn. lia.
  - intros Hc. split.
    + destruct (keeps_name_own _ _ _ _ (Hkeep _ Hc) Hnew) as [-> _].
      unfold getOwnPropertyDescriptor, h1. cbn.
      rewrite snoc_lookup_last. cbn. now rewrite lookup_insert_eq.
    + eapply prefix_lookup_Some; [|exact Hfun]. unfold h1. cbn.
      apply snoc_lookup_last.
Qed.

(** X15: The extensions become own properties of the new prototype: when
    [extend] returns, with distinct keys and tame extensions, every key is
    an own property of the prototype of the new class, and a key given a
    plain value (not a function, not an object) holds that value, whatever
    the parent class has under the same name. *)
Theorem extend_installs_extensions
    (depth : nat) (Parent C : Class) (exts : list (string * Value))
    (h h' : Heap) (key : string) (value : Value) :
  extend depth Parent exts h = (Normal C, h') ->
  (forall key value, (key, value) ∈ exts -> tame (length (objs h)) h value) ->
  NoDup (keys exts) ->
  (key, value) ∈ exts ->
  is_Some (getOwnPropertyDescriptor h' (prototype C) key) /\
  (plain value = true ->
   getOwnPropertyDescriptor h' (prototype C) key = Some (DataProp value) /\
   getPropertyDescriptor h' (prototype C) key = Some (DataProp value)).
Proof.
  rewrite extend_unfold. cbv zeta. intros He Htame.
  pose proof (mergeProperties_heap depth (prototype Parent) (length (objs h))
                exts h Htame _ (_Meta Parent)
                (elsewhere_class_extends (prototype Parent) h)) as Hm.
  rewrite class_extends_unfold in Hm, He. cbn [snd] in Hm, He.
  set (h1 := mkHeap _ _) in Hm, He.
  destruct (mergeProperties _ _ _ _ _ _) as [[[[]|e] h2] b'];
    [|discriminate].
  injection He as <- <-. intros Hnd Hin. cbn [prototype].
  destruct Hm as (_ & _ & _ & _ & _ & _ & Hinst).
  assert (Hnew : length (objs h) < length (objs h1)).
  { unfold h1. cbn. rewrite length_app. cbn. lia. }
  destruct (Hinst eq_refl Hnd Hnew key value Hin) as [Hs Hp].
  split; [exact Hs|]. intros Hpl. specialize (Hp Hpl).
  split; [exact Hp|]. now apply getPropertyDescriptor_own.
Qed.

(** X16: [reopen] changes the class where it stands: with tame extensions,
    no object is created, the class keeps its prototype, only that prototype
    is written to; so an object made before, whose prototype it is, sees a
    member added by [reopen] (here one with a plain value) unless it has a
    property of that name of its own. *)
Theorem reopen_changes_class_in_place
    (depth : nat) (this C' : Class) (exts : list (string * Value))
    (h h' : Heap) :
  reopen depth this exts h = (Normal C', h') ->
  (forall key value, (key, value) ∈ exts -> tame (prototype this) h value) ->
  prototype this < length (objs h) ->
  NoDup (keys exts) ->
  prototype C' = prototype this /\
  length (objs h') = length (objs h) /\
  (forall o, o <> prototype this -> objs h' !! o = objs h !! o) /\
  (forall inst key value,
     (key, value) ∈ exts ->
     plain value = true ->
     inst <> prototype this ->
     getPrototypeOf h inst = Some (prototype this) ->
     getOwnPropertyDescriptor h inst key = None ->
     getPropertyDescriptor h' inst key = Some (DataProp value)).
Proof.
  unfold reopen. intros He Htame.
  pose proof (mergeProperties_heap depth (prototype this) (prototype this)
                exts h Htame h (_Meta this) (elsewhere_refl _ _)) as Hm.
  destruct (mergeProperties _ _ _ _ _ _) as [[[[]|e] h2] b'];
    [|discriminate].
  injection He as <- <-. intros Hlt Hnd.
  destruct Hm as (Hlen & Hoth & _ & _ & _ & _ & Hinst).
  split_and!; auto.
  intros inst key value Hin Hpl Hne Hproto Hown.
  destruct (Hinst eq_refl Hnd Hlt key value Hin) as [_ Hp].
  specialize (Hp Hpl).
  unfold getPropertyDescriptor, getOwnPropertyDescriptor, getPrototypeOf in *.
  rewrite (Hoth inst Hne).
  destruct (objs h !! inst) as [o|]; [|discriminate].
  rewrite Hown, Hproto, Hlen.
  destruct (length (objs h)) as [|n]; [lia|]. cbn.
  unfold getOwnPropertyDescriptor. now rewrite Hp.
Qed.

(** X17: Extensions that make [mergeProperties] raise a TypeError: a null
    value ([typeof null] is "object", and [in] applied to null throws), so
    that [extend] and [reopen] raise when the other values are not objects;
    an object that carries the descriptor marker but whose [define] is
    missing or is not a function; and a descriptor of [Computed] whose
    callback is neither a function nor undefined, unless the name is an
    accessor of the superclass.  In the last two cases the heap is as
    before. *)
Theorem malformed_extension_raises
    (depth : nat) (Parent : Class) (exts : list (string * Value))
    (h : Heap) :
  (VNull ∈ exts.*2 ->
   (forall key o, (key, VObj o) ∉ exts) ->
   fst (extend depth Parent exts h) = Thrown TypeError /\
   fst (reopen depth Parent exts h) = Thrown TypeError) /\
  (forall superProto proto key o builder,
     has_property h o DESCRIPTOR = true ->
     (getPropertyDescriptor h o "define" = None \/
      exists v, getPropertyDescriptor h o "define" = Some (DataProp v) /\
                forall f, v <> VFun f) ->
     mergeProperty depth superProto proto key (VObj o) h builder
     = (Thrown TypeError, h, builder)) /\
  (forall superProto proto key o builder cb,
     has_property h o DESCRIPTOR = true ->
     (forall h', elsewhere proto h h' -> Computed_protocol h' o) ->
     getPropertyDescriptor h o "callback" = Some (DataProp cb) ->
     cb <> VUndefined ->
     (forall f, cb <> VFun f) ->
     (forall g, getPropertyDescriptor h superProto key
                <> Some (AccessorProp g)) ->
     0 < depth ->
     mergeProperty depth superProto proto key (VObj o) h builder
     = (Thrown TypeError, h, builder)).
Proof.
  split_and!.
  - intros Hin Hno. rewrite extend_unfold. cbv zeta. unfold reopen.
    pose proof (mergeProperties_null depth (prototype Parent)
                  (length (objs h)) exts Hno Hin
                  (snd (class_extends (prototype Parent) h)) (_Meta Parent))
      as He.
    pose proof (mergeProperties_null depth (prototype Parent)
                  (prototype Parent) exts Hno Hin h (_Meta Parent)) as Hr.
    destruct (mergeProperties depth (prototype Parent) (length (objs h)) _ _ _)
      as [[re he] be].
    destruct (mergeProperties depth (prototype Parent) (prototype Parent) _ _ _)
      as [[rr hr] br].
    cbn in He, Hr. subst re rr. now split.
  - intros superProto proto key o builder Hhas Hdef.
    unfold mergeProperty. rewrite Hhas. unfold Descriptor_define.
    assert (Ho : is_Some (objs h !! o)).
    { unfold has_property in Hhas.
      apply bool_decide_eq_true in Hhas as [pd Hpd].
      apply lookup_lt_is_Some_2. eapply getPropertyDescriptor_exists; eauto. }
    destruct Hdef as [Hnone|[v [Hv Hnf]]].
    + unfold get_with. destruct Ho as [x ->]. rewrite Hnone.
      now destruct depth.
    + rewrite (get_with_data _ _ _ _ _ Hv).
      destruct v; try (now destruct depth). now destruct (Hnf f).
  - intros superProto proto key o builder cb Hhas Hrob Hcb Hnu Hnf Hsup Hd.
    destruct depth as [|n]; [lia|].
    rewrite (mergeProperty_computed n superProto proto key o h builder cb
               Hhas Hcb Hrob).
    unfold wrapAccessor.
    destruct (getPropertyDescriptor h superProto key) as [[v|g]|];
      [|now destruct (Hsup g)|];
      destruct cb; cbn; try reflexivity; try congruence;
      now destruct (Hnf f).
Qed.

(** X18: A method installed by [reopen] under a name that the class
    already has is wrapped with the class's own prototype as its home, where
    the wrapper itself is then installed; so if its body is
    [return this._super(...arguments)], calling it re-enters the wrapper
    until the stack is exhausted: whatever the room on the stack, the call
    raises a RangeError, and every wrapper on the way has put [_super] back,
    which leaves the objects as they were before the call. *)
Theorem reopened_method_calling_super_overflows
    (depth room : nat) (C : Class) (key : string) (f : nat) (h : Heap)
    (this : nat) (v : Value) (args : list Value) :
  has_property h (prototype C) key = true ->
  funs h !! f = Some call_super ->
  getOwnPropertyDescriptor h this "_super" = Some (DataProp v) ->
  this <> prototype C ->
  let h' := snd (reopen depth C [(key, VFun f)] h) in
  let w := length (funs h) in
  funs h' !! w = Some (MethodWrapper (prototype C) key (VFun f)) /\
  getPropertyDescriptor h' (prototype C) key = Some (DataProp (VFun w)) /\
  fst (apply room h' (VFun w) this args) = Thrown RangeError /\
  objs (snd (apply room h' (VFun w) this args)) = objs h' /\
  getPropertyDescriptor (snd (apply room h' (VFun w) this args))
                        this "_super"
  = Some (DataProp v).
Proof.
  intros Hhas Hf Hs Hne h' w. subst h' w.
  rewrite reopen_method. cbn [snd]. unfold wrapMethod. rewrite Hhas.
  cbn [negb alloc_fun fst snd].
  assert (Hpc : prototype C < length (objs h)).
  { unfold has_property in Hhas. apply bool_decide_eq_true in Hhas as [pd Hpd].
    eapply getPropertyDescriptor_exists; eauto. }
  set (h1 := mkHeap (objs h)
                    (funs h ++ [MethodWrapper (prototype C) key (VFun f)])).
  set (h2 := defineProperty (prototype C) key
               (DataProp (VFun (length (funs h)))) h1).
  assert (Hs2 : getOwnPropertyDescriptor h2 this "_super"
                = Some (DataProp v)).
  { unfold h2. rewrite getOwn_defineProperty_ne by congruence. exact Hs. }
  assert (SH : self_homed (prototype C) key (length (funs h)) f call_super this
                 h2).
  { split.
    - cbn. apply snoc_lookup_last.
    - cbn. rewrite lookup_app_l; [exact Hf|]. now apply lookup_lt_Some in Hf.
    - now apply getOwn_defineProperty.
    - now exists v.
    - exact Hne. }
  destruct (reopened_super_overflows (prototype C) key (length (funs h)) f
              this room h2 args v SH Hs2) as (E1 & E2 & _).
  split_and!.
  - apply (sh_wrapper _ _ _ _ _ _ _ SH).
  - apply getPropertyDescriptor_own, (sh_installed _ _ _ _ _ _ _ SH).
  - exact E1.
  - exact E2.
  - apply getPropertyDescriptor_own.
    unfold getOwnPropertyDescriptor in *. now rewrite E2.
Qed.

(** X19: Under a wrapper whose home holds a method [m] under the name, a body
    that is [return this._super(...arguments)] behaves as [m] called on the
    same [this] with the same arguments: same result, same exception, and
    [this._super] put back. *)
Theorem super_call_reaches_parent_method
    (n : nat) (h : Heap) (w f m this home : nat) (name : string)
    (args : list Value) (v : Value) :
  funs h !! w = Some (MethodWrapper home name (VFun f)) ->
  funs h !! f = Some call_super ->
  getPropertyDescriptor h home name = Some (DataProp (VFun m)) ->
  getPropertyDescriptor h this "_super" = Some (DataProp v) ->
  name <> "_super" ->
  apply (3 + n) h (VFun w) this args =
  (let (r, h4) := apply n (during_call (MethodSuper home name) this h)
                        (VFun m) this args in
   (r, set_own this "_super" v h4)).
Proof.
  intros Hw Hf Hm Hs Hname.
  change (3 + n) with (S (2 + n)).
  rewrite (method_wrapper_call (2 + n) h w this args home name (VFun f) v
             Hw Hs).
  pose proof (getPropertyDescriptor_exists _ _ _ _ Hs) as Hlt.
  destruct (during_call_super (MethodSuper home name) this h Hlt) as [D1 D2].
  assert (Hf3 : funs (during_call (MethodSuper home name) this h) !! f
                = Some call_super).
  { cbn. rewrite lookup_app_l; [exact Hf|]. now apply lookup_lt_Some in Hf. }
  assert (Hm3 : getPropertyDescriptor
                  (during_call (MethodSuper home name) this h) home name
                = Some (DataProp (VFun m))).
  { eapply getPropertyDescriptor_stable; [|exact Hm].
    unfold during_call, set_own.
    eapply keeps_name_trans;
      [apply (keeps_name_funs _ _ (funs h ++ [MethodSuper home name]))|].
    now apply keeps_name_defineProperty. }
  set (h3 := during_call (MethodSuper home name) this h) in *.
  clearbody h3.
  assert (E : apply (2 + n) h3 (VFun f) this args
              = apply n h3 (VFun m) this args); [|now rewrite E].
  change (2 + n) with (S (S n)).
  cbn [apply]. rewrite Hf3. unfold call_super. cbn [run_with].
  rewrite (get_with_data _ _ _ _ _ D1).
  cbn [apply]. rewrite D2.
  rewrite (get_with_data _ _ _ _ _ Hm3).
  now destruct (apply n h3 (VFun m) this args) as [[r|e] h4].
Qed.


End HObjectMore.
(** ** The further properties on the sample states *)

Section MoreWitnesses.
Import Normalize Content FlatTree Samples.
Local Open Scope list_scope.

Lemma append_renders_and_registers_bounds_witness :
  w_stack world_const = [mkReference true 0] /\
  w_refs world_const !! 0 = Some (mkRefCell 0 (Str "hello")) /\
  normalizeValue (Str "hello") = Normal (Str "hello") /\
  (let '(r, w', t) := AppendDynamicOpcode_evaluate Cautious world_const in
   r = Normal tt /\
   w_stack w' = [] /\
   w_fragments w' = [mkFBounds 0 0 0] /\
   w_blocks w' = [0]).
Proof.
  do 3 (split; [reflexivity|]).
  pose proof (append_renders_and_registers_bounds Cautious world_const
                (mkReference true 0) [] (mkRefCell 0 (Str "hello"))
                (Str "hello") eq_refl eq_refl eq_refl) as P.
  cbv zeta in P.
  destruct (AppendDynamicOpcode_evaluate Cautious world_const) as [[r w'] t].
  destruct P as (P1 & P2 & _ & P4 & P5 & _).
  split_and!; [exact P1|exact P2|exact P4|exact P5].
Defined.

Lemma append_failure_leaves_tree_witness :
  w_stack world_throwing = [mkReference false 0] /\
  w_refs world_throwing !! 0 = Some (mkRefCell 0 throwing_toString) /\
  normalizeValue throwing_toString = Thrown "boom" /\
  (let '(r, w', t) := AppendDynamicOpcode_evaluate Cautious world_throwing in
   r = Thrown "boom" /\
   w_tree w' = w_tree world_throwing /\
   w_updating w' = [] /\
   length (w_caches w') = 1).
Proof.
  do 3 (split; [reflexivity|]).
  pose proof (append_failure_leaves_tree Cautious world_throwing
                (mkReference false 0) [] (mkRefCell 0 throwing_toString)
                "boom" eq_refl eq_refl eq_refl) as P.
  destruct (AppendDynamicOpcode_evaluate Cautious world_throwing)
    as [[r w'] t].
  destruct P as (P1 & _ & P3 & _ & _ & _ & P7 & _ & _ & P10).
  split_and!; [exact P1|exact P3|exact P7|now rewrite P10].
Defined.

Lemma world_rendered_consistent : consistent world_rendered.
Proof.
  split.
  - intros [|i] op; [intros [= <-]; reflexivity|discriminate].
  - intros [|i] op; [intros [= <-]|discriminate].
    eexists _, _. split_and!; reflexivity.
  - intros [|i] [|j] op op'; try discriminate. reflexivity.
Qed.

Lemma with_refs_consistent (refs : list RefCell) (w : World) :
  consistent w -> consistent (with_refs refs w).
Proof. intros [P C E]. now split. Qed.

Lemma successful_update_patches_in_place_witness :
  let w := with_refs refs_six world_rendered in
  w_opcodes w !! 0 = Some rendered_opcode /\
  fst (fst (ReferenceCache_revalidate 0 w)) = Normal (Modified (Str "6")) /\
  fst (fst (flat_update (mkFUpsert KText (mkFBounds 0 0 0)) (Str "6")
                        (mkFTree [mkFNode 0 (PText "5")] 1))) = true /\
  w_fragments w !! 0 = Some (mkFBounds 0 0 0) /\
  (let '(r, w', t) := UpdateOpcode_evaluate 0 w in
   r = Normal tt /\
   t_children (w_tree w') = [mkFNode 0 (PText "6")] /\
   w_opcodes w' !! 0 = Some rendered_opcode /\
   w_fragments w' !! 0 = Some (mkFBounds 0 0 0)).
Proof.
  intros w. do 4 (split; [reflexivity|]).
  pose proof (successful_update_patches_in_place 0 w
                (snd (fst (ReferenceCache_revalidate 0 w)))
                rendered_opcode (Str "6")
                (snd (ReferenceCache_revalidate 0 w))
                (mkFBounds 0 0 0) eq_refl eq_refl eq_refl eq_refl) as P.
  cbv zeta in P.
  destruct (UpdateOpcode_evaluate 0 w) as [[r w'] t].
  destruct P as (P1 & _ & P3 & P4 & P5 & _).
  split_and!; [exact P1|now rewrite P3|exact P4|exact P5].
Defined.

Lemma update_tick_keeps_consistency_witness :
  consistent (with_refs refs_node world_rendered) /\
  consistent
    (snd (fst (UpdateOpcode_evaluate 0 (with_refs refs_node world_rendered)))).
Proof.
  assert (Hc : consistent (with_refs refs_node world_rendered))
    by apply with_refs_consistent, world_rendered_consistent.
  split; [exact Hc|].
  exact (update_tick_keeps_consistency 0 _ Hc).
Defined.


Lemma append_keeps_consistency_witness :
  w_opcodes world_var = [] /\
  consistent world_var /\
  consistent (snd (fst (AppendDynamicOpcode_evaluate Cautious world_var))).
Proof.
  destruct (append_keeps_consistency Cautious world_var) as [P0 P1].
  split; [reflexivity|]. split; [exact (P0 eq_refl)|exact (P1 (P0 eq_refl))].
Defined.

Lemma ticks_after_append_change_nothing_witness :
  w_stack world_var = [mkReference false 0] /\
  isConst (mkReference false 0) = false /\
  w_refs world_var !! 0 = Some (mkRefCell 0 five) /\
  normalizeValue five = Normal (Str "5") /\
  ticks 4 0 world_rendered
  = (Normal tt, world_rendered, repeat (ERevalidate 0) 4).
Proof.
  do 4 (split; [reflexivity|]).
  exact (ticks_after_append_change_nothing Cautious world_var
           (mkReference false 0) [] (mkRefCell 0 five) (Str "5") 4
           eq_refl eq_refl eq_refl eq_refl).
Defined.

Lemma change_after_append_reaches_update_witness :
  w_stack world_var = [mkReference false 0] /\
  w_refs world_var !! 0 = Some (mkRefCell 0 five) /\
  normalizeValue five = Normal (Str "5") /\
  refs_node !! 0 = Some (mkRefCell 1 a_node) /\
  1 <> 0 /\
  normalizeValue a_node = Normal a_node /\
  (let '(r, w'', t) :=
     UpdateOpcode_evaluate 0 (with_refs refs_node world_rendered) in
   r = Normal tt /\
   t_children (w_tree w'') = [mkFNode 1 (PAdopted 5)] /\
   w_fragments w'' !! 0 = Some (mkFBounds 0 1 1)).
Proof.
  do 4 (split; [reflexivity|]). split; [discriminate|].
  split; [reflexivity|].
  pose proof (change_after_append_reaches_update Cautious world_var
                (mkReference false 0) [] (mkRefCell 0 five) (Str "5")
                refs_node (mkRefCell 1 a_node) a_node
                eq_refl eq_refl eq_refl eq_refl eq_refl
                (fun E : 1 = 0 => O_S 0 (eq_sym E)) eq_refl) as P.
  cbv zeta in P.
  change (UpdateOpcode_evaluate 0 (with_refs refs_node world_rendered))
    with (UpdateOpcode_evaluate (length (w_opcodes world_var))
            (with_refs refs_node
               (snd (fst (AppendDynamicOpcode_evaluate Cautious world_var))))).
  destruct (UpdateOpcode_evaluate _ _) as [[r w''] t].
  destruct P as (P1 & _ & P3 & P4 & _).
  split_and!; [exact P1|rewrite P3; reflexivity|exact P4].
Defined.

End MoreWitnesses.

(** ** The further properties of the object model on the sample program *)

Section HObjectWitnesses.
Import HObject HObjectRel HSamples.
Local Open Scope list_scope.

Ltac in_list := apply list_elem_of_In; cbn; auto.
Ltac not_in_list :=
  let Hin := fresh in
  intros Hin; apply list_elem_of_In in Hin; cbn in Hin;
  intuition discriminate.
Ltac no_dup :=
  apply NoDup_ListNoDup; cbn; repeat constructor; cbn; intuition discriminate.

(** The descriptors made by [computed] in the sample program are instances
    of [Computed]. *)
Lemma computed_reader_instance :
  Computed_instance (snd computed_reader) Computed_proto 4.
Proof.
  split; try (vm_compute; reflexivity).
  - exists (VFun 8). vm_compute. reflexivity.
  - exists 2. split; vm_compute; reflexivity.
  - exists 3. split; vm_compute; reflexivity.
Qed.

Lemma computed_five_instance :
  Computed_instance (snd computed_five) Computed_proto 4.
Proof.
  split; try (vm_compute; reflexivity).
  - exists (VNum 5). vm_compute. reflexivity.
  - exists 2. split; vm_compute; reflexivity.
  - exists 3. split; vm_compute; reflexivity.
Qed.

(** Extensions made of a method and a computed descriptor are tame. *)
Lemma method_and_computed_tame (proto : nat) :
  4 <> proto -> Computed_proto <> proto ->
  forall key value,
    (key, value) ∈ [("greet", VFun 6); ("title", VObj 4)] ->
    tame proto (snd computed_reader) value.
Proof.
  intros H4 Hc key value Hin. apply list_elem_of_In in Hin. cbn in Hin.
  destruct Hin as [[= <- <-]|[[= <- <-]|[]]].
  - now apply tame_not_object.
  - now apply (Computed_instance_tame proto _ Computed_proto 4
                 computed_reader_instance).
Qed.

(** Extensions without an object among their values are tame. *)
Lemma no_object_tame (proto : nat) (h : Heap)
    (exts : list (string * Value)) :
  (forall key o, (key, VObj o) ∉ exts) ->
  forall key value, (key, value) ∈ exts -> tame proto h value.
Proof.
  intros Hno key value Hin. apply tame_not_object. intros o ->.
  now apply (Hno key o).
Qed.

Lemma extend_leaves_existing_objects_witness :
  (forall key value,
     (key, value) ∈ [("greet", VFun 6); ("title", VObj 4)] ->
     tame (length (objs (snd computed_reader))) (snd computed_reader) value) /\
  3 < length (objs (snd computed_reader)) /\
  (let h' := snd (extend stack (fst Person_def)
                         [("greet", VFun 6); ("title", VObj 4)]
                         (snd computed_reader)) in
   objs h' !! 3 = objs (snd computed_reader) !! 3 /\
   getPrototypeOf h' 5 = Some 3).
Proof.
  assert (Ht : forall key value,
             (key, value) ∈ [("greet", VFun 6); ("title", VObj 4)] ->
             tame (length (objs (snd computed_reader)))
                  (snd computed_reader) value).
  { apply method_and_computed_tame; vm_compute; discriminate. }
  assert (Hlt : 3 < length (objs (snd computed_reader)))
    by (vm_compute; lia).
  split; [exact Ht|]. split; [exact Hlt|].
  destruct (extend_leaves_existing_objects stack (fst Person_def)
              [("greet", VFun 6); ("title", VObj 4)] (snd computed_reader) Ht)
    as (_ & Hsame & _ & Hproto & _).
  split; [exact (Hsame 3 Hlt)|exact Hproto].
Defined.

Lemma subclass_inherits_witness :
  extend stack (fst Person_def) [("greet", VFun 6)] (snd Person_def)
  = (Normal (fst Polite_def), snd Polite_def) /\
  (forall key value,
     (key, value) ∈ [("greet", VFun 6)] ->
     tame (length (objs (snd Person_def))) (snd Person_def) value) /\
  ("title" ∉ keys [("greet", VFun 6)]) /\
  "title" <> "constructor" /\
  getPropertyDescriptor (snd Person_def) (prototype (fst Person_def)) "title"
  = Some (DataProp (VString "plain")) /\
  getPropertyDescriptor (snd Polite_def) (prototype (fst Polite_def)) "title"
  = Some (DataProp (VString "plain")) /\
  ("constructor" ∉ keys [("greet", VFun 6)]) /\
  getOwnPropertyDescriptor (snd Polite_def) (prototype (fst Polite_def))
                           "constructor"
  = Some (DataProp (VFun 10)) /\
  funs (snd Polite_def) !! 10 = Some (ClassConstructor 4).
Proof.
  assert (Ht : forall key value,
             (key, value) ∈ [("greet", VFun 6)] ->
             tame (length (objs (snd Person_def))) (snd Person_def) value).
  { apply no_object_tame. intros key o. not_in_list. }
  assert (Hn : "title" ∉ keys [("greet", VFun 6)]) by not_in_list.
  assert (Hc : "constructor" ∉ keys [("greet", VFun 6)]) by not_in_list.
  assert (Hne : "title" <> "constructor") by discriminate.
  destruct (subclass_inherits stack (fst Person_def) (fst Polite_def)
              [("greet", VFun 6)] (snd Person_def) (snd Polite_def)
              eq_refl Ht) as [Hinh Hctor].
  split; [reflexivity|]. split; [exact Ht|]. split; [exact Hn|].
  split; [exact Hne|]. split; [reflexivity|].
  split; [exact (Hinh "title" _ Hn Hne eq_refl)|].
  split; [exact Hc|]. exact (Hctor Hc).
Defined.

Lemma extend_installs_extensions_witness :
  extend stack HTMLBarsObject [("greet", VFun 5); ("title", VString "plain")]
         program_heap
  = (Normal (fst Person_def), snd Person_def) /\
  (forall key value,
     (key, value) ∈ [("greet", VFun 5); ("title", VString "plain")] ->
     tame (length (objs program_heap)) program_heap value) /\
  NoDup (keys [("greet", VFun 5); ("title", VString "plain")]) /\
  ("title", VString "plain")
    ∈ [("greet", VFun 5); ("title", VString "plain")] /\
  plain (VString "plain") = true /\
  getPropertyDescriptor (snd Person_def) (prototype (fst Person_def)) "title"
  = Some (DataProp (VString "plain")).
Proof.
  assert (Ht : forall key value,
             (key, value) ∈ [("greet", VFun 5); ("title", VString "plain")] ->
             tame (length (objs program_heap)) program_heap value).
  { apply no_object_tame. intros key o. not_in_list. }
  assert (Hnd : NoDup (keys [("greet", VFun 5); ("title", VString "plain")]))
    by no_dup.
  assert (Hin : ("title", VString "plain")
                  ∈ [("greet", VFun 5); ("title", VString "plain")])
    by in_list.
  split; [reflexivity|]. split; [exact Ht|]. split; [exact Hnd|].
  split; [exact Hin|]. split; [reflexivity|].
  exact (proj2 (proj2 (extend_installs_extensions stack HTMLBarsObject
                         (fst Person_def)
                         [("greet", VFun 5); ("title", VString "plain")]
                         program_heap (snd Person_def)
                         "title" (VString "plain") eq_refl Ht Hnd Hin)
                      eq_refl)).
Defined.

Lemma reopen_changes_class_in_place_witness :
  reopen stack (fst Person_def) [("motto", VString "hi")] person_heap
  = (Normal (fst Person_motto), snd Person_motto) /\
  (forall key value,
     (key, value) ∈ [("motto", VString "hi")] ->
     tame (prototype (fst Person_def)) person_heap value) /\
  prototype (fst Person_def) < length (objs person_heap) /\
  NoDup (keys [("motto", VString "hi")]) /\
  getPrototypeOf person_heap 4 = Some (prototype (fst Person_def)) /\
  getOwnPropertyDescriptor person_heap 4 "motto" = None /\
  getPropertyDescriptor (snd Person_motto) 4 "motto"
  = Some (DataProp (VString "hi")).
Proof.
  assert (Ht : forall key value,
             (key, value) ∈ [("motto", VString "hi")] ->
             tame (prototype (fst Person_def)) person_heap value).
  { apply no_object_tame. intros key o. not_in_list. }
  assert (Hlt : prototype (fst Person_def) < length (objs person_heap))
    by (vm_compute; lia).
  assert (Hnd : NoDup (keys [("motto", VString "hi")])) by no_dup.
  assert (Hin : ("motto", VString "hi") ∈ [("motto", VString "hi")])
    by in_list.
  split; [reflexivity|]. split; [exact Ht|]. split; [exact Hlt|].
  split; [exact Hnd|]. split; [reflexivity|]. split; [reflexivity|].
  destruct (reopen_changes_class_in_place stack (fst Person_def)
              (fst Person_motto) [("motto", VString "hi")] person_heap
              (snd Person_motto) eq_refl Ht Hlt Hnd) as (_ & _ & _ & Hsee).
  apply (Hsee 4 "motto" (VString "hi") Hin eq_refl);
    [vm_compute; discriminate|reflexivity|reflexivity].
Defined.

Lemma malformed_extension_raises_witness :
  (* { nothing: null } *)
  ((VNull ∈ [("nothing", VNull)].*2) /\
   (forall key o, (key, VObj o) ∉ [("nothing", VNull)]) /\
   fst (extend stack HTMLBarsObject [("nothing", VNull)] program_heap)
   = Thrown TypeError /\
   fst (reopen stack HTMLBarsObject [("nothing", VNull)] program_heap)
   = Thrown TypeError) /\
  (* { title: { [DESCRIPTOR]: true } } *)
  (has_property (snd marked_only) 4 DESCRIPTOR = true /\
   getPropertyDescriptor (snd marked_only) 4 "define" = None /\
   mergeProperty stack 3 5 "title" (VObj 4) (snd marked_only) []
   = (Thrown TypeError, snd marked_only, [])) /\
  (* { title: computed(5) } *)
  (has_property (snd computed_five) 4 DESCRIPTOR = true /\
   getPropertyDescriptor (snd computed_five) 4 "callback"
   = Some (DataProp (VNum 5)) /\
   0 < stack /\
   mergeProperty stack 3 5 "title" (VObj 4) (snd computed_five) []
   = (Thrown TypeError, snd computed_five, [])).
Proof.
  assert (Hin : VNull ∈ [("nothing", VNull)].*2) by in_list.
  assert (Hno : forall key o, (key, VObj o) ∉ [("nothing", VNull)]).
  { intros key o. not_in_list. }
  assert (Hlt : 0 < stack) by (unfold stack; lia).
  split; [|split].
  - split; [exact Hin|]. split; [exact Hno|].
    exact (proj1 (malformed_extension_raises stack HTMLBarsObject
                    [("nothing", VNull)] program_heap) Hin Hno).
  - split; [reflexivity|]. split; [reflexivity|].
    apply (proj1 (proj2 (malformed_extension_raises stack HTMLBarsObject []
                           (snd marked_only))));
      [reflexivity|left; reflexivity].
  - split; [reflexivity|]. split; [reflexivity|]. split; [exact Hlt|].
    apply (proj2 (proj2 (malformed_extension_raises stack HTMLBarsObject []
                           (snd computed_five)))
             3 5 "title" 4 [] (VNum 5)).
    + reflexivity.
    + apply (Computed_instance_protocol 5 _ Computed_proto 4
               computed_five_instance); vm_compute; discriminate.
    + reflexivity.
    + discriminate.
    + discriminate.
    + intros g. vm_compute. discriminate.
    + exact Hlt.
Defined.

Lemma reopened_method_calling_super_overflows_witness :
  has_property person_heap (prototype (fst Person_def)) "greet" = true /\
  funs person_heap !! 6 = Some call_super /\
  getOwnPropertyDescriptor person_heap 4 "_super" = Some (DataProp VNull) /\
  4 <> prototype (fst Person_def) /\
  (let h' := snd (reopen stack (fst Person_def) [("greet", VFun 6)]
                         person_heap) in
   fst (apply stack h' (VFun (length (funs person_heap))) 4 [])
   = Thrown RangeError /\
   getPropertyDescriptor
     (snd (apply stack h' (VFun (length (funs person_heap))) 4 []))
     4 "_super"
   = Some (DataProp VNull)).
Proof.
  assert (Hne : 4 <> prototype (fst Person_def)) by (vm_compute; discriminate).
  split; [reflexivity|]. split; [reflexivity|]. split; [reflexivity|].
  split; [exact Hne|].
  destruct (reopened_method_calling_super_overflows stack stack
              (fst Person_def) "greet" 6 person_heap 4 VNull []
              eq_refl eq_refl eq_refl Hne) as (_ & _ & E1 & _ & E3).
  split; [exact E1|exact E3].
Defined.

Lemma super_call_reaches_parent_method_witness :
  funs polite_heap !! 11 = Some (MethodWrapper 3 "greet" (VFun 6)) /\
  funs polite_heap !! 6 = Some call_super /\
  getPropertyDescriptor polite_heap 3 "greet" = Some (DataProp (VFun 5)) /\
  getPropertyDescriptor polite_heap 5 "_super" = Some (DataProp VNull) /\
  "greet" <> "_super" /\
  apply (3 + 2) polite_heap (VFun 11) 5 [] =
  (let (r, h4) := apply 2 (during_call (MethodSuper 3 "greet") 5 polite_heap)
                        (VFun 5) 5 [] in
   (r, set_own 5 "_super" VNull h4)).
Proof.
  assert (Hne : "greet" <> "_super") by discriminate.
  do 4 (split; [reflexivity|]). split; [exact Hne|].
  exact (super_call_reaches_parent_method 2 polite_heap 11 6 5 5 3 "greet" []
           VNull eq_refl eq_refl eq_refl eq_refl Hne).
Defined.


End HObjectWitnesses.
